(** * githd Dataloader: a read-through cache in front of the git service

    Shallow embedding of [src/dataloader.ts].  Asynchronous functions are
    written in a small resumption monad whose [Await] nodes are the
    [await] points of the source; the JavaScript event loop (timers,
    suspended tasks, watcher callbacks) is an explicit labelled transition
    system over that monad. *)

From Stdlib Require Import ZArith List String Ascii Bool Lia.
From Stdlib Require Import DecimalString DecimalZ.
Import ListNotations.


Local Open Scope string_scope.
Local Open Scope list_scope.

(* ================================================================= *)
(** ** JavaScript primitives used by the loader *)

Module Js.

(** [x ?? d] on an optional value. *)
Definition nullish {A} (x : option A) (d : A) : A :=
  match x with Some a => a | None => d end.

(** Truthiness of an optional boolean ([stash ? '1' : '']). *)
Definition truthyBool (b : option bool) : bool :=
  match b with Some true => true | _ => false end.

(** Truthiness of an optional integer number ([if (count)]):
    [undefined] and [0] are both falsy. *)
Definition truthyNum (n : option Z) : bool :=
  match n with Some z => negb (z =? 0)%Z | None => false end.

(** Template-literal rendering of an integer number. *)
Definition numberToString (z : Z) : string :=
  NilEmpty.string_of_int (Z.to_int z).

Definition length {A} (l : list A) : Z := Z.of_nat (List.length l).

(** [Array.prototype.slice(start, end)] on integer arguments: negative
    positions count from the end, everything is clamped to the array. *)
Definition clampIndex (len i : Z) : Z :=
  if (i <? 0)%Z then Z.max (len + i) 0 else Z.min i len.

Definition slice {A} (l : list A) (start stop : Z) : list A :=
  let len := length l in
  let from := clampIndex len start in
  let to := clampIndex len stop in
  firstn (Z.to_nat (to - from)) (skipn (Z.to_nat from) l).

(** [Array.prototype.indexOf] on strings: first position, or -1. *)
Fixpoint indexOf (l : list string) (x : string) : Z :=
  match l with
  | [] => (-1)%Z
  | y :: tl =>
      if String.eqb y x then 0%Z
      else let i := indexOf tl x in
           if (i <? 0)%Z then (-1)%Z else (i + 1)%Z
  end.

(** [a[i]]; [None] stands for [undefined]. *)
Definition at_ {A} (l : list A) (i : Z) : option A :=
  if (i <? 0)%Z then None else nth_error l (Z.to_nat i).

(** [a == b] on integer numbers. *)
Definition looseEq (a b : Z) : bool := (a =? b)%Z.

End Js.

(* ================================================================= *)
(** ** The bounded store: [lru-cache] *)

(** Modelled from the spec: the [LRUCache] class of the [lru-cache]
    package (section 4.2, Bounded Cache Store): [get] promotes the key to
    most-recently-used, [set] evicts the least-recently-used entry when the
    capacity would be exceeded, [clear] empties the map.  Entries are kept
    most-recently-used first. *)
Module Lru.

Record t (V : Type) : Type := mk { max : nat; items : list (string * V) }.

Arguments mk {V} _ _.
Arguments max {V} _.
Arguments items {V} _.

Definition create {V} (max : nat) : t V := mk max [].

Fixpoint find {V} (k : string) (l : list (string * V)) : option V :=
  match l with
  | [] => None
  | (k', v) :: tl => if String.eqb k' k then Some v else find k tl
  end.

Fixpoint remove {V} (k : string) (l : list (string * V)) : list (string * V) :=
  match l with
  | [] => []
  | (k', v) :: tl => if String.eqb k' k then remove k tl else (k', v) :: remove k tl
  end.

Definition get {V} (k : string) (c : t V) : option V * t V :=
  match find k (items c) with
  | Some v => (Some v, mk (max c) ((k, v) :: remove k (items c)))
  | None => (None, c)
  end.

Definition set {V} (k : string) (v : V) (c : t V) : t V :=
  mk (max c) (firstn (max c) ((k, v) :: remove k (items c))).

Definition clear {V} (c : t V) : t V := mk (max c) [].

End Lru.

(* ================================================================= *)
(** ** Cache keys *)

Definition countKey (branch author : string) : string :=
  branch ++ "," ++ author.

Definition logEntryKey (branch : string) (stash : option bool)
    (file : option string) (line : option Z) (author : option string) : string :=
  branch ++ "," ++ (if Js.truthyBool stash then "1" else "") ++ ","
         ++ Js.nullish file "" ++ ","
         ++ Js.nullish (option_map Js.numberToString line) "" ++ ","
         ++ Js.nullish author "".

(* ================================================================= *)
(** ** Collaborators *)

Record GitRepo : Type := { root : string }.

Record Uri : Type := { fsPath : string }.

Inductive Error : Type :=
| TypeError                      (* property access on [undefined] *)
| ServiceError (msg : string).   (* raised by the git service *)

(** Outcome of a promise: fulfilled with a value or rejected. *)
Inductive Res (A : Type) : Type :=
| Ok (a : A)
| Fail (e : Error).

Arguments Ok {A} a.
Arguments Fail {A} e.

Definition mapRes {A B} (f : A -> B) (r : Res A) : Res B :=
  match r with Ok a => Ok (f a) | Fail e => Fail e end.

Section Loader.

(** [GitLogEntry] is declared in [gitService.ts]; the loader never looks
    inside a log entry, so the type is a parameter of the development. *)
Context {GitLogEntry : Type}.

(** The operations of [GitService] the loader consumes (section 6). *)
Record GitService : Type := {
  liveCurrentBranch : GitRepo -> Res (option string);
  liveCommits : GitRepo -> option string -> Res (list string);
  liveCommitsCount : GitRepo -> string -> option string -> Res Z;
  liveLogEntries : GitRepo -> bool -> Z -> Z -> string -> option bool ->
                   option Uri -> option Z -> option string -> Res (list GitLogEntry)
}.

(** What a task can [await]: one call into the service, or the
    [Promise.all] of three of them. *)
Inductive LiveCall : Type -> Type :=
| GetCurrentBranch (repo : GitRepo) : LiveCall (option string)
| GetCommits (repo : GitRepo) (branch : option string) : LiveCall (list string)
| GetCommitsCount (repo : GitRepo) (branch : string) (author : option string) : LiveCall Z
| GetLogEntries (repo : GitRepo) (express : bool) (start count : Z) (branch : string)
    (isStash : option bool) (file : option Uri) (line : option Z)
    (author : option string) : LiveCall (list GitLogEntry)
| PromiseAll3 {A B C} (a : LiveCall A) (b : LiveCall B) (c : LiveCall C) : LiveCall (A * B * C).

(** Settling an awaited call against the service.  [Promise.all] rejects as
    soon as one member rejects; the leftmost rejection is reported. *)
Fixpoint perform (svc : GitService) {R} (c : LiveCall R) : Res R :=
  match c in LiveCall R return Res R with
  | GetCurrentBranch repo => liveCurrentBranch svc repo
  | GetCommits repo branch => liveCommits svc repo branch
  | GetCommitsCount repo branch author => liveCommitsCount svc repo branch author
  | GetLogEntries repo express start count branch isStash file line author =>
      liveLogEntries svc repo express start count branch isStash file line author
  | PromiseAll3 a b c =>
      match perform svc a, perform svc b, perform svc c with
      | Ok x, Ok y, Ok z => Ok (x, y, z)
      | Fail e, _, _ => Fail e
      | _, Fail e, _ => Fail e
      | _, _, Fail e => Fail e
      end
  end.

Definition AnyCall : Type := { R : Type & LiveCall R }.

Definition anyCall {R} (c : LiveCall R) : AnyCall := existT _ R c.

(* ================================================================= *)
(** ** State of the loader *)

Definition logEntriesCount : Z := 1200.

Record Cache : Type := {
  branch : string;
  commits : list string;
  logEntries : Lru.t (list GitLogEntry);
  counts : Lru.t Z
}.

Definition newCache : Cache :=
  {| branch := ""; commits := [];
     logEntries := Lru.create 5; counts := Lru.create 100 |}.

Definition clear (c : Cache) : Cache :=
  {| branch := ""; commits := [];
     logEntries := Lru.clear (logEntries c); counts := Lru.clear (counts c) |}.

(** A live watcher and the repository its callbacks close over. *)
Record FileSystemWatcher : Type := { watchedRepo : GitRepo }.

Record Dataloader : Type := {
  _cache : Cache;
  _fsWatcher : option FileSystemWatcher;
  _repo : option GitRepo;
  _updating : bool;
  _updateDelay : option nat     (* timer handle *)
}.

Definition newDataloader : Dataloader :=
  {| _cache := newCache; _fsWatcher := None; _repo := None;
     _updating := false; _updateDelay := None |}.

Definition withCache (f : Cache -> Cache) (d : Dataloader) : Dataloader :=
  {| _cache := f (_cache d); _fsWatcher := _fsWatcher d; _repo := _repo d;
     _updating := _updating d; _updateDelay := _updateDelay d |}.

Definition setFsWatcher (w : option FileSystemWatcher) (d : Dataloader) : Dataloader :=
  {| _cache := _cache d; _fsWatcher := w; _repo := _repo d;
     _updating := _updating d; _updateDelay := _updateDelay d |}.

Definition setRepo (r : option GitRepo) (d : Dataloader) : Dataloader :=
  {| _cache := _cache d; _fsWatcher := _fsWatcher d; _repo := r;
     _updating := _updating d; _updateDelay := _updateDelay d |}.

Definition setUpdating (b : bool) (d : Dataloader) : Dataloader :=
  {| _cache := _cache d; _fsWatcher := _fsWatcher d; _repo := _repo d;
     _updating := b; _updateDelay := _updateDelay d |}.

Definition setUpdateDelay (h : option nat) (d : Dataloader) : Dataloader :=
  {| _cache := _cache d; _fsWatcher := _fsWatcher d; _repo := _repo d;
     _updating := _updating d; _updateDelay := h |}.

Definition setBranch (b : string) (c : Cache) : Cache :=
  {| branch := b; commits := commits c; logEntries := logEntries c; counts := counts c |}.

Definition setCommits (l : list string) (c : Cache) : Cache :=
  {| branch := branch c; commits := l; logEntries := logEntries c; counts := counts c |}.

Definition setLogEntries (m : Lru.t (list GitLogEntry)) (c : Cache) : Cache :=
  {| branch := branch c; commits := commits c; logEntries := m; counts := counts c |}.

Definition setCounts (m : Lru.t Z) (c : Cache) : Cache :=
  {| branch := branch c; commits := commits c; logEntries := logEntries c; counts := m |}.

(** [this._repo?.root] *)
Definition repoRoot (d : Dataloader) : option string := option_map root (_repo d).

(** [a === b] between a string and a possibly undefined string. *)
Definition strictEq (a : string) (b : option string) : bool :=
  match b with Some s => String.eqb a s | None => false end.

(** [_useCache], lines 241-251. *)
Definition _useCache (d : Dataloader) (repo : string) : bool :=
  if negb (strictEq repo (repoRoot d)) then false
  else if _updating d then false
  else true.

(* ================================================================= *)
(** ** Asynchronous code *)

(** Callbacks handed to [setTimeout], with the variables they capture. *)
Inductive TimerTask : Type :=
| ReloadCaches (repo : GitRepo)                       (* lines 215-238 *)
| WarmLogEntries (repo : GitRepo) (express : bool) (branch : string)
    (isStash : option bool) (file : option Uri) (line : option Z)
    (author : option string) (key : string).          (* lines 126-145 *)

(** Synchronous effects: access to the fields of [this], and timers. *)
Inductive Op : Type -> Type :=
| Access {B} (f : Dataloader -> B * Dataloader) : Op B
| SetTimeout (cb : TimerTask) (ms : Z) : Op nat
| ClearTimeout (handle : option nat) : Op unit.

(** An [async] function body: it runs synchronously up to an [await],
    is resumed with the value of the awaited promise, and ends by returning
    or throwing.  There is no [try] in the loader, so a rejected [await]
    rejects the whole function. *)
Inductive Prog (A : Type) : Type :=
| Ret (a : A)
| Throw (e : Error)
| Await {R} (c : LiveCall R) (k : R -> Prog A)
| Sync {B} (op : Op B) (k : B -> Prog A).

Arguments Ret {A} a.
Arguments Throw {A} e.
Arguments Await {A R} c k.
Arguments Sync {A B} op k.

Fixpoint bind {A B} (p : Prog A) (f : A -> Prog B) : Prog B :=
  match p with
  | Ret a => f a
  | Throw e => Throw e
  | Await c k => Await c (fun r => bind (k r) f)
  | Sync op k => Sync op (fun b => bind (k b) f)
  end.

Notation "x <- p ;; q" := (bind p (fun x => q))
  (at level 61, p at next level, right associativity).
Notation "p ;; q" := (bind p (fun _ => q))
  (at level 61, right associativity).

Definition await {R} (c : LiveCall R) : Prog R := Await c Ret.

Definition read {B} (f : Dataloader -> B) : Prog B :=
  Sync (Access (fun d => (f d, d))) Ret.

Definition modify (f : Dataloader -> Dataloader) : Prog unit :=
  Sync (Access (fun d => (tt, f d))) Ret.

Definition setTimeout (cb : TimerTask) (ms : Z) : Prog nat :=
  Sync (SetTimeout cb ms) Ret.

Definition clearTimeout (handle : option nat) : Prog unit :=
  Sync (ClearTimeout handle) Ret.

(** [this._cache.logEntries.get(key)] *)
Definition logEntriesGet (key : string) : Prog (option (list GitLogEntry)) :=
  Sync (Access (fun d =>
    let (v, m) := Lru.get key (logEntries (_cache d)) in
    (v, withCache (setLogEntries m) d))) Ret.

(** [this._cache.logEntries.set(key, entries)] *)
Definition logEntriesSet (key : string) (entries : list GitLogEntry) : Prog unit :=
  modify (withCache (fun c => setLogEntries (Lru.set key entries (logEntries c)) c)).

(** [this._cache.counts.get(key)] *)
Definition countsGet (key : string) : Prog (option Z) :=
  Sync (Access (fun d =>
    let (v, m) := Lru.get key (counts (_cache d)) in
    (v, withCache (setCounts m) d))) Ret.

(** [this._cache.counts.set(key, count)] *)
Definition countsSet (key : string) (count : Z) : Prog unit :=
  modify (withCache (fun c => setCounts (Lru.set key count (counts c)) c)).

(* ----------------------------------------------------------------- *)
(** *** Refresh scheduling and repository switch *)

(** Lines 225-237: what the reload does once everything is fetched. *)
Definition applyReload (repo : GitRepo) (branch : string) (commits : list string)
    (count : Z) (logs : list GitLogEntry) : Prog unit :=
  cur <- read repoRoot ;;
  if negb (strictEq (root repo) cur) then
    (* The cache data fetching is finished after the repo is changed. *)
    Ret tt
  else
    modify (withCache (setBranch branch)) ;;
    modify (withCache (setCommits commits)) ;;
    countsSet (countKey branch "") count ;;
    logEntriesSet (logEntryKey branch None None None None) logs ;;
    modify (setUpdating false).

(** Bodies of the timer callbacks. *)
Definition timerBody (t : TimerTask) : Prog unit :=
  match t with
  | ReloadCaches repo =>
      b <- await (GetCurrentBranch repo) ;;
      let branch := Js.nullish b "" in
      r <- await (PromiseAll3
                    (GetCommits repo (Some branch))
                    (GetCommitsCount repo branch None)
                    (GetLogEntries repo false 0 logEntriesCount branch None None None None)) ;;
      let '(commits, count, logs) := r in
      applyReload repo branch commits count logs
  | WarmLogEntries repo express branch isStash file line author key =>
      cacheEntries <- await (GetLogEntries repo express 0 logEntriesCount branch
                                           isStash file line author) ;;
      logEntriesSet key cacheEntries
  end.

(** [_updateCaches], lines 208-239. *)
Definition _updateCaches (repo : GitRepo) : Prog unit :=
  modify (setUpdating true) ;;
  h <- read _updateDelay ;;
  clearTimeout h ;;
  id <- setTimeout (ReloadCaches repo) 1000 ;;
  modify (setUpdateDelay (Some id)).

(** [updateRepo], lines 53-76.  Disposing the old watcher is the
    replacement of [_fsWatcher]: only the watcher held there is live. *)
Definition updateRepo (repo : GitRepo) : Prog unit :=
  cur <- read repoRoot ;;
  if strictEq (root repo) cur then Ret tt
  else
    modify (setRepo (Some repo)) ;;
    modify (setFsWatcher None) ;;
    h <- read _updateDelay ;;
    clearTimeout h ;;
    modify (withCache clear) ;;
    modify (setUpdating false) ;;
    modify (setRepo (Some repo)) ;;
    modify (setFsWatcher (Some {| watchedRepo := repo |})) ;;
    _updateCaches repo.

(** The constructor, lines 46-51, given the result of [getGitRepos]. *)
Definition constructor (repos : list GitRepo) : Prog unit :=
  match repos with
  | [repo] => updateRepo repo
  | _ => Ret tt
  end.

(* ----------------------------------------------------------------- *)
(** *** The query gate *)

(** [getLogEntries], lines 78-151. *)
Definition getLogEntries (repo : GitRepo) (express : bool) (start count : Z)
    (branch : string) (isStash : option bool) (file : option Uri)
    (line : option Z) (author : option string) : Prog (list GitLogEntry) :=
  use <- read (fun d => _useCache d (root repo)) ;;
  if negb use then
    await (GetLogEntries repo express start count branch isStash file line author)
  else
    let key := logEntryKey branch (Some (Js.nullish isStash false))
                           (option_map fsPath file) line author in
    cache <- logEntriesGet key ;;
    let fetch : Prog (list GitLogEntry) :=
      entries <- await (GetLogEntries repo express start count branch
                                      isStash file line author) ;;
      (if Js.looseEq start 0 then
         if (count >=? logEntriesCount)%Z && (Js.length entries <? logEntriesCount)%Z then
           logEntriesSet key entries
         else if (count <? logEntriesCount)%Z then
           _ <- setTimeout (WarmLogEntries repo express branch isStash file line author key) 0 ;;
           Ret tt
         else Ret tt
       else Ret tt) ;;
      Ret entries in
    match cache with
    | Some cache =>
        if (Js.length cache <? logEntriesCount)%Z then
          Ret (Js.slice cache start (start + count))
        else if (start + count <? Js.length cache)%Z then
          Ret (Js.slice cache start (start + count))
        else fetch
    | None => fetch
    end.

(** [getCommitsCount], lines 153-167. *)
Definition getCommitsCount (repo : GitRepo) (branch : string) (author : option string)
    : Prog Z :=
  use <- read (fun d => _useCache d (root repo)) ;;
  if negb use then await (GetCommitsCount repo branch author)
  else
    let key := countKey branch (Js.nullish author "") in
    count <- countsGet key ;;
    if Js.truthyNum count then Ret (Js.nullish count 0%Z)
    else
      result <- await (GetCommitsCount repo branch author) ;;
      countsSet key result ;;
      Ret result.

(** [getCurrentBranch], lines 169-175. *)
Definition getCurrentBranch (repo : option GitRepo) : Prog string :=
  match repo with
  | None => Ret ""
  | Some repo =>
      use <- read (fun d => _useCache d (root repo)) ;;
      if use then read (fun d => branch (_cache d))
      else b <- await (GetCurrentBranch repo) ;; Ret (Js.nullish b "")
  end.

(** [this._useCache(repo.root) ? this._cache.commits
                               : await this._gitService.getCommits(repo)] *)
Definition cachedOrLiveCommits (repo : GitRepo) : Prog (list string) :=
  use <- read (fun d => _useCache d (root repo)) ;;
  if use then read (fun d => commits (_cache d))
  else await (GetCommits repo None).

(** [getNextCommit], lines 177-185.  The element read is in range whenever
    the guard holds (see [neighbour_reads_defined]). *)
Definition getNextCommit (repo : option GitRepo) (ref : string) : Prog string :=
  match repo with
  | None => Ret ""
  | Some repo =>
      commits <- cachedOrLiveCommits repo ;;
      let index := Js.indexOf commits ref in
      Ret (if (index >? 0)%Z then Js.nullish (Js.at_ commits (index - 1)) "" else "")
  end.

(** [getPreviousCommit], lines 187-195. *)
Definition getPreviousCommit (repo : option GitRepo) (ref : string) : Prog string :=
  match repo with
  | None => Ret ""
  | Some repo =>
      commits <- cachedOrLiveCommits repo ;;
      let index := Js.indexOf commits ref in
      Ret (if (index >=? 0)%Z && (index + 1 <? Js.length commits)%Z
           then Js.nullish (Js.at_ commits (index + 1)) "" else "")
  end.

(** [hasNeighborCommits], lines 197-206: [has previous, has next]. *)
Definition hasNeighborCommits (repo : option GitRepo) (ref : string) : Prog (bool * bool) :=
  match repo with
  | None => Ret (false, false)
  | Some repo =>
      commits <- cachedOrLiveCommits repo ;;
      let index := Js.indexOf commits ref in
      Ret ((index >=? 0)%Z && (index + 1 <? Js.length commits)%Z, (index >? 0)%Z)
  end.

(** [getLogEntries] and [getCommitsCount] declare [repo: GitRepo] and read
    [repo.root] first thing (lines 89 and 154).  Called from untyped code
    with [undefined], that property access raises a [TypeError], which
    rejects the promise of the [async] function. *)
Definition getLogEntriesUntyped (repo : option GitRepo) (express : bool)
    (start count : Z) (branch : string) (isStash : option bool) (file : option Uri)
    (line : option Z) (author : option string) : Prog (list GitLogEntry) :=
  match repo with
  | None => Throw TypeError
  | Some repo => getLogEntries repo express start count branch isStash file line author
  end.

Definition getCommitsCountUntyped (repo : option GitRepo) (branch : string)
    (author : option string) : Prog Z :=
  match repo with
  | None => Throw TypeError
  | Some repo => getCommitsCount repo branch author
  end.

(* ================================================================= *)
(** ** The event loop *)

(** Calls a client can make on the query gate. *)
Inductive Query : Type :=
| QLogEntries (repo : GitRepo) (express : bool) (start count : Z) (branch : string)
    (isStash : option bool) (file : option Uri) (line : option Z) (author : option string)
| QCommitsCount (repo : GitRepo) (branch : string) (author : option string)
| QCurrentBranch (repo : option GitRepo)
| QNextCommit (repo : option GitRepo) (ref : string)
| QPreviousCommit (repo : option GitRepo) (ref : string)
| QHasNeighborCommits (repo : option GitRepo) (ref : string).

(** Values promises are fulfilled with. *)
Inductive Value : Type :=
| VVoid
| VString (s : string)
| VNumber (z : Z)
| VEntries (l : list GitLogEntry)
| VPair (hasPrevious hasNext : bool).

Definition queryProg (q : Query) : Prog Value :=
  match q with
  | QLogEntries repo express start count branch isStash file line author =>
      l <- getLogEntries repo express start count branch isStash file line author ;;
      Ret (VEntries l)
  | QCommitsCount repo branch author =>
      n <- getCommitsCount repo branch author ;; Ret (VNumber n)
  | QCurrentBranch repo => s <- getCurrentBranch repo ;; Ret (VString s)
  | QNextCommit repo ref => s <- getNextCommit repo ref ;; Ret (VString s)
  | QPreviousCommit repo ref => s <- getPreviousCommit repo ref ;; Ret (VString s)
  | QHasNeighborCommits repo ref =>
      p <- hasNeighborCommits repo ref ;; Ret (VPair (fst p) (snd p))
  end.

(** Who started a task, hence who (if anybody) sees its outcome. *)
Inductive Origin : Type :=
| ByCaller (q : Query)          (* a client awaits the promise *)
| ByAttach (repo : GitRepo)     (* [updateRepo] *)
| ByWatcher                     (* a file system notification; promise dropped *)
| ByTimer (t : TimerTask).      (* a timer callback; promise dropped *)

(** A task suspended at an [await]. *)
Record Task : Type := {
  origin : Origin;
  awaitedType : Type;
  awaited : LiveCall awaitedType;
  kont : awaitedType -> Prog Value
}.

Record Runtime : Type := {
  loader : Dataloader;
  timers : list (nat * TimerTask);   (* armed, not yet fired *)
  tasks : list Task;                 (* suspended at an await *)
  nextTimer : nat
}.

Definition boot : Runtime :=
  {| loader := newDataloader; timers := []; tasks := []; nextTimer := 0 |}.

Definition setLoader (d : Dataloader) (rt : Runtime) : Runtime :=
  {| loader := d; timers := timers rt; tasks := tasks rt; nextTimer := nextTimer rt |}.

Definition setTimers (l : list (nat * TimerTask)) (rt : Runtime) : Runtime :=
  {| loader := loader rt; timers := l; tasks := tasks rt; nextTimer := nextTimer rt |}.

Definition setTasks (l : list Task) (rt : Runtime) : Runtime :=
  {| loader := loader rt; timers := timers rt; tasks := l; nextTimer := nextTimer rt |}.

Definition dropTimer (id : nat) (l : list (nat * TimerTask)) : list (nat * TimerTask) :=
  filter (fun t => negb (Nat.eqb (fst t) id)) l.

Fixpoint findTimer (id : nat) (l : list (nat * TimerTask)) : option TimerTask :=
  match l with
  | [] => None
  | (id', t) :: tl => if Nat.eqb id' id then Some t else findTimer id tl
  end.

Fixpoint dropNth {A} (n : nat) (l : list A) : list A :=
  match n, l with
  | _, [] => []
  | O, _ :: tl => tl
  | S n, x :: tl => x :: dropNth n tl
  end.

Definition doOp {B} (op : Op B) (rt : Runtime) : B * Runtime :=
  match op in Op B return B * Runtime with
  | Access f => let (b, d) := f (loader rt) in (b, setLoader d rt)
  | SetTimeout cb _ =>
      (nextTimer rt,
       {| loader := loader rt; timers := timers rt ++ [(nextTimer rt, cb)];
          tasks := tasks rt; nextTimer := S (nextTimer rt) |})
  | ClearTimeout handle =>
      (tt, match handle with
           | Some id => setTimers (dropTimer id (timers rt)) rt
           | None => rt
           end)
  end.

(** Where a run of synchronous code stops. *)
Inductive Status (A : Type) : Type :=
| Finished (a : A)
| Rejected (e : Error)
| Blocked {R} (c : LiveCall R) (k : R -> Prog A).

Arguments Finished {A} a.
Arguments Rejected {A} e.
Arguments Blocked {A R} c k.

(** Run to completion or to the next [await]. *)
Fixpoint runSync {A} (p : Prog A) (rt : Runtime) : Runtime * Status A :=
  match p with
  | Ret a => (rt, Finished a)
  | Throw e => (rt, Rejected e)
  | Await c k => (rt, Blocked c k)
  | Sync op k => let (b, rt') := doOp op rt in runSync (k b) rt'
  end.

(** Run with every awaited call settled at once by [svc], nothing else
    interleaved; the calls made are listed in order. *)
Fixpoint exec {A} (svc : GitService) (p : Prog A) (rt : Runtime)
    : Runtime * Res A * list AnyCall :=
  match p with
  | Ret a => (rt, Ok a, [])
  | Throw e => (rt, Fail e, [])
  | Await c k =>
      match perform svc c with
      | Ok r => let '(rt', res, calls) := exec svc (k r) rt in
                (rt', res, anyCall c :: calls)
      | Fail e => (rt, Fail e, [anyCall c])
      end
  | Sync op k => let (b, rt') := doOp op rt in exec svc (k b) rt'
  end.

(** Things the environment does to the loader. *)
Inductive Event : Type :=
| EvUpdateRepo (repo : GitRepo)   (* a client calls [updateRepo] *)
| EvFsChange                      (* the live watcher reports a change *)
| EvTimer (id : nat)              (* the armed timer [id] elapses *)
| EvSettle (n : nat)              (* the call awaited by task [n] settles *)
| EvQuery (q : Query).            (* a client calls the query gate *)

(** A promise settled: its origin and outcome. *)
Inductive Output : Type :=
| Settled (o : Origin) (r : Res Value).

Definition launch (o : Origin) (p : Prog Value) (rt : Runtime) : Runtime * list Output :=
  match runSync p rt with
  | (rt', Finished v) => (rt', [Settled o (Ok v)])
  | (rt', Rejected e) => (rt', [Settled o (Fail e)])
  | (rt', Blocked c k) =>
      (setTasks (tasks rt' ++ [{| origin := o; awaited := c; kont := k |}]) rt', [])
  end.

Definition void (p : Prog unit) : Prog Value := p ;; Ret VVoid.

Definition step (svc : GitService) (ev : Event) (rt : Runtime) : Runtime * list Output :=
  match ev with
  | EvUpdateRepo repo => launch (ByAttach repo) (void (updateRepo repo)) rt
  | EvFsChange =>
      match _fsWatcher (loader rt) with
      | Some w => launch ByWatcher (void (_updateCaches (watchedRepo w))) rt
      | None => (rt, [])
      end
  | EvTimer id =>
      match findTimer id (timers rt) with
      | Some t => launch (ByTimer t) (void (timerBody t))
                         (setTimers (dropTimer id (timers rt)) rt)
      | None => (rt, [])
      end
  | EvSettle n =>
      match nth_error (tasks rt) n with
      | Some t =>
          let rt' := setTasks (dropNth n (tasks rt)) rt in
          match perform svc (awaited t) with
          | Ok r => launch (origin t) (kont t r) rt'
          | Fail e => (rt', [Settled (origin t) (Fail e)])
          end
      | None => (rt, [])
      end
  | EvQuery q => launch (ByCaller q) (queryProg q) rt
  end.

(** A history: each event together with what the repository on disk
    answers at that moment. *)
Fixpoint run (h : list (GitService * Event)) (rt : Runtime) : Runtime * list Output :=
  match h with
  | [] => (rt, [])
  | (svc, ev) :: tl =>
      let (rt1, o1) := step svc ev rt in
      let (rt2, o2) := run tl rt1 in
      (rt2, o1 ++ o2)
  end.

Definition reachable (rt : Runtime) : Prop :=
  exists h, fst (run h boot) = rt.

End Loader.

Arguments PromiseAll3 {GitLogEntry A B C} a b c.
Arguments Access {GitLogEntry B} f.
Arguments Ret {GitLogEntry A} a.
Arguments Throw {GitLogEntry A} e.
Arguments Await {GitLogEntry A R} c k.
Arguments Sync {GitLogEntry A B} op k.
Arguments Finished {GitLogEntry A} a.
Arguments Rejected {GitLogEntry A} e.
Arguments Blocked {GitLogEntry A R} c k.

(* ================================================================= *)
(** ** Vocabulary of the statements *)

(** The separator of the key builder does not occur in [s]. *)
Fixpoint noComma (s : string) : bool :=
  match s with
  | EmptyString => true
  | String c tl => negb (Ascii.eqb c ",") && noComma tl
  end.

Section Observations.

Context {GitLogEntry : Type}.

(** Outcome, live calls and final state of an uninterrupted run. *)
Definition answer {A} (svc : @GitService GitLogEntry) (p : Prog A) (rt : Runtime) : Res A :=
  snd (fst (exec svc p rt)).

Definition callsMade {A} (svc : @GitService GitLogEntry) (p : Prog A) (rt : Runtime)
    : list AnyCall :=
  snd (exec svc p rt).

Definition stateAfter {A} (svc : @GitService GitLogEntry) (p : Prog A) (rt : Runtime)
    : Runtime :=
  fst (fst (exec svc p rt)).

(** The loader after a [get] that found [key] and promoted it. *)
Definition touchCounts (key : string) (d : @Dataloader GitLogEntry) : Dataloader :=
  withCache (setCounts (snd (Lru.get key (counts (_cache d))))) d.

Definition touchLogEntries (key : string) (d : @Dataloader GitLogEntry) : Dataloader :=
  withCache (setLogEntries (snd (Lru.get key (logEntries (_cache d))))) d.

(** The key [getLogEntries] computes for a query (line 93). *)
Definition queryKey (branch : string) (isStash : option bool) (file : option Uri)
    (line : option Z) (author : option string) : string :=
  logEntryKey branch (Some (Js.nullish isStash false)) (option_map fsPath file) line author.

(** The repository a query is about. *)
Definition queryRepo (q : Query) : option GitRepo :=
  match q with
  | QLogEntries repo _ _ _ _ _ _ _ _ => Some repo
  | QCommitsCount repo _ _ => Some repo
  | QCurrentBranch repo => repo
  | QNextCommit repo _ => repo
  | QPreviousCommit repo _ => repo
  | QHasNeighborCommits repo _ => repo
  end.

Definition targets (q : Query) (rootPath : string) : Prop :=
  option_map root (queryRepo q) = Some rootPath.

(** The one call by which a query is delegated to the service. *)
Definition liveCallOf (q : Query) : list (@AnyCall GitLogEntry) :=
  match q with
  | QLogEntries repo express start count branch isStash file line author =>
      [anyCall (GetLogEntries repo express start count branch isStash file line author)]
  | QCommitsCount repo branch author => [anyCall (GetCommitsCount repo branch author)]
  | QCurrentBranch (Some repo) => [anyCall (GetCurrentBranch repo)]
  | QNextCommit (Some repo) _ => [anyCall (GetCommits repo None)]
  | QPreviousCommit (Some repo) _ => [anyCall (GetCommits repo None)]
  | QHasNeighborCommits (Some repo) _ => [anyCall (GetCommits repo None)]
  | _ => []
  end.

(** Neighbours of [ref] in a commit list, newest first. *)
Definition newerOf (l : list string) (ref : string) : string :=
  let index := Js.indexOf l ref in
  if (index >? 0)%Z then Js.nullish (Js.at_ l (index - 1)) "" else "".

Definition olderOf (l : list string) (ref : string) : string :=
  let index := Js.indexOf l ref in
  if (index >=? 0)%Z && (index + 1 <? Js.length l)%Z
  then Js.nullish (Js.at_ l (index + 1)) "" else "".

Definition neighboursOf (l : list string) (ref : string) : bool * bool :=
  let index := Js.indexOf l ref in
  ((index >=? 0)%Z && (index + 1 <? Js.length l)%Z, (index >? 0)%Z).

(** The answer to a query as the service alone determines it. *)
Definition liveAnswer (svc : @GitService GitLogEntry) (q : Query) : Res Value :=
  match q with
  | QLogEntries repo express start count branch isStash file line author =>
      mapRes VEntries
        (liveLogEntries svc repo express start count branch isStash file line author)
  | QCommitsCount repo branch author =>
      mapRes VNumber (liveCommitsCount svc repo branch author)
  | QCurrentBranch (Some repo) =>
      mapRes (fun b => VString (Js.nullish b "")) (liveCurrentBranch svc repo)
  | QCurrentBranch None => Ok (VString "")
  | QNextCommit (Some repo) ref =>
      mapRes (fun l => VString (newerOf l ref)) (liveCommits svc repo None)
  | QNextCommit None _ => Ok (VString "")
  | QPreviousCommit (Some repo) ref =>
      mapRes (fun l => VString (olderOf l ref)) (liveCommits svc repo None)
  | QPreviousCommit None _ => Ok (VString "")
  | QHasNeighborCommits (Some repo) ref =>
      mapRes (fun l => VPair (fst (neighboursOf l ref)) (snd (neighboursOf l ref)))
             (liveCommits svc repo None)
  | QHasNeighborCommits None _ => Ok (VPair false false)
  end.

(** The cache is masked for a root: [_useCache] refuses it. *)
Definition masked (rootPath : string) (rt : @Runtime GitLogEntry) : Prop :=
  _useCache (loader rt) rootPath = false.

(** Two states agree on what [_useCache] looks at. *)
Definition sameGate (rt rt' : @Runtime GitLogEntry) : Prop :=
  _repo (loader rt) = _repo (loader rt') /\
  _updating (loader rt) = _updating (loader rt').

(** The root a bulk reload was started for, when the task is one. *)
Definition reloadRootOf (o : Origin) : option string :=
  match o with
  | ByTimer (ReloadCaches repo) => Some (root repo)
  | _ => None
  end.

(** [tame r p rt0 rt]: in a run of [p] each stretch of synchronous code,
    entered in [rt0] and now at [rt], leaves the repository and the
    refresh flag alone; only the stretch that ends a bulk reload for the
    root [r] may change the flag, and only while that root is active. *)
Fixpoint tame (reloading : option string) {A} (p : @Prog GitLogEntry A)
    (rt0 rt : Runtime) : Prop :=
  match p with
  | Ret _ =>
      sameGate rt0 rt \/
      exists r, reloading = Some r /\
                repoRoot (loader rt0) = Some r /\ repoRoot (loader rt) = Some r
  | Throw _ => sameGate rt0 rt
  | Await _ k => sameGate rt0 rt /\ forall v rt', tame reloading (k v) rt' rt'
  | Sync op k => tame reloading (k (fst (doOp op rt))) rt0 (snd (doOp op rt))
  end.

Definition tameTask (t : @Task GitLogEntry) : Prop :=
  forall v rt, tame (reloadRootOf (origin t)) (kont t v) rt rt.

Definition allTame (rt : @Runtime GitLogEntry) : Prop := Forall tameTask (tasks rt).

(** A bulk reload for the root ran to its end. *)
Definition isReloadDone (rootPath : string) (o : @Output GitLogEntry) : bool :=
  match o with
  | Settled (ByTimer (ReloadCaches repo)) (Ok _) => String.eqb (root repo) rootPath
  | _ => false
  end.

Definition noReloadDone (rootPath : string) (outs : list (@Output GitLogEntry)) : bool :=
  forallb (fun o => negb (isReloadDone rootPath o)) outs.

(** From [rt] on, whatever happens, a query about the root makes exactly
    its live call and is answered by it, the state left as it was, for as
    long as no bulk reload for the root has run to its end. *)
Definition liveUntilReload (rootPath : string) (rt : @Runtime GitLogEntry) : Prop :=
  forall h, noReloadDone rootPath (snd (run h rt)) = true ->
  forall svc q, targets q rootPath ->
    exec svc (queryProg q) (fst (run h rt))
    = (fst (run h rt), liveAnswer svc q, liveCallOf q).

(** The call awaited by task [n] is rejected by [svc]: who started the
    task, and the error. *)
Definition rejectedAt (svc : @GitService GitLogEntry) (n : nat) (rt : Runtime)
    : option (Origin * Error) :=
  match nth_error (tasks rt) n with
  | Some t =>
      match perform svc (awaited t) with
      | Fail e => Some (origin t, e)
      | Ok _ => None
      end
  | None => None
  end.

(** [quiet p rt0 rt]: in a run of [p] a stretch of synchronous code,
    entered in [rt0] and now at [rt], has left the loader as it was unless
    it is the stretch in which [p] returns. *)
Fixpoint quiet {A} (p : @Prog GitLogEntry A) (rt0 rt : Runtime) : Prop :=
  match p with
  | Ret _ => True
  | Throw _ => loader rt = loader rt0
  | Await _ k => loader rt = loader rt0 /\ forall v rt', quiet (k v) rt' rt'
  | Sync op k => quiet (k (fst (doOp op rt))) rt0 (snd (doOp op rt))
  end.

(** What is left of a timer callback is quiet. *)
Definition quietTask (t : @Task GitLogEntry) : Prop :=
  match origin t with
  | ByTimer _ => forall v rt, quiet (kont t v) rt rt
  | _ => True
  end.

Definition allQuiet (rt : @Runtime GitLogEntry) : Prop := Forall quietTask (tasks rt).

(** The timer callback an event continues, if it does: its timer elapses,
    or a call it awaits settles. *)
Definition callbackStep (ev : Event) (rt : @Runtime GitLogEntry) : option TimerTask :=
  match ev with
  | EvTimer id => findTimer id (timers rt)
  | EvSettle n =>
      match option_map origin (nth_error (tasks rt) n) with
      | Some (ByTimer task) => Some task
      | _ => None
      end
  | _ => None
  end.

(** The events of a timer callback that runs with nothing in between: its
    timer elapses, then each call it awaits settles. *)
Definition callbackOf (svc : @GitService GitLogEntry) (id : nat) (task : TimerTask)
    (rt : Runtime) : list (GitService * Event) :=
  (svc, EvTimer id)
  :: repeat (svc, EvSettle (List.length (tasks rt)))
            (List.length (callsMade svc (timerBody task) rt)).

End Observations.

(* ================================================================= *)
(** ** Sample repositories and services *)

Module Sample.

Definition repoA : GitRepo := {| root := "/work/a" |}.

Definition repoB : GitRepo := {| root := "/work/b" |}.

Definition history (r : GitRepo) : list string :=
  if String.eqb (root r) "/work/a" then ["a3"; "a2"; "a1"; "a0"] else ["b1"; "b0"].

(** Nobody has written anything; every other author wrote everything. *)
Definition authored (author : option string) (l : list string) : list string :=
  match author with
  | Some a => if String.eqb a "nobody" then [] else l
  | None => l
  end.

(** A service over fixed histories; a log entry is its commit id. *)
Definition service (current : string) (hist : GitRepo -> list string)
    : @GitService string :=
  {| liveCurrentBranch := fun _ => Ok (Some current);
     liveCommits := fun r _ => Ok (hist r);
     liveCommitsCount := fun r _ author => Ok (Js.length (authored author (hist r)));
     liveLogEntries := fun r _ start count _ _ _ _ author =>
       Ok (Js.slice (authored author (hist r)) start (start + count)) |}.

Definition git : @GitService string := service "main" history.

(** The same repositories after a checkout of another branch. *)
Definition gitOnDev : @GitService string := service "dev" history.

(** A long history: more commits than a full page. *)
Definition longGit : @GitService string :=
  service "main" (fun _ => repeat "c" 1300).

(** A service whose commit enumeration fails. *)
Definition brokenGit : @GitService string :=
  {| liveCurrentBranch := fun _ => Ok (Some "main");
     liveCommits := fun _ _ => Fail (ServiceError "git");
     liveCommitsCount := liveCommitsCount git;
     liveLogEntries := liveLogEntries git |}.

Definition with_ (svc : @GitService string) (evs : list Event)
    : list (@GitService string * Event) :=
  map (pair svc) evs.

(** Attach [repoA] and let its first bulk reload run to the end. *)
Definition attachA : list Event :=
  [EvUpdateRepo repoA; EvTimer 0; EvSettle 0; EvSettle 0].

Definition ready (svc : @GitService string) : @Runtime string :=
  fst (run (with_ svc attachA) boot).

(** [repoA] attached and loaded, then [repoB] attached. *)
Definition switchedToB : @Runtime string :=
  fst (run (with_ git (attachA ++ [EvUpdateRepo repoB])) boot).

(** [repoA] attached, its reload not yet begun, on a failing service. *)
Definition attachedBroken : @Runtime string :=
  fst (run (with_ brokenGit [EvUpdateRepo repoA]) boot).

(** The reload of [repoA] fails at its second [await]. *)
Definition failedReload : list (@GitService string * Event) :=
  with_ brokenGit [EvUpdateRepo repoA; EvTimer 0; EvSettle 0; EvSettle 0].

Definition bobsFirstPage (repo : GitRepo) : Query :=
  QLogEntries repo false 0 2 "main" None None None (Some "bob").

(** A first page of bob's commits in [repoA] is asked for and answered
    live; the warming fetch it schedules starts; [repoB] is attached; the
    warming fetch returns; the reload of [repoB] runs to its end. *)
Definition warmingAcrossSwitch : list (@GitService string * Event) :=
  with_ git (attachA ++
             [EvQuery (bobsFirstPage repoA); EvSettle 0; EvTimer 1;
              EvUpdateRepo repoB;
              EvSettle 0;
              EvTimer 2; EvSettle 0; EvSettle 0]).

(** The first reload of [repoA] has read the branch when a checkout of
    [dev] is noticed; the reload then completes. *)
Definition overlappingReloads : list (@GitService string * Event) :=
  with_ git [EvUpdateRepo repoA; EvTimer 0; EvSettle 0] ++
  with_ gitOnDev [EvFsChange; EvSettle 0].

(** After the switch to [repoB]: a query about it is asked, its reload
    starts and reads the branch, a change is noticed, the query's call
    settles.  The reload has not run to its end. *)
Definition reloadOfBInFlight : list (@GitService string * Event) :=
  with_ git [EvQuery (bobsFirstPage repoB); EvTimer 1; EvSettle 1;
             EvFsChange; EvSettle 0].

(** The first reload of [repoA] has read the branch when [repoB] is
    attached; after a checkout of [dev], [repoA] is attached again. *)
Definition awayAndBack : list (@GitService string * Event) :=
  with_ git [EvUpdateRepo repoA; EvTimer 0; EvSettle 0; EvUpdateRepo repoB] ++
  with_ gitOnDev [EvUpdateRepo repoA].

(** The reload begun under the first attachment then completes. *)
Definition leftoverReload : list (@GitService string * Event) :=
  awayAndBack ++ with_ gitOnDev [EvSettle 0].

(** [repoA] attached on a failing service; its reload has read the branch
    and awaits the rest. *)
Definition reloadAboutToFail : list (@GitService string * Event) :=
  with_ brokenGit [EvUpdateRepo repoA; EvTimer 0; EvSettle 0].

End Sample.

(* ================================================================= *)
(** ** Shape of the states the loader can be in *)

Section Shape.

Context {GitLogEntry : Type}.

Definition isReloadTimer (t : nat * TimerTask) : bool :=
  match snd t with
  | ReloadCaches _ => true
  | WarmLogEntries _ _ _ _ _ _ _ _ => false
  end.

(** Armed timers of bulk reloads, and of warming fetches. *)
Definition reloadTimers (rt : @Runtime GitLogEntry) : list (nat * TimerTask) :=
  filter isReloadTimer (timers rt).

Definition warmTimers (rt : @Runtime GitLogEntry) : list (nat * TimerTask) :=
  filter (fun t => negb (isReloadTimer t)) (timers rt).

Definition keysOf {V} (m : Lru.t V) : list string := map fst (Lru.items m).

(** A store of capacity [cap]: at most [cap] entries, one per key. *)
Definition boundedLru {V} (cap : nat) (m : Lru.t V) : Prop :=
  Lru.max m = cap /\ (List.length (Lru.items m) <= cap)%nat /\ NoDup (keysOf m).

(** What holds between two turns of the event loop. *)
Record WellFormed (rt : @Runtime GitLogEntry) : Prop := {
  wf_logs : boundedLru 5 (logEntries (_cache (loader rt)));
  wf_counts : boundedLru 100 (counts (_cache (loader rt)));
  wf_watcher :
    _fsWatcher (loader rt)
    = option_map (fun r => {| watchedRepo := r |}) (_repo (loader rt));
  wf_fresh : forall id t, In (id, t) (timers rt) -> (id < nextTimer rt)%nat;
  wf_unique : NoDup (map fst (timers rt));
  wf_reload :
    forall id repo, In (id, ReloadCaches repo) (timers rt) ->
      _updateDelay (loader rt) = Some id /\ _repo (loader rt) = Some repo;
  wf_handle :
    forall id, _updateDelay (loader rt) = Some id ->
      (id < nextTimer rt)%nat /\
      forall t, In (id, t) (timers rt) -> isReloadTimer (id, t) = true;
  wf_idle :
    _repo (loader rt) = None ->
    _updating (loader rt) = false /\ _updateDelay (loader rt) = None
}.

(** An operation, and a program all of whose operations, keep [P]. *)
Definition opKeeps (P : @Runtime GitLogEntry -> Prop) {B} (op : Op B) : Prop :=
  forall rt, P rt -> P (snd (doOp op rt)).

Fixpoint gentle (P : @Runtime GitLogEntry -> Prop) {A} (p : Prog A) : Prop :=
  match p with
  | Ret _ => True
  | Throw _ => True
  | Await _ k => forall v, gentle P (k v)
  | Sync op k => opKeeps P op /\ forall b, gentle P (k b)
  end.

Definition gentleTask (P : @Runtime GitLogEntry -> Prop) (t : Task) : Prop :=
  forall v, gentle P (kont t v).

(** Two states that differ at most in the recency order of the stores. *)
Definition sameContents (rt rt' : @Runtime GitLogEntry) : Prop :=
  _repo (loader rt') = _repo (loader rt) /\
  _updating (loader rt') = _updating (loader rt) /\
  _updateDelay (loader rt') = _updateDelay (loader rt) /\
  _fsWatcher (loader rt') = _fsWatcher (loader rt) /\
  branch (_cache (loader rt')) = branch (_cache (loader rt)) /\
  commits (_cache (loader rt')) = commits (_cache (loader rt)) /\
  (forall k, Lru.find k (Lru.items (logEntries (_cache (loader rt'))))
             = Lru.find k (Lru.items (logEntries (_cache (loader rt))))) /\
  (forall k, Lru.find k (Lru.items (counts (_cache (loader rt'))))
             = Lru.find k (Lru.items (counts (_cache (loader rt))))) /\
  timers rt' = timers rt /\ nextTimer rt' = nextTimer rt.

(** [clearTimeout] on the list of armed timers. *)
Definition cancel (handle : option nat) (l : list (nat * TimerTask))
    : list (nat * TimerTask) :=
  match handle with
  | Some id => dropTimer id l
  | None => l
  end.

(** The state [_updateCaches] leaves behind: the flag set, the timer under
    the old handle cancelled, a reload timer armed under a new handle. *)
Definition armed (repo : GitRepo) (rt : @Runtime GitLogEntry) : Runtime :=
  {| loader := setUpdateDelay (Some (nextTimer rt)) (setUpdating true (loader rt));
     timers := cancel (_updateDelay (loader rt)) (timers rt)
               ++ [(nextTimer rt, ReloadCaches repo)];
     tasks := tasks rt;
     nextTimer := S (nextTimer rt) |}.

(** The loader as [updateRepo] leaves it just before scheduling. *)
Definition attached (repo : GitRepo) (d : @Dataloader GitLogEntry) : Dataloader :=
  {| _cache := clear (_cache d);
     _fsWatcher := Some {| watchedRepo := repo |};
     _repo := Some repo;
     _updating := false;
     _updateDelay := _updateDelay d |}.

Definition wellRun (rt : @Runtime GitLogEntry) : Prop :=
  WellFormed rt /\ Forall (gentleTask WellFormed) (tasks rt).

End Shape.

(* ================================================================= *)
(** ** Further sample histories *)

Module Scenario.

(** [repoA] attached and loaded. *)
Definition loadedA : list (@GitService string * Event) :=
  Sample.with_ Sample.git Sample.attachA.

(** [repoA] attached and loaded, then [repoB] attached. *)
Definition loadedAThenB : list (@GitService string * Event) :=
  Sample.with_ Sample.git (Sample.attachA ++ [EvUpdateRepo Sample.repoB]).

(** [repoA] attached, its reload timer fired. *)
Definition reloadingA : list (@GitService string * Event) :=
  Sample.with_ Sample.git [EvUpdateRepo Sample.repoA; EvTimer 0].

Definition historyA : list string := ["a3"; "a2"; "a1"; "a0"].

End Scenario.

(* ================================================================= *)
(** ** Cache keys *)

Section KeyFacts.

Local Open Scope string_scope.

(** A separator-free prefix is determined by the joined string. *)
Lemma split_at_separator (a b x y : string) :
  noComma a = true -> noComma b = true ->
  a ++ "," ++ x = b ++ "," ++ y -> a = b /\ x = y.
Proof.
  revert b. induction a as [|c a IH]; intros [|d b] Ha Hb H; simpl in *.
  - inversion H; auto.
  - inversion H; subst d. rewrite Ascii.eqb_refl in Hb. discriminate.
  - inversion H; subst c. rewrite Ascii.eqb_refl in Ha. discriminate.
  - apply andb_prop in Ha as [_ Ha]. apply andb_prop in Hb as [_ Hb].
    inversion H; subst d. destruct (IH b Ha Hb H2) as [-> ->]. auto.
Qed.

Lemma uint_digits_noComma (d : Decimal.uint) :
  noComma (NilEmpty.string_of_uint d) = true.
Proof.
  induction d; simpl; auto.
Qed.

Lemma numberToString_noComma (z : Z) : noComma (Js.numberToString z) = true.
Proof.
  unfold Js.numberToString. destruct (Z.to_int z); simpl;
    apply uint_digits_noComma.
Qed.

Lemma numberToString_inj (z z' : Z) :
  Js.numberToString z = Js.numberToString z' -> z = z'.
Proof.
  unfold Js.numberToString. intros H.
  apply DecimalZ.to_int_inj.
  assert (E : Some (Z.to_int z) = Some (Z.to_int z')).
  { rewrite <- !NilEmpty.isi. now rewrite H. }
  now inversion E.
Qed.

Lemma numberToString_nonempty (z : Z) : Js.numberToString z <> "".
Proof.
  unfold Js.numberToString. destruct z; simpl; try discriminate.
  destruct (Pos.to_uint p) eqn:E; simpl; try discriminate.
  now apply DecimalPos.Unsigned.to_uint_nonnil in E.
Qed.

Lemma renderedLine_inj (l l' : option Z) :
  Js.nullish (option_map Js.numberToString l) "" =
  Js.nullish (option_map Js.numberToString l') "" -> l = l'.
Proof.
  destruct l as [z|], l' as [z'|]; simpl; intros H.
  - f_equal. now apply numberToString_inj.
  - now apply numberToString_nonempty in H.
  - symmetry in H. now apply numberToString_nonempty in H.
  - reflexivity.
Qed.

Lemma renderedLine_noComma (l : option Z) :
  noComma (Js.nullish (option_map Js.numberToString l) "") = true.
Proof.
  destruct l; simpl; [apply numberToString_noComma | reflexivity].
Qed.

Lemma stashMark_noComma (s : option bool) :
  noComma (if Js.truthyBool s then "1" else "") = true.
Proof.
  destruct (Js.truthyBool s); reflexivity.
Qed.

Lemma stashMark_inj (s s' : option bool) :
  (if Js.truthyBool s then "1" else "") = (if Js.truthyBool s' then "1" else "") ->
  Js.truthyBool s = Js.truthyBool s'.
Proof.
  destruct (Js.truthyBool s), (Js.truthyBool s'); intros H;
    try reflexivity; discriminate.
Qed.

End KeyFacts.

Section KeyInjectivity.

Local Open Scope string_scope.

(** C4, as stated, fails: a separator inside a field shifts the field
    boundary, and an optional field left out renders like its empty or
    false value. *)
Lemma C4_key_collisions :
  ~ (forall b a b' a' : string,
        (b, a) <> (b', a') -> countKey b a <> countKey b' a') /\
  ~ (forall (b : string) s f l a (b' : string) s' f' l' a',
        (b, s, f, l, a) <> (b', s', f', l', a') ->
        logEntryKey b s f l a <> logEntryKey b' s' f' l' a').
Proof.
  split.
  - intros H. apply (H "a,b" "c" "a" "b,c"); [discriminate | reflexivity].
  - intros H.
    apply (H "main" (Some false) None None None "main" None None None None);
      [discriminate | reflexivity].
Qed.

(** C4 (amended): the key builders are functions of their arguments, and on
    tuples whose branch and file contain no separator a key determines the
    tuple up to the defaults of the optional fields: the branch, whether
    the stash flag is truthy, the file (omitted = empty), the line
    (omitted differs from every number) and the author (omitted = empty).
    The author comes last and may contain anything. *)
Theorem C4_keys_injective_up_to_defaults
    (b b' : string) (a a' : string)
    (s s' : option bool) (f f' : option string) (l l' : option Z)
    (au au' : option string)
    (Hb : noComma b = true) (Hb' : noComma b' = true)
    (Hf : noComma (Js.nullish f "") = true)
    (Hf' : noComma (Js.nullish f' "") = true) :
  (countKey b a = countKey b' a' -> b = b' /\ a = a') /\
  (logEntryKey b s f l au = logEntryKey b' s' f' l' au' ->
     b = b' /\ Js.truthyBool s = Js.truthyBool s' /\
     Js.nullish f "" = Js.nullish f' "" /\ l = l' /\
     Js.nullish au "" = Js.nullish au' "").
Proof.
  split.
  - unfold countKey. intros H. now apply split_at_separator.
  - unfold logEntryKey. intros H.
    apply split_at_separator in H as [-> H]; auto.
    apply split_at_separator in H as [Hs H]; auto using stashMark_noComma.
    apply split_at_separator in H as [Hfile H]; auto.
    apply split_at_separator in H as [Hl H]; auto using renderedLine_noComma.
    repeat split; auto using stashMark_inj, renderedLine_inj.
Qed.

End KeyInjectivity.

Lemma C4_keys_injective_witness :
  (countKey "main" "a,b" = countKey "main" "a,b" -> "main" = "main" /\ "a,b" = "a,b") /\
  (logEntryKey "main" (Some false) (Some "") (Some 7%Z) None
   = logEntryKey "main" None None (Some 7%Z) (Some "") ->
     "main" = "main" /\
     Js.truthyBool (Some false) = Js.truthyBool None /\
     Js.nullish (Some "") "" = Js.nullish None "" /\
     Some 7%Z = Some 7%Z /\
     Js.nullish None "" = Js.nullish (Some "") "").
Proof.
  apply (@C4_keys_injective_up_to_defaults "main" "main" "a,b" "a,b"
           (Some false) None (Some "") None (Some 7%Z) (Some 7%Z) None (Some ""));
    reflexivity.
Defined.

(* ================================================================= *)
(** ** Running asynchronous code *)

Section ExecFacts.

Context {GitLogEntry : Type}.
Variable svc : @GitService GitLogEntry.

Lemma exec_bind {A B} (p : Prog A) (f : A -> Prog B) (rt : Runtime) :
  exec svc (bind p f) rt =
  match exec svc p rt with
  | (rt1, Ok a, calls) =>
      let '(rt2, r, calls') := exec svc (f a) rt1 in (rt2, r, calls ++ calls')
  | (rt1, Fail e, calls) => (rt1, Fail e, calls)
  end.
Proof.
  revert rt. induction p as [a | e | R c k IH | X op k IH]; intros rt; simpl.
  - destruct (exec svc (f a) rt) as [[rt2 r] calls]. reflexivity.
  - reflexivity.
  - destruct (perform svc c) as [r | e]; [| reflexivity].
    rewrite IH. destruct (exec svc (k r) rt) as [[rt1 [a | e]] calls].
    + destruct (exec svc (f a) rt1) as [[rt2 r'] calls']. reflexivity.
    + reflexivity.
  - destruct (doOp op rt) as [b rt']. apply IH.
Qed.

(** A lone [await] makes exactly its call and yields its outcome. *)
Lemma exec_await {R} (c : LiveCall R) (rt : Runtime) :
  exec svc (await c) rt = (rt, perform svc c, [anyCall c]).
Proof.
  unfold await. simpl. destruct (perform svc c); reflexivity.
Qed.

Lemma doOp_tasks {B} (op : @Op GitLogEntry B) (rt : Runtime) :
  tasks (snd (doOp op rt)) = tasks rt.
Proof.
  destruct op as [B f | cb ms | [id |]]; simpl; try reflexivity.
  destruct (f (loader rt)); reflexivity.
Qed.

Lemma runSync_tasks {A} (p : @Prog GitLogEntry A) (rt : Runtime) :
  tasks (fst (runSync p rt)) = tasks rt.
Proof.
  revert rt. induction p as [a | e | R c k IH | B op k IH]; intros rt; simpl;
    try reflexivity.
  pose proof (doOp_tasks op rt) as Hop.
  destruct (doOp op rt) as [b rt']. simpl in Hop. rewrite IH. exact Hop.
Qed.

Lemma nth_error_last {X} (l : list X) (x : X) :
  nth_error (l ++ [x]) (List.length l) = Some x.
Proof.
  induction l as [| y l IH]; simpl; [reflexivity | exact IH].
Qed.

Lemma dropNth_last {X} (l : list X) (x : X) :
  dropNth (List.length l) (l ++ [x]) = l.
Proof.
  induction l as [| y l IH]; simpl; [reflexivity | now rewrite IH].
Qed.

(** An uninterrupted run is one schedule of the event loop: the task is
    launched and each call it awaits settles before anything else
    happens.  State, outcome and addressee agree. *)
Lemma exec_is_a_schedule (o : Origin) (p : Prog Value) (rt : Runtime) :
  let here := List.length (tasks rt) in
  let settles := repeat (svc, EvSettle here) (List.length (callsMade svc p rt)) in
  fst (run settles (fst (launch o p rt))) = stateAfter svc p rt /\
  snd (launch o p rt) ++ snd (run settles (fst (launch o p rt)))
  = [Settled o (answer svc p rt)].
Proof.
  cbv zeta. unfold callsMade, stateAfter, answer.
  revert rt. induction p as [a | e | R c k IH | B op k IH]; intros rt.
  - simpl. auto.
  - simpl. auto.
  - destruct rt as [d ts tk n]. unfold launch. simpl runSync. cbv iota beta.
    simpl exec. destruct (perform svc c) as [r |] eqn:Ec.
    + specialize (IH r {| loader := d; timers := ts; tasks := tk; nextTimer := n |}).
      destruct (exec svc (k r) _) as [[rt' res] calls]. simpl in IH.
      simpl. rewrite nth_error_last, dropNth_last. simpl. rewrite Ec.
      unfold setTasks at 1. simpl.
      destruct (launch o (k r) _) as [rt1 o1]. simpl in IH.
      destruct (run _ rt1) as [rt2 o2]. simpl in *. exact IH.
    + simpl. rewrite nth_error_last, dropNth_last. simpl. rewrite Ec. simpl. auto.
  - unfold launch. simpl.
    pose proof (doOp_tasks op rt) as Ht.
    destruct (doOp op rt) as [b rt']. simpl in Ht. rewrite <- Ht.
    apply (IH b rt').
Qed.

End ExecFacts.

(* ================================================================= *)
(** ** Neighbour lookup *)

Section Neighbours.

Context {GitLogEntry : Type}.
Variable svc : @GitService GitLogEntry.

Local Open Scope Z_scope.

Lemma indexOf_bounds (l : list string) (x : string) :
  -1 <= Js.indexOf l x < Js.length l.
Proof.
  unfold Js.length. induction l as [|y l IH]; simpl List.length; simpl Js.indexOf.
  - lia.
  - destruct (String.eqb y x); [lia |].
    destruct (Js.indexOf l x <? 0) eqn:E; [lia |].
    apply Z.ltb_ge in E. lia.
Qed.

(** The element reads of the neighbour lookups never yield [undefined]:
    under their guards the position read is inside the list. *)
Lemma neighbour_reads_defined (l : list string) (x : string) :
  let index := Js.indexOf l x in
  (index > 0 -> Js.at_ l (index - 1) <> None) /\
  (index >= 0 -> index + 1 < Js.length l -> Js.at_ l (index + 1) <> None).
Proof.
  pose proof (indexOf_bounds l x) as Hb. cbv zeta.
  unfold Js.at_, Js.length in *. split.
  - intros H. destruct (Js.indexOf l x - 1 <? 0) eqn:E;
      [apply Z.ltb_lt in E; lia |].
    apply nth_error_Some. lia.
  - intros H0 H1. destruct (Js.indexOf l x + 1 <? 0) eqn:E;
      [apply Z.ltb_lt in E; lia |].
    apply nth_error_Some. lia.
Qed.

Ltac run_lookup H :=
  unfold answer, getNextCommit, getPreviousCommit, hasNeighborCommits in *;
  rewrite ?exec_bind;
  match type of H with
  | context [exec ?s ?p ?rt] => destruct (exec s p rt) as [[? ?] ?]
  end;
  simpl in H; subst; simpl.

Ltac decide_ids :=
  repeat match goal with
         | N : ?a <> ?b |- context [String.eqb ?a ?b] =>
             rewrite (proj2 (String.eqb_neq a b) N)
         | N : ?b <> ?a |- context [String.eqb ?a ?b] =>
             rewrite (proj2 (String.eqb_neq a b) (not_eq_sym N))
         | |- context [String.eqb ?a ?a] => rewrite (String.eqb_refl a)
         end.

(** C9 (amended): on the commit list [c3; c2; c1; c0], newest first, with
    four different ids: next of [c2] is [c3] and previous of [c2] is [c1];
    the newest commit [c3] has no next commit (its previous one is [c2]);
    the oldest commit [c0] has no previous commit (its next one is [c1]);
    an id that is not in the list has neither, and [hasNeighborCommits]
    answers (false, false) for it. *)
Theorem C9_neighbor_lookup (rt : Runtime) (repo : GitRepo)
    (c3 c2 c1 c0 other : string)
    (Hdistinct : NoDup [c3; c2; c1; c0])
    (Habsent : ~ In other [c3; c2; c1; c0])
    (Hlist : answer svc (cachedOrLiveCommits repo) rt = Ok [c3; c2; c1; c0]) :
  answer svc (getNextCommit (Some repo) c2) rt = Ok c3 /\
  answer svc (getPreviousCommit (Some repo) c2) rt = Ok c1 /\
  answer svc (getNextCommit (Some repo) c3) rt = Ok ""%string /\
  answer svc (getPreviousCommit (Some repo) c3) rt = Ok c2 /\
  answer svc (getPreviousCommit (Some repo) c0) rt = Ok ""%string /\
  answer svc (getNextCommit (Some repo) c0) rt = Ok c1 /\
  answer svc (getNextCommit (Some repo) other) rt = Ok ""%string /\
  answer svc (getPreviousCommit (Some repo) other) rt = Ok ""%string /\
  answer svc (hasNeighborCommits (Some repo) other) rt = Ok (false, false).
Proof.
  assert (D : c3 <> c2 /\ c3 <> c1 /\ c3 <> c0 /\ c2 <> c1 /\ c2 <> c0 /\ c1 <> c0).
  { inversion Hdistinct as [| ? ? N3 R3]; subst.
    inversion R3 as [| ? ? N2 R2]; subst.
    inversion R2 as [| ? ? N1 R1]; subst.
    simpl in *. intuition congruence. }
  assert (O : c3 <> other /\ c2 <> other /\ c1 <> other /\ c0 <> other).
  { simpl in Habsent. intuition congruence. }
  destruct D as (? & ? & ? & ? & ? & ?). destruct O as (? & ? & ? & ?).
  run_lookup Hlist. decide_ids. simpl. repeat split; reflexivity.
Qed.

End Neighbours.

Lemma C9_neighbor_lookup_witness :
  answer Sample.git (getNextCommit (Some Sample.repoA) "a2") (Sample.ready Sample.git) = Ok "a3"%string /\
  answer Sample.git (getPreviousCommit (Some Sample.repoA) "a2") (Sample.ready Sample.git) = Ok "a1"%string /\
  answer Sample.git (getNextCommit (Some Sample.repoA) "a3") (Sample.ready Sample.git) = Ok ""%string /\
  answer Sample.git (getPreviousCommit (Some Sample.repoA) "a3") (Sample.ready Sample.git) = Ok "a2"%string /\
  answer Sample.git (getPreviousCommit (Some Sample.repoA) "a0") (Sample.ready Sample.git) = Ok ""%string /\
  answer Sample.git (getNextCommit (Some Sample.repoA) "a0") (Sample.ready Sample.git) = Ok "a1"%string /\
  answer Sample.git (getNextCommit (Some Sample.repoA) "zz") (Sample.ready Sample.git) = Ok ""%string /\
  answer Sample.git (getPreviousCommit (Some Sample.repoA) "zz") (Sample.ready Sample.git) = Ok ""%string /\
  answer Sample.git (hasNeighborCommits (Some Sample.repoA) "zz") (Sample.ready Sample.git) = Ok (false, false).
Proof.
  apply (@C9_neighbor_lookup string Sample.git (Sample.ready Sample.git) Sample.repoA
           "a3" "a2" "a1" "a0" "zz")%string.
  - repeat constructor; simpl; intuition discriminate.
  - simpl; intuition discriminate.
  - reflexivity.
Defined.

(** C9, as stated, fails at the newest commit: its previous commit is the
    second entry of the list, not the empty string (and symmetrically the
    next commit of the oldest one is the entry before it). *)
Lemma C9_newest_has_previous :
  answer Sample.git (cachedOrLiveCommits Sample.repoA) (Sample.ready Sample.git)
    = Ok ["a3"; "a2"; "a1"; "a0"]%string /\
  answer Sample.git (getPreviousCommit (Some Sample.repoA) "a3") (Sample.ready Sample.git)
    <> Ok ""%string /\
  answer Sample.git (getNextCommit (Some Sample.repoA) "a0") (Sample.ready Sample.git)
    <> Ok ""%string.
Proof.
  split; [reflexivity | split; vm_compute; discriminate].
Qed.

(* ================================================================= *)
(** ** Absent repository *)

Section AbsentRepository.

Context {GitLogEntry : Type}.
Variable svc : @GitService GitLogEntry.

(** C5 (amended): the four operations that declare an optional repository
    answer an absent one with their default, touching neither the state nor
    the service.  [getLogEntries] and [getCommitsCount] require a
    repository. *)
Theorem C5_absent_repository_defaults (rt : Runtime) (ref : string) :
  exec svc (getCurrentBranch None) rt = (rt, Ok ""%string, []) /\
  exec svc (getNextCommit None ref) rt = (rt, Ok ""%string, []) /\
  exec svc (getPreviousCommit None ref) rt = (rt, Ok ""%string, []) /\
  exec svc (hasNeighborCommits None ref) rt = (rt, Ok (false, false), []).
Proof.
  repeat split.
Qed.

End AbsentRepository.

(** C5, as stated, fails for the two operations whose repository parameter
    is not optional: without a repository the read of [repo.root] throws. *)
Lemma C5_absent_repository_rejected :
  answer Sample.git
    (getLogEntriesUntyped None false 0 10 "main" None None None None) boot
    = Fail TypeError /\
  answer Sample.git (getCommitsCountUntyped None "main" None) boot
    = Fail TypeError.
Proof.
  split; reflexivity.
Qed.

(* ================================================================= *)
(** ** Commit counts *)

Section CommitsCount.

Context {GitLogEntry : Type}.
Variable svc : @GitService GitLogEntry.
Variables (repo : GitRepo) (branch : string) (author : option string).

Let key : string := countKey branch (Js.nullish author "").
Let call : @LiveCall GitLogEntry Z := GetCommitsCount repo branch author.

Lemma find_set_same {V} (k : string) (v : V) (m : Lru.t V) :
  (0 < Lru.max m)%nat -> Lru.find k (Lru.items (Lru.set k v m)) = Some v.
Proof.
  unfold Lru.set. simpl. destruct (Lru.max m) as [|n]; [lia |].
  intros _. simpl. now rewrite String.eqb_refl.
Qed.

(** Cache not usable: pass through to the service. *)
Lemma getCommitsCount_bypass (rt : Runtime) :
  _useCache (loader rt) (root repo) = false ->
  exec svc (getCommitsCount repo branch author) rt
  = (rt, perform svc call, [anyCall call]).
Proof.
  destruct rt as [d ts tk n]. simpl. intros ->. simpl.
  destruct (liveCommitsCount svc repo branch author); reflexivity.
Qed.

(** A cached count other than 0 is returned without a live call. *)
Lemma getCommitsCount_hit (rt : Runtime) (n : Z) :
  _useCache (loader rt) (root repo) = true ->
  Lru.find key (Lru.items (counts (_cache (loader rt)))) = Some n ->
  n <> 0%Z ->
  exec svc (getCommitsCount repo branch author) rt
  = (setLoader (touchCounts key (loader rt)) rt, Ok n, []).
Proof.
  destruct rt as [d ts tk m]. simpl. intros -> Hfind Hn. simpl.
  unfold touchCounts, Lru.get. fold key. rewrite Hfind. simpl.
  destruct (Z.eqb_spec n 0); [contradiction | reflexivity].
Qed.

(** On a miss the live count is stored under the key and returned, and
    the next lookup of the key finds it. *)
Lemma getCommitsCount_miss (rt : Runtime) (r : Z) :
  _useCache (loader rt) (root repo) = true ->
  Lru.find key (Lru.items (counts (_cache (loader rt)))) = None ->
  perform svc call = Ok r ->
  (0 < Lru.max (counts (_cache (loader rt))))%nat ->
  exec svc (getCommitsCount repo branch author) rt
  = (setLoader (withCache (fun c => setCounts (Lru.set key r (counts c)) c) (loader rt)) rt,
     Ok r, [anyCall call]) /\
  Lru.find key (Lru.items (counts (_cache (loader
     (stateAfter svc (getCommitsCount repo branch author) rt))))) = Some r.
Proof.
  destruct rt as [d ts tk m]. unfold stateAfter. simpl.
  intros -> Hfind Hlive Hmax. simpl.
  unfold Lru.get. fold key. rewrite Hfind. simpl in *. rewrite Hlive. simpl.
  split; [reflexivity |]. now rewrite String.eqb_refl || apply find_set_same.
Qed.

(** A cached 0 is not told apart from a miss: the service is asked again. *)
Lemma getCommitsCount_zero (rt : Runtime) :
  _useCache (loader rt) (root repo) = true ->
  Lru.find key (Lru.items (counts (_cache (loader rt)))) = Some 0%Z ->
  callsMade svc (getCommitsCount repo branch author) rt = [anyCall call].
Proof.
  destruct rt as [d ts tk m]. unfold callsMade. simpl. intros -> Hfind. simpl.
  unfold Lru.get. fold key. rewrite Hfind. simpl.
  destruct (liveCommitsCount svc repo branch author); reflexivity.
Qed.

End CommitsCount.

(** C2 at a count of 0: nobody's commits on main are counted live (0), the
    0 is stored under the key, and the same query asked again goes to the
    service again instead of being served from the cache. *)
Theorem C2_zero_count_asked_again :
  let q := getCommitsCount Sample.repoA "main" (Some "nobody"%string) in
  let rt1 := stateAfter Sample.git q (Sample.ready Sample.git) in
  _useCache (loader (Sample.ready Sample.git)) (root Sample.repoA) = true /\
  answer Sample.git q (Sample.ready Sample.git) = Ok 0%Z /\
  Lru.find "main,nobody" (Lru.items (counts (_cache (loader rt1)))) = Some 0%Z /\
  _useCache (loader rt1) (root Sample.repoA) = true /\
  callsMade Sample.git q rt1
  = [anyCall (GetCommitsCount Sample.repoA "main" (Some "nobody"%string))].
Proof.
  repeat split.
Qed.

(* ================================================================= *)
(** ** Log entries *)

Section LogEntries.

Context {GitLogEntry : Type}.
Variable svc : @GitService GitLogEntry.
Variables (repo : GitRepo) (express : bool) (start count : Z) (branch : string)
          (isStash : option bool) (file : option Uri) (line : option Z)
          (author : option string).

Let key : string := queryKey branch isStash file line author.
Let call : @LiveCall GitLogEntry (list GitLogEntry) :=
  GetLogEntries repo express start count branch isStash file line author.
Let query : Prog (list GitLogEntry) :=
  getLogEntries repo express start count branch isStash file line author.

Local Open Scope Z_scope.

Local Arguments Js.length : simpl never.
Local Arguments Js.slice : simpl never.
Local Arguments logEntriesCount : simpl never.
Local Arguments Z.ltb : simpl never.
Local Arguments Z.geb : simpl never.

(** Cache not usable: pass through to the service. *)
Lemma getLogEntries_bypass (rt : Runtime) :
  _useCache (loader rt) (root repo) = false ->
  exec svc query rt = (rt, perform svc call, [anyCall call]).
Proof.
  destruct rt as [d ts tk n]. simpl. intros ->. simpl.
  destruct (liveLogEntries svc repo express start count branch isStash file line author);
    reflexivity.
Qed.

(** A cached entry shorter than a full page is the whole history: any
    window is cut out of it, without a live call. *)
Lemma getLogEntries_complete (rt : Runtime) (E : list GitLogEntry) :
  _useCache (loader rt) (root repo) = true ->
  Lru.find key (Lru.items (logEntries (_cache (loader rt)))) = Some E ->
  Js.length E < logEntriesCount ->
  exec svc query rt
  = (setLoader (touchLogEntries key (loader rt)) rt,
     Ok (Js.slice E start (start + count)), []).
Proof.
  unfold query, queryKey in *; unfold key, queryKey in *.
  destruct rt as [d ts tk n]. simpl. intros -> Hfind Hlen. simpl.
  unfold touchLogEntries, Lru.get. rewrite Hfind. simpl.
  apply Z.ltb_lt in Hlen. rewrite Hlen. reflexivity.
Qed.

(** A full cached page serves the windows that end strictly before its
    end, without a live call. *)
Lemma getLogEntries_covered (rt : Runtime) (E : list GitLogEntry) :
  _useCache (loader rt) (root repo) = true ->
  Lru.find key (Lru.items (logEntries (_cache (loader rt)))) = Some E ->
  logEntriesCount <= Js.length E ->
  start + count < Js.length E ->
  exec svc query rt
  = (setLoader (touchLogEntries key (loader rt)) rt,
     Ok (Js.slice E start (start + count)), []).
Proof.
  unfold query, queryKey in *; unfold key, queryKey in *.
  destruct rt as [d ts tk n]. simpl. intros -> Hfind Hfull Hin. simpl.
  unfold touchLogEntries, Lru.get. rewrite Hfind. simpl.
  apply Z.ltb_ge in Hfull. rewrite Hfull.
  apply Z.ltb_lt in Hin. rewrite Hin. reflexivity.
Qed.

(** What follows the live fetch (lines 118-150) neither calls the service
    nor changes the entries returned. *)
Lemma after_fetch_returns (entries : list GitLogEntry) (rt : Runtime) :
  let rest : Prog (list GitLogEntry) :=
    bind (if Js.looseEq start 0 then
            if (count >=? logEntriesCount) && (Js.length entries <? logEntriesCount) then
              logEntriesSet key entries
            else if count <? logEntriesCount then
              bind (setTimeout (WarmLogEntries repo express branch isStash file line
                                               author key) 0)
                   (fun _ => Ret tt)
            else Ret tt
          else Ret tt)
         (fun _ => Ret entries) in
  snd (fst (exec svc rest rt)) = Ok entries /\ snd (exec svc rest rt) = [].
Proof.
  destruct rt as [d ts tk n]. simpl.
  destruct (Js.looseEq start 0); [| split; reflexivity].
  destruct ((count >=? logEntriesCount) && (Js.length entries <? logEntriesCount));
    [split; reflexivity |].
  destruct (count <? logEntriesCount); split; reflexivity.
Qed.

Lemma fetch_outcome (rt : Runtime) :
  let fetch : Prog (list GitLogEntry) :=
    bind (await call) (fun entries =>
    bind (if Js.looseEq start 0 then
            if (count >=? logEntriesCount) && (Js.length entries <? logEntriesCount) then
              logEntriesSet key entries
            else if count <? logEntriesCount then
              bind (setTimeout (WarmLogEntries repo express branch isStash file line
                                               author key) 0)
                   (fun _ => Ret tt)
            else Ret tt
          else Ret tt)
         (fun _ => Ret entries)) in
  snd (fst (exec svc fetch rt)) = perform svc call /\
  snd (exec svc fetch rt) = [anyCall call].
Proof.
  intros fetch. subst fetch. rewrite exec_bind, exec_await.
  destruct (perform svc call) as [entries | e]; [| split; reflexivity].
  destruct (after_fetch_returns entries rt) as [Ha Hc]. cbv zeta in Ha, Hc.
  cbv beta iota zeta.
  match goal with
  | |- context [exec svc ?p rt] => destruct (exec svc p rt) as [[rt2 r] cs]
  end.
  simpl in *. subst. split; reflexivity.
Qed.

(** Nothing cached under the key: one live call for exactly the window
    asked for, whose outcome is the answer. *)
Lemma getLogEntries_miss (rt : Runtime) :
  _useCache (loader rt) (root repo) = true ->
  Lru.find key (Lru.items (logEntries (_cache (loader rt)))) = None ->
  answer svc query rt = perform svc call /\
  callsMade svc query rt = [anyCall call].
Proof.
  unfold query, queryKey in *; unfold key, queryKey in *.
  destruct rt as [d ts tk n]. unfold answer, callsMade. simpl.
  intros -> Hfind. simpl.
  unfold Lru.get. rewrite Hfind.
  apply fetch_outcome.
Qed.

(** A full cached page does not serve a window that reaches its end or
    goes beyond: one live call for exactly that window. *)
Lemma getLogEntries_uncovered (rt : Runtime) (E : list GitLogEntry) :
  _useCache (loader rt) (root repo) = true ->
  Lru.find key (Lru.items (logEntries (_cache (loader rt)))) = Some E ->
  logEntriesCount <= Js.length E ->
  Js.length E <= start + count ->
  answer svc query rt = perform svc call /\
  callsMade svc query rt = [anyCall call].
Proof.
  unfold query, queryKey in *; unfold key, queryKey in *.
  destruct rt as [d ts tk n]. unfold answer, callsMade. simpl.
  intros -> Hfind Hfull Hout. simpl.
  unfold Lru.get. rewrite Hfind.
  apply Z.ltb_ge in Hfull. apply Z.ltb_ge in Hout.
  cbv beta iota zeta. simpl fst. simpl snd.
  rewrite Hfull, Hout.
  apply fetch_outcome.
Qed.

End LogEntries.

(** C3 at the boundary: with a full page of 1200 entries cached for the
    key, the window [0, 1200), which ends exactly at the stored length, is
    not cut out of the cache but fetched live; the window [0, 1199) is
    served from the cache. *)
Theorem C3_window_ending_at_stored_length :
  let rt := Sample.ready Sample.longGit in
  let full := getLogEntries Sample.repoA false 0 1200 "main" None None None None in
  let inner := getLogEntries Sample.repoA false 0 1199 "main" None None None None in
  _useCache (loader rt) (root Sample.repoA) = true /\
  option_map Js.length
    (Lru.find (queryKey "main" None None None None)
              (Lru.items (logEntries (_cache (loader rt))))) = Some 1200%Z /\
  callsMade Sample.longGit full rt
  = [anyCall (GetLogEntries Sample.repoA false 0 1200 "main" None None None None)] /\
  callsMade Sample.longGit inner rt = [].
Proof.
  vm_compute. repeat split.
Qed.

(* ================================================================= *)
(** ** Bulk reload and cache warming *)

Section BackgroundTasks.

Context {GitLogEntry : Type}.
Variable svc : @GitService GitLogEntry.

Lemma strictEq_other (a : string) (d : @Dataloader GitLogEntry) (other : GitRepo) :
  _repo d = Some other -> root other <> a -> strictEq a (repoRoot d) = false.
Proof.
  unfold repoRoot. intros -> H. simpl. apply String.eqb_neq. congruence.
Qed.

(** The completion of a reload whose repository is no longer the active
    one returns at line 228 before any write. *)
Lemma applyReload_stale (rt : Runtime) (repo other : GitRepo)
    (branch : string) (commits : list string) (count : Z) (logs : list GitLogEntry) :
  _repo (loader rt) = Some other -> root other <> root repo ->
  runSync (applyReload repo branch commits count logs) rt = (rt, Finished tt).
Proof.
  destruct rt as [d ts tk n]. simpl. intros Hrepo Hroot.
  unfold applyReload. simpl. rewrite strictEq_other with (other := other) by assumption. reflexivity.
Qed.

(** C7: a bulk reload begun for [repo] that completes while a repository
    with a different root is active changes nothing: whatever was fetched,
    the completion leaves branch, commits, counts and log entries (and the
    rest of the loader) exactly as they were. *)
Theorem C7_stale_reload_discarded (rt : Runtime) (repo other : GitRepo)
    (Hactive : _repo (loader rt) = Some other)
    (Hswitched : root other <> root repo) :
  (forall branch commits count logs,
      runSync (applyReload repo branch commits count logs) rt = (rt, Finished tt)) /\
  stateAfter svc (timerBody (ReloadCaches repo)) rt = rt.
Proof.
  split.
  - intros. now apply applyReload_stale with (other := other).
  - destruct rt as [d ts tk n]. unfold stateAfter. simpl in *.
    destruct (liveCurrentBranch svc repo) as [b | e]; [| reflexivity].
    destruct (liveCommits svc repo (Some (Js.nullish b ""%string))); [| reflexivity].
    destruct (liveCommitsCount svc repo (Js.nullish b ""%string) None); [| reflexivity].
    destruct (liveLogEntries svc repo false 0 logEntriesCount (Js.nullish b ""%string)
                             None None None None); [| reflexivity].
    simpl. rewrite strictEq_other with (other := other) by assumption. reflexivity.
Qed.

(** Neither callback writes before its last [await] has succeeded: one
    that fails has changed nothing. *)
Lemma failed_callback_writes_nothing (rt : Runtime) (task : TimerTask) (e : Error) :
  answer svc (timerBody task) rt = Fail e ->
  stateAfter svc (timerBody task) rt = rt.
Proof.
  intros Hfail. destruct rt as [d ts tk n]. unfold answer, stateAfter in *.
  destruct task as [repo | repo express branch isStash file line author key];
    simpl in *.
  - destruct (liveCurrentBranch svc repo) as [b | ?]; [| reflexivity].
    destruct (liveCommits svc repo (Some (Js.nullish b ""%string))); [| reflexivity].
    destruct (liveCommitsCount svc repo (Js.nullish b ""%string) None); [| reflexivity].
    destruct (liveLogEntries svc repo false 0 logEntriesCount (Js.nullish b ""%string)
                             None None None None); [| reflexivity].
    simpl in Hfail.
    destruct (negb (strictEq (root repo) (repoRoot d))); simpl in Hfail; discriminate.
  - destruct (liveLogEntries svc repo express 0 logEntriesCount branch isStash file
                             line author); [| reflexivity].
    simpl in Hfail. discriminate.
Qed.

(** What a callback fetches and whether it fails does not depend on the
    state it runs in. *)
Lemma callback_outcome_stateless (rt rt' : Runtime) (task : TimerTask) :
  answer svc (timerBody task) rt = answer svc (timerBody task) rt' /\
  callsMade svc (timerBody task) rt = callsMade svc (timerBody task) rt'.
Proof.
  destruct rt as [d ts tk n], rt' as [d' ts' tk' n']. unfold answer, callsMade.
  destruct task as [repo | repo express branch isStash file line author key]; simpl.
  - destruct (liveCurrentBranch svc repo) as [b | ?]; [| auto].
    destruct (liveCommits svc repo (Some (Js.nullish b ""%string))); [| auto].
    destruct (liveCommitsCount svc repo (Js.nullish b ""%string) None); [| auto].
    destruct (liveLogEntries svc repo false 0 logEntriesCount (Js.nullish b ""%string)
                             None None None None); [| auto].
    simpl.
    destruct (negb (strictEq (root repo) (repoRoot d))),
             (negb (strictEq (root repo) (repoRoot d'))); simpl; auto.
  - destruct (liveLogEntries svc repo express 0 logEntriesCount branch isStash file
                             line author); simpl; auto.
Qed.

(** On the event loop the rejection settles the suspended task and nothing
    else: the loader is not touched and the only outcome goes to whoever
    started the task, which for a timer callback is nobody. *)
Lemma settle_rejected (rt : Runtime) (n : nat) (t : Task) (e : Error) :
  nth_error (tasks rt) n = Some t ->
  perform svc (awaited t) = Fail e ->
  step svc (EvSettle n) rt
  = (setTasks (dropNth n (tasks rt)) rt, [Settled (origin t) (Fail e)]).
Proof.
  intros Ht He. simpl. rewrite Ht, He. reflexivity.
Qed.

End BackgroundTasks.

Lemma C7_stale_reload_discarded_witness :
  (forall branch commits count logs,
      runSync (applyReload Sample.repoA branch commits count logs) Sample.switchedToB
      = (Sample.switchedToB, Finished tt)) /\
  stateAfter Sample.git (timerBody (ReloadCaches Sample.repoA)) Sample.switchedToB
  = Sample.switchedToB.
Proof.
  apply (@C7_stale_reload_discarded string Sample.git Sample.switchedToB
           Sample.repoA Sample.repoB).
  - reflexivity.
  - discriminate.
Defined.

(** C8, as stated, fails in its last part: the bulk reload of the still
    active repository fails, nothing is armed or in flight any more, and
    the refresh flag is still set, so reads keep going to the service. *)
Lemma C8_failed_reload_stays_masked :
  let rt := fst (run Sample.failedReload boot) in
  snd (run Sample.failedReload boot)
  = [Settled (ByAttach Sample.repoA) (Ok VVoid);
     Settled (ByTimer (ReloadCaches Sample.repoA)) (Fail (ServiceError "git"))] /\
  _repo (loader rt) = Some Sample.repoA /\
  timers rt = [] /\ tasks rt = [] /\
  _updating (loader rt) = true /\
  _useCache (loader rt) (root Sample.repoA) = false /\
  callsMade Sample.brokenGit (getCurrentBranch (Some Sample.repoA)) rt
  = [anyCall (GetCurrentBranch Sample.repoA)].
Proof.
  vm_compute. repeat split.
Qed.

(** C1 on a warming fetch that outlives a switch: the log entries fetched
    for [repoA] are written into the cache after [repoB] has become the
    active repository, and once [repoB] is loaded the same query about
    [repoB] is answered from the cache with the commits of [repoA], while
    the service would have answered with those of [repoB]. *)
Theorem C1_warming_outlives_switch :
  let rt := fst (run Sample.warmingAcrossSwitch boot) in
  let q := getLogEntries Sample.repoB false 0 2 "main" None None None (Some "bob"%string) in
  _repo (loader rt) = Some Sample.repoB /\
  _useCache (loader rt) (root Sample.repoB) = true /\
  Lru.find "main,,,,bob" (Lru.items (logEntries (_cache (loader rt))))
  = Some ["a3"; "a2"; "a1"; "a0"]%string /\
  answer Sample.git q rt = Ok ["a3"; "a2"]%string /\
  callsMade Sample.git q rt = [] /\
  liveAnswer Sample.git (Sample.bobsFirstPage Sample.repoB)
  = Ok (VEntries ["b1"; "b0"]%string).
Proof.
  vm_compute. repeat split.
Qed.

(** C6 on overlapping reloads: a change is noticed while an earlier bulk
    reload is still fetching; when that earlier reload completes it clears
    the refresh flag although the reload scheduled for the change is still
    waiting for its timer, and a read for the active repository is then
    answered from the cache (with the branch read before the change)
    without asking the service. *)
Theorem C6_earlier_reload_ends_mask :
  let rt := fst (run Sample.overlappingReloads boot) in
  _repo (loader rt) = Some Sample.repoA /\
  timers rt = [(1, ReloadCaches Sample.repoA)] /\
  _updating (loader rt) = false /\
  exec Sample.gitOnDev (getCurrentBranch (Some Sample.repoA)) rt
  = (rt, Ok "main"%string, []) /\
  liveAnswer Sample.gitOnDev (QCurrentBranch (Some Sample.repoA))
  = Ok (VString "dev").
Proof.
  vm_compute. repeat split.
Qed.

(** C10 on a repository attached, left and attached again: the second
    attachment switches, clears the cache, sets the refresh flag and arms
    a reload before it returns.  The reload begun under the first
    attachment is still fetching; when it completes it finds its own root
    active, stores what it fetched and clears the refresh flag, although
    the reload armed by the second attachment is still waiting for its
    timer.  A read for the repository is then answered from the cache
    (with the branch read before the checkout) without asking the
    service. *)
Theorem C10_leftover_reload_ends_mask :
  let before := fst (run (removelast Sample.awayAndBack) boot) in
  let rt1 := fst (run Sample.awayAndBack boot) in
  let rt := fst (run Sample.leftoverReload boot) in
  (_repo (loader before) = Some Sample.repoB /\
   rt1 = fst (step Sample.gitOnDev (EvUpdateRepo Sample.repoA) before)) /\
  (_repo (loader rt1) = Some Sample.repoA /\
   _cache (loader rt1) = newCache /\
   _updating (loader rt1) = true /\
   timers rt1 = [(2, ReloadCaches Sample.repoA)] /\
   exec Sample.gitOnDev (getCurrentBranch (Some Sample.repoA)) rt1
   = (rt1, Ok "dev"%string, [anyCall (GetCurrentBranch Sample.repoA)])) /\
  (snd (run Sample.leftoverReload boot)
   = [Settled (ByAttach Sample.repoA) (Ok VVoid);
      Settled (ByAttach Sample.repoB) (Ok VVoid);
      Settled (ByAttach Sample.repoA) (Ok VVoid);
      Settled (ByTimer (ReloadCaches Sample.repoA)) (Ok VVoid)] /\
   _repo (loader rt) = Some Sample.repoA /\
   timers rt = [(2, ReloadCaches Sample.repoA)] /\
   _updating (loader rt) = false /\
   exec Sample.gitOnDev (getCurrentBranch (Some Sample.repoA)) rt
   = (rt, Ok "main"%string, []) /\
   liveAnswer Sample.gitOnDev (QCurrentBranch (Some Sample.repoA))
   = Ok (VString "dev")).
Proof.
  vm_compute. repeat split.
Qed.

(* ================================================================= *)
(** ** The staleness mask *)

Section Masking.

Context {GitLogEntry : Type}.

(** What [tame] promises of one stretch of synchronous code. *)
Lemma tame_sound (reloading : option string) {A} (p : @Prog GitLogEntry A)
    (rt0 rt : Runtime) :
  tame reloading p rt0 rt ->
  match runSync p rt with
  | (rt', Finished _) =>
      sameGate rt0 rt' \/
      exists r, reloading = Some r /\
                repoRoot (loader rt0) = Some r /\ repoRoot (loader rt') = Some r
  | (rt', Rejected _) => sameGate rt0 rt'
  | (rt', Blocked _ k) =>
      sameGate rt0 rt' /\ forall v rt'', tame reloading (k v) rt'' rt''
  end.
Proof.
  revert rt. induction p as [a | e | R c k IH | B op k IH]; intros rt H; simpl in *.
  - exact H.
  - exact H.
  - exact H.
  - destruct (doOp op rt) as [b rt']. simpl in H. now apply IH.
Qed.

Lemma sameGate_refl (rt : @Runtime GitLogEntry) : sameGate rt rt.
Proof. split; reflexivity. Qed.

Lemma sameGate_masked (rootPath : string) (rt rt' : @Runtime GitLogEntry) :
  sameGate rt rt' -> masked rootPath rt -> masked rootPath rt'.
Proof.
  unfold sameGate, masked, _useCache, repoRoot. intros [Hr Hu] H.
  now rewrite <- Hr, <- Hu.
Qed.

Ltac tame_step :=
  match goal with
  | |- sameGate _ _ => split; reflexivity
  | |- True => exact I
  | |- _ /\ _ => split
  | |- forall _ : Runtime, _ => intros [? ? ? ?]
  | |- forall _, _ => intro
  | |- sameGate _ _ \/ _ => left
  | |- context [Lru.get ?k ?m] => destruct (Lru.get k m)
  | |- context [let (_, _) := ?x in _] => destruct x eqn:?
  | |- context [if ?c then _ else _] => destruct c eqn:?
  | |- context [match ?x with Some _ => _ | None => _ end] => destruct x eqn:?
  end.

Ltac tame_crush := repeat (simpl; tame_step).

(** Every operation of the query gate is tame: it reads the repository
    and the refresh flag but writes only into the cache. *)
Lemma tame_query (q : Query) (rt : @Runtime GitLogEntry) :
  tame None (queryProg q) rt rt.
Proof.
  destruct rt as [d ts tk n].
  destruct q as [repo express start count branch isStash file line author
                | repo branch author | [repo |] | [repo |] ref | [repo |] ref
                | [repo |] ref];
    unfold queryProg, getLogEntries, getCommitsCount, getCurrentBranch, getNextCommit,
      getPreviousCommit, hasNeighborCommits, cachedOrLiveCommits;
    tame_crush.
Qed.

Lemma strictEq_true (a : string) (o : option string) :
  strictEq a o = true -> o = Some a.
Proof.
  destruct o as [s |]; simpl; [| discriminate].
  intros H. apply String.eqb_eq in H. now subst.
Qed.

(** So is the warming fetch; a bulk reload is tame but for its last
    stretch, which clears the refresh flag while its root is active. *)
Lemma tame_timer (t : TimerTask) (rt : @Runtime GitLogEntry) :
  tame (reloadRootOf (ByTimer t)) (void (timerBody t)) rt rt.
Proof.
  destruct t as [repo | repo express branch isStash file line author key].
  - simpl. split; [apply sameGate_refl |]. intros b rt1.
    split; [apply sameGate_refl |]. intros [[commits count] logs] [d ts tk n].
    simpl. destruct (strictEq (root repo) (repoRoot d)) eqn:E; simpl.
    + right. exists (root repo). apply strictEq_true in E.
      repeat split; assumption.
    + left. apply sameGate_refl.
  - unfold void, timerBody. tame_crush.
Qed.

(** Attaching and scheduling run without suspending. *)
Lemma updateCaches_runs (repo : GitRepo) (rt : @Runtime GitLogEntry) :
  exists rt', runSync (void (_updateCaches repo)) rt = (rt', Finished VVoid) /\
              tasks rt' = tasks rt /\
              _repo (loader rt') = _repo (loader rt) /\
              _updating (loader rt') = true.
Proof.
  destruct rt as [[c w r u [id |]] ts tk n]; simpl; eexists; repeat split.
Qed.

Lemma updateRepo_switch (repo : GitRepo) (rt : @Runtime GitLogEntry) :
  strictEq (root repo) (repoRoot (loader rt)) = false ->
  exists rt', runSync (void (updateRepo repo)) rt = (rt', Finished VVoid) /\
              tasks rt' = tasks rt /\
              _repo (loader rt') = Some repo /\
              _updating (loader rt') = true /\
              _cache (loader rt') = clear (_cache (loader rt)).
Proof.
  destruct rt as [[c w r u h] ts tk n]. simpl. intros ->. simpl.
  destruct h as [id |]; simpl; eexists; repeat split.
Qed.

Lemma updateRepo_same (repo : GitRepo) (rt : @Runtime GitLogEntry) :
  strictEq (root repo) (repoRoot (loader rt)) = true ->
  runSync (void (updateRepo repo)) rt = (rt, Finished VVoid).
Proof.
  destruct rt as [d ts tk n]. simpl. intros ->. reflexivity.
Qed.

Lemma updateRepo_runs (repo : GitRepo) (rt : @Runtime GitLogEntry) :
  exists rt', runSync (void (updateRepo repo)) rt = (rt', Finished VVoid) /\
              tasks rt' = tasks rt /\
              (rt' = rt \/ _updating (loader rt') = true).
Proof.
  destruct (strictEq (root repo) (repoRoot (loader rt))) eqn:E.
  - exists rt. rewrite updateRepo_same by exact E. auto.
  - destruct (updateRepo_switch repo rt E) as (rt' & H & Ht & _ & Hu & _).
    exists rt'. auto.
Qed.

(** *** The tasks in flight stay tame *)

Lemma launch_tame (o : Origin) (p : Prog Value) (rt : @Runtime GitLogEntry) :
  tame (reloadRootOf o) p rt rt -> allTame rt -> allTame (fst (launch o p rt)).
Proof.
  unfold allTame, launch. intros Hp Hrt.
  pose proof (tame_sound _ _ _ _ Hp) as Hs.
  pose proof (runSync_tasks p rt) as Ht.
  destruct (runSync p rt) as [rt' [v | e | R c k]]; simpl in *.
  - now rewrite Ht.
  - now rewrite Ht.
  - rewrite Ht. apply Forall_app. split; [assumption |].
    constructor; [| constructor]. unfold tameTask. simpl. apply Hs.
Qed.

Lemma dropNth_Forall {A} (P : A -> Prop) (n : nat) (l : list A) :
  Forall P l -> Forall P (dropNth n l).
Proof.
  revert n. induction l as [| x l IH]; intros [| n] H; simpl; auto.
  - now inversion H.
  - inversion H; subst. constructor; auto.
Qed.

Lemma step_tame (svc : GitService) (ev : Event) (rt : @Runtime GitLogEntry) :
  allTame rt -> allTame (fst (step svc ev rt)).
Proof.
  intros Hrt. destruct ev as [repo | | id | n | q]; simpl.
  - unfold launch. destruct (updateRepo_runs repo rt) as (rt' & -> & Ht & _).
    simpl. unfold allTame. now rewrite Ht.
  - destruct (_fsWatcher (loader rt)) as [w |]; [| exact Hrt].
    unfold launch. destruct (updateCaches_runs (watchedRepo w) rt) as (rt' & -> & Ht & _).
    simpl. unfold allTame. now rewrite Ht.
  - destruct (findTimer id (timers rt)) as [t |]; [| exact Hrt].
    apply launch_tame; [apply tame_timer | exact Hrt].
  - destruct (nth_error (tasks rt) n) as [t |] eqn:Et; [| exact Hrt].
    assert (Hrest : allTame (setTasks (dropNth n (tasks rt)) rt))
      by (apply dropNth_Forall; exact Hrt).
    destruct (perform svc (awaited t)) as [v | e]; [| exact Hrest].
    apply launch_tame; [| exact Hrest].
    apply nth_error_In in Et. unfold allTame in Hrt.
    rewrite Forall_forall in Hrt. apply (Hrt t Et).
  - apply launch_tame; [apply tame_query | exact Hrt].
Qed.

Lemma run_tame (h : list (GitService * Event)) (rt : @Runtime GitLogEntry) :
  allTame rt -> allTame (fst (run h rt)).
Proof.
  revert rt. induction h as [| [svc ev] h IH]; intros rt Hrt; simpl; [exact Hrt |].
  pose proof (step_tame svc ev rt Hrt) as H1.
  destruct (step svc ev rt) as [rt1 o1]. simpl in H1.
  specialize (IH rt1 H1). destruct (run h rt1) as [rt2 o2]. exact IH.
Qed.

Lemma reachable_tame (rt : @Runtime GitLogEntry) : reachable rt -> allTame rt.
Proof.
  intros [h <-]. apply run_tame. constructor.
Qed.

(** *** The mask holds until a reload for the root runs to its end *)

Lemma updating_masked (rootPath : string) (rt : @Runtime GitLogEntry) :
  _updating (loader rt) = true -> masked rootPath rt.
Proof.
  unfold masked, _useCache. intros ->.
  destruct (negb (strictEq rootPath (repoRoot (loader rt)))); reflexivity.
Qed.

Lemma otherRoot_masked (rootPath r : string) (rt : @Runtime GitLogEntry) :
  repoRoot (loader rt) = Some r -> String.eqb r rootPath = false -> masked rootPath rt.
Proof.
  unfold masked, _useCache. intros -> H. simpl.
  rewrite String.eqb_sym, H. reflexivity.
Qed.

Lemma launch_masked (rootPath : string) (o : Origin) (p : Prog Value)
    (rt : @Runtime GitLogEntry) :
  tame (reloadRootOf o) p rt rt -> masked rootPath rt ->
  masked rootPath (fst (launch o p rt)) \/
  noReloadDone rootPath (snd (launch o p rt)) = false.
Proof.
  intros Hp Hm. unfold launch.
  pose proof (tame_sound _ _ _ _ Hp) as Hs.
  destruct (runSync p rt) as [rt' [v | e | R c k]]; simpl in *.
  - destruct Hs as [Hs | (r & Hr & _ & Hroot)].
    + left. now apply sameGate_masked with (rt := rt).
    + destruct o as [q | repo | | [repo | ? ? ? ? ? ? ? ?]]; simpl in Hr; try discriminate.
      injection Hr as <-. unfold noReloadDone. simpl.
      destruct (String.eqb (root repo) rootPath) eqn:E; [right; reflexivity |].
      left. now apply otherRoot_masked with (r := root repo).
  - left. now apply sameGate_masked with (rt := rt).
  - left. destruct Hs as [Hs _]. apply sameGate_masked with (rt := rt); [| exact Hm].
    destruct Hs. split; assumption.
Qed.

Lemma step_masked (rootPath : string) (svc : GitService) (ev : Event)
    (rt : @Runtime GitLogEntry) :
  allTame rt -> masked rootPath rt ->
  masked rootPath (fst (step svc ev rt)) \/
  noReloadDone rootPath (snd (step svc ev rt)) = false.
Proof.
  intros Hrt Hm. destruct ev as [repo | | id | n | q]; simpl.
  - left. unfold launch.
    destruct (updateRepo_runs repo rt) as (rt' & -> & _ & [-> | Hu]);
      simpl; [exact Hm | now apply updating_masked].
  - destruct (_fsWatcher (loader rt)) as [w |]; [| now left].
    left. unfold launch.
    destruct (updateCaches_runs (watchedRepo w) rt) as (rt' & -> & _ & _ & Hu).
    simpl. now apply updating_masked.
  - destruct (findTimer id (timers rt)) as [t |]; [| now left].
    apply launch_masked; [apply tame_timer | exact Hm].
  - destruct (nth_error (tasks rt) n) as [t |] eqn:Et; [| now left].
    destruct (perform svc (awaited t)) as [v | e]; [| left; exact Hm].
    apply launch_masked; [| exact Hm].
    apply nth_error_In in Et. unfold allTame in Hrt.
    rewrite Forall_forall in Hrt. apply (Hrt t Et).
  - apply launch_masked; [apply tame_query | exact Hm].
Qed.

Lemma run_masked (rootPath : string) (h : list (GitService * Event))
    (rt : @Runtime GitLogEntry) :
  allTame rt -> masked rootPath rt ->
  noReloadDone rootPath (snd (run h rt)) = true ->
  masked rootPath (fst (run h rt)).
Proof.
  revert rt. induction h as [| [svc ev] h IH]; intros rt Hrt Hm Hno; simpl in *;
    [exact Hm |].
  pose proof (step_tame svc ev rt Hrt) as H1.
  pose proof (step_masked rootPath svc ev rt Hrt Hm) as H2.
  destruct (step svc ev rt) as [rt1 o1]. simpl in H1, H2.
  specialize (IH rt1 H1).
  destruct (run h rt1) as [rt2 o2]. simpl in *.
  unfold noReloadDone in *. rewrite forallb_app in Hno.
  apply andb_prop in Hno as [Ho1 Ho2].
  destruct H2 as [H2 | H2]; [now apply IH | congruence].
Qed.

(** *** Masked reads go to the service *)

Lemma gate_bypass (svc : GitService) (rootPath : string) (q : Query)
    (rt : @Runtime GitLogEntry) :
  masked rootPath rt -> targets q rootPath ->
  exec svc (queryProg q) rt = (rt, liveAnswer svc q, liveCallOf q).
Proof.
  unfold masked, targets. intros Hm Ht. destruct rt as [d ts tk n].
  destruct q as [repo express start count branch isStash file line author
                | repo branch author | [repo |] | [repo |] ref | [repo |] ref
                | [repo |] ref];
    simpl in Ht; try discriminate; injection Ht as <-; simpl in *; rewrite Hm; simpl.
  - destruct (liveLogEntries svc repo express start count branch isStash file line author);
      reflexivity.
  - destruct (liveCommitsCount svc repo branch author); reflexivity.
  - destruct (liveCurrentBranch svc repo); reflexivity.
  - destruct (liveCommits svc repo None); reflexivity.
  - destruct (liveCommits svc repo None); reflexivity.
  - destruct (liveCommits svc repo None); reflexivity.
Qed.

(** The same on the event loop, with anything in between: a masked query
    is suspended at its one live call with nothing changed, and what is
    left of it only hands the outcome of that call to the caller. *)
Lemma gate_bypass_suspended (svc0 : GitService) (rootPath : string) (q : Query)
    (rt : @Runtime GitLogEntry) :
  masked rootPath rt -> targets q rootPath ->
  exists t : Task,
    step svc0 (EvQuery q) rt = (setTasks (tasks rt ++ [t]) rt, []) /\
    origin t = ByCaller q /\
    [anyCall (awaited t)] = liveCallOf q /\
    forall svc rt' n, nth_error (tasks rt') n = Some t ->
      step svc (EvSettle n) rt'
      = (setTasks (dropNth n (tasks rt')) rt', [Settled (ByCaller q) (liveAnswer svc q)]).
Proof.
  unfold masked, targets. intros Hm Ht. destruct rt as [d ts tk n0].
  destruct q as [repo express start count branch isStash file line author
                | repo branch author | [repo |] | [repo |] ref | [repo |] ref
                | [repo |] ref];
    simpl in Ht; try discriminate; injection Ht as <-; simpl in *;
    unfold launch; simpl; rewrite Hm; simpl;
    (eexists; split; [reflexivity |]; split; [reflexivity |]; split; [reflexivity |]);
    intros svc rt' n Hn; simpl; rewrite Hn; simpl.
  - destruct (liveLogEntries svc repo express start count branch isStash file line author);
      reflexivity.
  - destruct (liveCommitsCount svc repo branch author); reflexivity.
  - destruct (liveCurrentBranch svc repo); reflexivity.
  - destruct (liveCommits svc repo None); reflexivity.
  - destruct (liveCommits svc repo None); reflexivity.
  - destruct (liveCommits svc repo None); reflexivity.
Qed.

(** What does hold of a change notification: it sets the refresh flag at
    once, and the cache stays masked for a root as long as no bulk reload
    for that root, the one it scheduled or an earlier one still in
    flight, has run to its end. *)
Lemma change_masks_until_a_reload (svc0 : GitService) (rt : @Runtime GitLogEntry)
    (w : FileSystemWatcher) (h : list (GitService * Event)) (rootPath : string) :
  reachable rt -> _fsWatcher (loader rt) = Some w ->
  let rt1 := fst (step svc0 EvFsChange rt) in
  _updating (loader rt1) = true /\
  (noReloadDone rootPath (snd (run h rt1)) = true ->
   forall svc q, targets q rootPath ->
     exec svc (queryProg q) (fst (run h rt1))
     = (fst (run h rt1), liveAnswer svc q, liveCallOf q)).
Proof.
  intros Hreach Hw rt1.
  pose proof (step_tame svc0 EvFsChange rt (reachable_tame rt Hreach)) as Htame.
  fold rt1 in Htame. subst rt1. simpl in *. rewrite Hw in *. unfold launch in *.
  destruct (updateCaches_runs (watchedRepo w) rt) as (rt' & Hrun & _ & _ & Hu).
  rewrite Hrun in *. simpl in *. split; [exact Hu |].
  intros Hno svc q Hq. apply gate_bypass with (rootPath := rootPath); [| exact Hq].
  apply run_masked; [exact Htame | now apply updating_masked | exact Hno].
Qed.

(** What does hold of a switching [updateRepo]: it returns with the new
    repository active, the cache cleared and the refresh flag already
    set, and the cache stays masked for the new root as long as no bulk
    reload for that root, the one it scheduled or one left over from an
    earlier attachment of the same root, has run to its end. *)
Lemma attach_masks_until_a_reload (svc0 : GitService) (rt : @Runtime GitLogEntry)
    (repo : GitRepo) (h : list (GitService * Event))
    (Hreach : reachable rt)
    (Hswitch : strictEq (root repo) (repoRoot (loader rt)) = false) :
  let rt1 := fst (step svc0 (EvUpdateRepo repo) rt) in
  _repo (loader rt1) = Some repo /\
  _updating (loader rt1) = true /\
  _cache (loader rt1) = clear (_cache (loader rt)) /\
  (noReloadDone (root repo) (snd (run h rt1)) = true ->
   forall svc q, targets q (root repo) ->
     exec svc (queryProg q) (fst (run h rt1))
     = (fst (run h rt1), liveAnswer svc q, liveCallOf q)).
Proof.
  intros rt1.
  pose proof (step_tame svc0 (EvUpdateRepo repo) rt (reachable_tame rt Hreach)) as Htame.
  fold rt1 in Htame. subst rt1. simpl in *. unfold launch in *.
  destruct (updateRepo_switch repo rt Hswitch) as (rt' & Hrun & _ & Hr & Hu & Hc).
  rewrite Hrun in *. simpl in *. repeat split; try assumption.
  intros Hno svc q Hq. apply gate_bypass with (rootPath := root repo); [| exact Hq].
  apply run_masked; [exact Htame | now apply updating_masked | exact Hno].
Qed.

End Masking.

(* ================================================================= *)
(** ** The bounded stores *)

Section LruFacts.

Context {V : Type}.

Lemma remove_keys_incl (k : string) (l : list (string * V)) (x : string) :
  In x (map fst (Lru.remove k l)) -> In x (map fst l) /\ x <> k.
Proof.
  induction l as [| [k' v] l IH]; simpl; [tauto |].
  destruct (String.eqb_spec k' k) as [-> | Hne]; simpl.
  - intros H. destruct (IH H). auto.
  - intros [<- | H]; [auto |]. destruct (IH H). auto.
Qed.

Lemma remove_keys_NoDup (k : string) (l : list (string * V)) :
  NoDup (map fst l) -> NoDup (map fst (Lru.remove k l)).
Proof.
  induction l as [| [k' v] l IH]; simpl; intros H; [constructor |].
  inversion H as [| ? ? Hin Hnd]; subst.
  destruct (String.eqb k' k); simpl; [auto |].
  constructor; [| auto]. intros Hc. apply remove_keys_incl in Hc. tauto.
Qed.

Lemma remove_length (k : string) (l : list (string * V)) :
  (List.length (Lru.remove k l) <= List.length l)%nat.
Proof.
  induction l as [| [k' v] l IH]; simpl; [lia |].
  destruct (String.eqb k' k); simpl; lia.
Qed.

Lemma remove_length_found (k : string) (l : list (string * V)) (v : V) :
  Lru.find k l = Some v -> (S (List.length (Lru.remove k l)) <= List.length l)%nat.
Proof.
  induction l as [| [k' v'] l IH]; simpl; [discriminate |].
  destruct (String.eqb k' k); simpl.
  - intros _. pose proof (remove_length k l). lia.
  - intros H. specialize (IH H). lia.
Qed.

Lemma find_remove_other (k k' : string) (l : list (string * V)) :
  k' <> k -> Lru.find k' (Lru.remove k l) = Lru.find k' l.
Proof.
  intros Hne. induction l as [| [k0 v] l IH]; simpl; [reflexivity |].
  destruct (String.eqb_spec k0 k) as [-> | H0]; simpl.
  - destruct (String.eqb_spec k k'); [congruence | exact IH].
  - destruct (String.eqb k0 k'); [reflexivity | exact IH].
Qed.

(** Promoting a key changes no lookup. *)
Lemma find_after_get (k k' : string) (m : Lru.t V) :
  Lru.find k' (Lru.items (snd (Lru.get k m))) = Lru.find k' (Lru.items m).
Proof.
  unfold Lru.get. destruct (Lru.find k (Lru.items m)) as [v |] eqn:E; simpl;
    [| reflexivity].
  destruct (String.eqb_spec k k') as [<- | Hne]; [now rewrite E |].
  apply find_remove_other. congruence.
Qed.

Lemma get_value (k : string) (m : Lru.t V) :
  fst (Lru.get k m) = Lru.find k (Lru.items m).
Proof.
  unfold Lru.get. destruct (Lru.find k (Lru.items m)); reflexivity.
Qed.

Lemma firstn_map_fst (n : nat) (l : list (string * V)) :
  map fst (firstn n l) = firstn n (map fst l).
Proof.
  revert l. induction n as [| n IH]; intros [| x l]; simpl; try reflexivity.
  now rewrite IH.
Qed.

Lemma firstn_incl {X} (n : nat) (l : list X) (x : X) :
  In x (firstn n l) -> In x l.
Proof.
  revert l. induction n as [| n IH]; intros [| y l] H; simpl in *;
    try contradiction.
  destruct H as [-> | H]; [now left | right; now apply IH].
Qed.

Lemma firstn_NoDup {X} (n : nat) (l : list X) : NoDup l -> NoDup (firstn n l).
Proof.
  revert l. induction n as [| n IH]; intros [| x l] H; simpl; try constructor.
  - inversion H; subst. intros Hc. apply firstn_incl in Hc. contradiction.
  - inversion H; subst. now apply IH.
Qed.

Lemma bounded_set (cap : nat) (k : string) (v : V) (m : Lru.t V) :
  boundedLru cap m -> boundedLru cap (Lru.set k v m).
Proof.
  unfold boundedLru, keysOf, Lru.set. intros (Hmax & Hlen & Hnd). simpl.
  split; [exact Hmax |]. split.
  - rewrite Hmax. apply firstn_le_length.
  - rewrite firstn_map_fst. apply firstn_NoDup. simpl. constructor.
    + intros Hc. apply remove_keys_incl in Hc. tauto.
    + now apply remove_keys_NoDup.
Qed.

Lemma bounded_get (cap : nat) (k : string) (m : Lru.t V) :
  boundedLru cap m -> boundedLru cap (snd (Lru.get k m)).
Proof.
  unfold boundedLru, keysOf, Lru.get. intros (Hmax & Hlen & Hnd).
  destruct (Lru.find k (Lru.items m)) as [v |] eqn:E; simpl; [| auto].
  split; [exact Hmax |]. split.
  - pose proof (remove_length_found k (Lru.items m) v E). lia.
  - constructor.
    + intros Hc. apply remove_keys_incl in Hc. tauto.
    + now apply remove_keys_NoDup.
Qed.

Lemma bounded_clear (cap : nat) (m : Lru.t V) :
  boundedLru cap m -> boundedLru cap (Lru.clear m).
Proof.
  unfold boundedLru, keysOf, Lru.clear. intros (Hmax & _ & _). simpl.
  repeat split; [exact Hmax | lia | constructor].
Qed.

(** What was just stored is found, in a store that can hold anything. *)
Lemma find_after_set (k : string) (v : V) (m : Lru.t V) :
  (0 < Lru.max m)%nat -> Lru.find k (Lru.items (Lru.set k v m)) = Some v.
Proof.
  unfold Lru.set. simpl. destruct (Lru.max m); [lia |].
  intros _. simpl. now rewrite String.eqb_refl.
Qed.

End LruFacts.

(* ================================================================= *)
(** ** Well-formed states *)

Section WellFormedness.

Context {GitLogEntry : Type}.

Lemma dropTimer_In (id id' : nat) (t : TimerTask) (l : list (nat * TimerTask)) :
  In (id', t) (dropTimer id l) <-> In (id', t) l /\ id' <> id.
Proof.
  unfold dropTimer. rewrite filter_In. simpl.
  destruct (Nat.eqb_spec id' id); simpl; intuition congruence.
Qed.

Lemma cancel_In (h : option nat) (id : nat) (t : TimerTask) (l : list (nat * TimerTask)) :
  In (id, t) (cancel h l) -> In (id, t) l /\ h <> Some id.
Proof.
  destruct h as [id0 |]; simpl.
  - rewrite dropTimer_In. intros [H Hne]. split; [exact H | congruence].
  - intros H. split; [exact H | discriminate].
Qed.

Lemma dropTimer_ids (id : nat) (l : list (nat * TimerTask)) :
  NoDup (map fst l) -> NoDup (map fst (dropTimer id l)).
Proof.
  induction l as [| [id' t] l IH]; simpl; intros H; [constructor |].
  inversion H as [| ? ? Hin Hnd]; subst.
  destruct (Nat.eqb id' id); simpl; [auto |].
  constructor; [| auto]. intros Hc. apply Hin.
  apply in_map_iff in Hc as ([id1 t1] & E & Hc). simpl in E. subst id1.
  apply dropTimer_In in Hc as [Hc _].
  apply in_map_iff. exists (id', t1). auto.
Qed.

Lemma cancel_ids (h : option nat) (l : list (nat * TimerTask)) :
  NoDup (map fst l) -> NoDup (map fst (cancel h l)).
Proof.
  destruct h; simpl; [apply dropTimer_ids | auto].
Qed.

Lemma ids_extended (n : nat) (t : TimerTask) (l : list (nat * TimerTask)) :
  (forall id t', In (id, t') l -> (id < n)%nat) ->
  NoDup (map fst l) -> NoDup (map fst (l ++ [(n, t)])).
Proof.
  intros Hfresh Hnd. rewrite map_app. simpl.
  apply NoDup_app; [exact Hnd | repeat constructor; intros [] |].
  intros id Hin [<- | []].
  apply in_map_iff in Hin as ([id' t'] & E & Hin). simpl in E. subst id'.
  specialize (Hfresh _ _ Hin). lia.
Qed.

Lemma wf_boot : WellFormed (@boot GitLogEntry).
Proof.
  constructor; simpl; intros;
    try contradiction; try discriminate;
    repeat split; simpl; try lia; try constructor.
Qed.

Lemma wf_setTasks (l : list Task) (rt : @Runtime GitLogEntry) :
  WellFormed rt -> WellFormed (setTasks l rt).
Proof.
  intros [H1 H2 H3 H4 H5 H6 H7 H8]. constructor; assumption.
Qed.

Lemma wf_fired (id : nat) (rt : @Runtime GitLogEntry) :
  WellFormed rt -> WellFormed (setTimers (dropTimer id (timers rt)) rt).
Proof.
  intros [H1 H2 H3 H4 H5 H6 H7 H8]. constructor; simpl; try assumption.
  - intros id' t Hin. apply dropTimer_In in Hin as [Hin _]. eauto.
  - now apply dropTimer_ids.
  - intros id' repo Hin. apply dropTimer_In in Hin as [Hin _]. eauto.
  - intros id' Hd. destruct (H7 id' Hd) as [Hlt Hk]. split; [exact Hlt |].
    intros t Hin. apply dropTimer_In in Hin as [Hin _]. eauto.
Qed.

(** Scheduling a reload from a well-formed state for the repository that
    is active afterwards. *)
Lemma wf_armed (repo : GitRepo) (rt : @Runtime GitLogEntry) :
  boundedLru 5 (logEntries (_cache (loader rt))) ->
  boundedLru 100 (counts (_cache (loader rt))) ->
  _fsWatcher (loader rt) = Some {| watchedRepo := repo |} ->
  _repo (loader rt) = Some repo ->
  (forall id t, In (id, t) (timers rt) -> (id < nextTimer rt)%nat) ->
  NoDup (map fst (timers rt)) ->
  (forall id r, In (id, ReloadCaches r) (timers rt) ->
                _updateDelay (loader rt) = Some id) ->
  (forall id, _updateDelay (loader rt) = Some id -> (id < nextTimer rt)%nat) ->
  WellFormed (armed repo rt).
Proof.
  intros Hl Hc Hw Hr Hfresh Hnd Hrel Hh. unfold armed.
  constructor; simpl; try assumption.
  - rewrite Hw, Hr. reflexivity.
  - intros id t Hin. apply in_app_or in Hin as [Hin | [E | []]].
    + apply cancel_In in Hin as [Hin _]. specialize (Hfresh _ _ Hin). lia.
    + injection E as <- _. lia.
  - apply ids_extended.
    + intros id t Hin. apply cancel_In in Hin as [Hin _]. eauto.
    + now apply cancel_ids.
  - intros id r Hin. apply in_app_or in Hin as [Hin | [E | []]].
    + apply cancel_In in Hin as [Hin Hne]. specialize (Hrel _ _ Hin). contradiction.
    + injection E as <- <-. auto.
  - intros id E. injection E as <-. split; [lia |].
    intros t Hin. apply in_app_or in Hin as [Hin | [E | []]].
    + apply cancel_In in Hin as [Hin _]. specialize (Hfresh _ _ Hin). lia.
    + injection E as <-. reflexivity.
  - rewrite Hr. discriminate.
Qed.

(** [_updateCaches] and a switching [updateRepo], run out. *)
Lemma updateCaches_result (repo : GitRepo) (rt : @Runtime GitLogEntry) :
  runSync (void (_updateCaches repo)) rt = (armed repo rt, Finished VVoid).
Proof.
  destruct rt as [[c w r u [id |]] ts tk n]; reflexivity.
Qed.

Lemma cancel_twice (h : option nat) (l : list (nat * TimerTask)) :
  cancel h (cancel h l) = cancel h l.
Proof.
  destruct h as [id |]; simpl; [| reflexivity].
  unfold dropTimer. induction l as [| [id' t] l IH]; simpl; [reflexivity |].
  destruct (Nat.eqb id' id) eqn:E; simpl; [exact IH |]. rewrite E. simpl. now rewrite IH.
Qed.

Lemma updateRepo_result (repo : GitRepo) (rt : @Runtime GitLogEntry) :
  strictEq (root repo) (repoRoot (loader rt)) = false ->
  runSync (void (updateRepo repo)) rt
  = (armed repo (setLoader (attached repo (loader rt)) rt), Finished VVoid).
Proof.
  destruct rt as [[c w r u h] ts tk n]. simpl. intros ->. simpl.
  unfold armed. simpl. destruct h as [id |]; simpl.
  - pose proof (cancel_twice (Some id) ts) as E. simpl in E. rewrite E. reflexivity.
  - reflexivity.
Qed.

Lemma wf_updateCaches (rt : @Runtime GitLogEntry) (w : FileSystemWatcher) :
  WellFormed rt -> _fsWatcher (loader rt) = Some w ->
  WellFormed (armed (watchedRepo w) rt).
Proof.
  intros [H1 H2 H3 H4 H5 H6 H7 H8] Hw.
  rewrite Hw in H3. destruct (_repo (loader rt)) as [r |] eqn:Er; simpl in H3;
    [| discriminate].
  injection H3 as ->. simpl.
  apply wf_armed; try assumption.
  - intros id r' Hin. apply (H6 _ _ Hin).
  - intros id Hd. apply (H7 _ Hd).
Qed.

Lemma wf_updateRepo (repo : GitRepo) (rt : @Runtime GitLogEntry) :
  WellFormed rt ->
  WellFormed (armed repo (setLoader (attached repo (loader rt)) rt)).
Proof.
  intros [H1 H2 H3 H4 H5 H6 H7 H8].
  apply wf_armed; simpl; try assumption; try reflexivity.
  - now apply bounded_clear.
  - now apply bounded_clear.
  - intros id r' Hin. apply (H6 _ _ Hin).
  - intros id Hd. apply (H7 _ Hd).
Qed.

End WellFormedness.

Section Gentleness.

Context {GitLogEntry : Type}.

Lemma gentle_bind (P : @Runtime GitLogEntry -> Prop) {A B} (p : Prog A) (f : A -> Prog B) :
  gentle P p -> (forall a, gentle P (f a)) -> gentle P (bind p f).
Proof.
  intros Hp Hf. induction p as [a | e | R c k IH | X op k IH]; simpl in *; auto.
  destruct Hp as [Hop Hk]. split; auto.
Qed.

Lemma gentle_sound (P : @Runtime GitLogEntry -> Prop) {A} (p : Prog A) (rt : Runtime) :
  gentle P p -> P rt ->
  P (fst (runSync p rt)) /\
  match snd (runSync p rt) with
  | Blocked _ k => forall v, gentle P (k v)
  | _ => True
  end.
Proof.
  revert rt. induction p as [a | e | R c k IH | X op k IH]; intros rt Hp HP; simpl in *;
    auto.
  destruct Hp as [Hop Hk]. specialize (Hop rt HP).
  destruct (doOp op rt) as [b rt']. simpl in Hop. now apply IH.
Qed.

(** The operations of the tasks that can be suspended. *)
Lemma keeps_read {B} (f : @Dataloader GitLogEntry -> B) :
  opKeeps WellFormed (Access (fun d => (f d, d))).
Proof.
  intros rt [H1 H2 H3 H4 H5 H6 H7 H8]. constructor; assumption.
Qed.

Lemma wf_cache (c' : Cache) (rt : @Runtime GitLogEntry) :
  WellFormed rt ->
  boundedLru 5 (logEntries c') -> boundedLru 100 (counts c') ->
  WellFormed (setLoader (withCache (fun _ => c') (loader rt)) rt).
Proof.
  intros [H1 H2 H3 H4 H5 H6 H7 H8] Hl Hc. constructor; assumption.
Qed.

Lemma keeps_logEntriesGet (key : string) :
  opKeeps (@WellFormed GitLogEntry) (Access (fun d =>
    let (v, m) := Lru.get key (logEntries (_cache d)) in
    (v, withCache (setLogEntries m) d))).
Proof.
  intros rt Hwf. simpl.
  pose proof (bounded_get 5 key _ (wf_logs rt Hwf)) as Hb.
  destruct (Lru.get key (logEntries (_cache (loader rt)))) as [v m]. simpl in *.
  apply (wf_cache (setLogEntries m (_cache (loader rt))) rt Hwf); simpl;
    [exact Hb | apply (wf_counts rt Hwf)].
Qed.

Lemma keeps_countsGet (key : string) :
  opKeeps (@WellFormed GitLogEntry) (Access (fun d =>
    let (v, m) := Lru.get key (counts (_cache d)) in
    (v, withCache (setCounts m) d))).
Proof.
  intros rt Hwf. simpl.
  pose proof (bounded_get 100 key _ (wf_counts rt Hwf)) as Hb.
  destruct (Lru.get key (counts (_cache (loader rt)))) as [v m]. simpl in *.
  apply (wf_cache (setCounts m (_cache (loader rt))) rt Hwf); simpl;
    [apply (wf_logs rt Hwf) | exact Hb].
Qed.

Lemma keeps_cacheWrite (g : @Cache GitLogEntry -> Cache) :
  (forall c, boundedLru 5 (logEntries c) -> boundedLru 5 (logEntries (g c))) ->
  (forall c, boundedLru 100 (counts c) -> boundedLru 100 (counts (g c))) ->
  opKeeps WellFormed (Access (fun d => (tt, withCache g d))).
Proof.
  intros Hl Hc rt Hwf. simpl.
  apply (wf_cache (g (_cache (loader rt))) rt Hwf);
    [apply Hl, (wf_logs rt Hwf) | apply Hc, (wf_counts rt Hwf)].
Qed.

Lemma keeps_clearFlag :
  opKeeps (@WellFormed GitLogEntry) (Access (fun d => (tt, setUpdating false d))).
Proof.
  intros rt [H1 H2 H3 H4 H5 H6 H7 H8]. constructor; simpl; try assumption.
  intros Hn. destruct (H8 Hn). auto.
Qed.

Lemma keeps_warmTimer (repo : GitRepo) (express : bool) (branch : string)
    (isStash : option bool) (file : option Uri) (line : option Z)
    (author : option string) (key : string) (ms : Z) :
  opKeeps (@WellFormed GitLogEntry)
    (SetTimeout (WarmLogEntries repo express branch isStash file line author key) ms).
Proof.
  intros rt [H1 H2 H3 H4 H5 H6 H7 H8]. constructor; simpl; try assumption.
  - intros id t Hin. apply in_app_or in Hin as [Hin | [E | []]].
    + specialize (H4 _ _ Hin). lia.
    + injection E as <- _. lia.
  - now apply ids_extended.
  - intros id r Hin. apply in_app_or in Hin as [Hin | [E | []]]; [eauto | discriminate].
  - intros id Hd. destruct (H7 id Hd) as [Hlt Hk]. split; [lia |].
    intros t Hin. apply in_app_or in Hin as [Hin | [E | []]]; [eauto |].
    injection E as <- _. lia.
Qed.

Ltac gentle_step :=
  match goal with
  | |- True => exact I
  | |- _ /\ _ => split
  | |- opKeeps _ (Access (fun d => (@?f d, d))) => apply (keeps_read f)
  | |- opKeeps _ (Access (fun d => let (_, _) := Lru.get _ (logEntries _) in _)) =>
      apply keeps_logEntriesGet
  | |- opKeeps _ (Access (fun d => let (_, _) := Lru.get _ (counts _) in _)) =>
      apply keeps_countsGet
  | |- opKeeps _ (Access (fun d => (tt, setUpdating false d))) => apply keeps_clearFlag
  | |- opKeeps _ (Access (fun d => (tt, withCache _ d))) =>
      apply keeps_cacheWrite; simpl; intros; auto using bounded_set
  | |- opKeeps _ (SetTimeout (WarmLogEntries _ _ _ _ _ _ _ _) _) => apply keeps_warmTimer
  | |- forall _, _ => intro
  | |- context [if ?c then _ else _] => destruct c
  | |- context [match ?x with Some _ => _ | None => _ end] => destruct x
  | |- context [let '(_, _) := ?x in _] => destruct x
  end.

Ltac gentle_crush := repeat (simpl; gentle_step).

Lemma gentle_query (q : Query) : gentle (@WellFormed GitLogEntry) (queryProg q).
Proof.
  destruct q as [repo express start count branch isStash file line author
                | repo branch author | [repo |] | [repo |] ref | [repo |] ref
                | [repo |] ref];
    unfold queryProg, getLogEntries, getCommitsCount, getCurrentBranch, getNextCommit,
      getPreviousCommit, hasNeighborCommits, cachedOrLiveCommits;
    gentle_crush.
Qed.

Lemma gentle_timer (t : TimerTask) : gentle (@WellFormed GitLogEntry) (void (timerBody t)).
Proof.
  destruct t as [repo | repo express branch isStash file line author key];
    unfold void, timerBody, applyReload; gentle_crush.
Qed.

Lemma launch_wellRun (o : Origin) (p : Prog Value) (rt : @Runtime GitLogEntry) :
  gentle WellFormed p -> wellRun rt -> wellRun (fst (launch o p rt)).
Proof.
  unfold wellRun, launch. intros Hp [Hwf Hts].
  destruct (gentle_sound WellFormed p rt Hp Hwf) as [H1 H2].
  pose proof (runSync_tasks p rt) as Ht.
  destruct (runSync p rt) as [rt' [v | e | R c k]]; simpl in *.
  - split; [exact H1 | now rewrite Ht].
  - split; [exact H1 | now rewrite Ht].
  - split; [now apply wf_setTasks |].
    rewrite Ht. apply Forall_app. split; [exact Hts |].
    constructor; [exact H2 | constructor].
Qed.

Lemma step_wellRun (svc : GitService) (ev : Event) (rt : @Runtime GitLogEntry) :
  wellRun rt -> wellRun (fst (step svc ev rt)).
Proof.
  intros [Hwf Hts]. destruct ev as [repo | | id | n | q]; simpl.
  - unfold launch. destruct (strictEq (root repo) (repoRoot (loader rt))) eqn:E.
    + rewrite updateRepo_same by exact E. simpl. split; assumption.
    + rewrite updateRepo_result by exact E. simpl.
      split; [now apply wf_updateRepo | exact Hts].
  - destruct (_fsWatcher (loader rt)) as [w |] eqn:Ew; [| split; assumption].
    unfold launch. rewrite updateCaches_result. simpl.
    split; [now apply wf_updateCaches | exact Hts].
  - destruct (findTimer id (timers rt)) as [t |]; [| split; assumption].
    apply launch_wellRun; [apply gentle_timer |].
    split; [now apply wf_fired | exact Hts].
  - destruct (nth_error (tasks rt) n) as [t |] eqn:Et; [| split; assumption].
    assert (Hrest : wellRun (setTasks (dropNth n (tasks rt)) rt)).
    { split; [now apply wf_setTasks | now apply dropNth_Forall]. }
    destruct (perform svc (awaited t)) as [v | e]; [| exact Hrest].
    apply launch_wellRun; [| exact Hrest].
    apply nth_error_In in Et. rewrite Forall_forall in Hts. apply (Hts t Et).
  - apply launch_wellRun; [apply gentle_query | split; assumption].
Qed.

Lemma run_wellRun (h : list (GitService * Event)) (rt : @Runtime GitLogEntry) :
  wellRun rt -> wellRun (fst (run h rt)).
Proof.
  revert rt. induction h as [| [svc ev] h IH]; intros rt Hrt; simpl; [exact Hrt |].
  pose proof (step_wellRun svc ev rt Hrt) as H1.
  destruct (step svc ev rt) as [rt1 o1]. simpl in H1.
  specialize (IH rt1 H1). destruct (run h rt1) as [rt2 o2]. exact IH.
Qed.

Lemma reachable_wellRun (rt : @Runtime GitLogEntry) : reachable rt -> wellRun rt.
Proof.
  intros [h <-]. apply run_wellRun. split; [apply wf_boot | constructor].
Qed.

Lemma reachable_run (h : list (GitService * Event)) (rt : @Runtime GitLogEntry) :
  reachable rt -> reachable (fst (run h rt)).
Proof.
  intros [h0 <-]. exists (h0 ++ h).
  revert h. generalize (@boot GitLogEntry).
  induction h0 as [| [svc ev] h0 IH]; intros rt0 h; simpl; [reflexivity |].
  destruct (step svc ev rt0) as [rt1 o1].
  specialize (IH rt1 h).
  destruct (run (h0 ++ h) rt1) as [rt2 o2]. destruct (run h0 rt1) as [rt3 o3].
  simpl in *. exact IH.
Qed.

End Gentleness.

(* ================================================================= *)
(** ** Timers and watcher in the states the loader reaches *)

Section TimerDiscipline.

Context {GitLogEntry : Type}.

Lemma filter_none {X} (f : X -> bool) (l : list X) :
  (forall x, In x l -> f x = false) -> filter f l = [].
Proof.
  induction l as [| x l IH]; simpl; intros H; [reflexivity |].
  rewrite (H x (or_introl eq_refl)). apply IH. intros y Hy. apply H. now right.
Qed.

Lemma filter_ids {X} (f : nat * X -> bool) (l : list (nat * X)) :
  NoDup (map fst l) -> NoDup (map fst (filter f l)).
Proof.
  induction l as [| x l IH]; simpl; intros H; [constructor |].
  inversion H as [| ? ? Hin Hnd]; subst.
  destruct (f x); simpl; [| auto].
  constructor; [| auto]. intros Hc. apply Hin.
  apply in_map_iff in Hc as (y & E & Hy). apply filter_In in Hy as [Hy _].
  apply in_map_iff. exists y. auto.
Qed.

Lemma same_id_once {X} (a : nat) (l : list (nat * X)) :
  NoDup (map fst l) -> (forall x, In x l -> fst x = a) -> (List.length l <= 1)%nat.
Proof.
  destruct l as [| x [| y l]]; simpl; intros Hnd Hall; try lia.
  exfalso. inversion Hnd as [| ? ? Hin _]; subst. apply Hin. left.
  rewrite (Hall x), (Hall y); auto.
Qed.

Lemma reload_entry (t : nat * TimerTask) :
  isReloadTimer t = true -> exists repo, t = (fst t, ReloadCaches repo).
Proof.
  destruct t as [id [repo | ? ? ? ? ? ? ? ?]]; simpl; [eauto | discriminate].
Qed.

Lemma cancel_leaves_no_reload (h : option nat) (l : list (nat * TimerTask)) :
  (forall id repo, In (id, ReloadCaches repo) l -> h = Some id) ->
  filter isReloadTimer (cancel h l) = [].
Proof.
  intros H. apply filter_none. intros [id t] Hin.
  destruct (isReloadTimer (id, t)) eqn:E; [| reflexivity].
  apply reload_entry in E as [repo E]. simpl in E. injection E as ->.
  apply cancel_In in Hin as [Hin Hne]. specialize (H _ _ Hin). contradiction.
Qed.

Lemma cancel_keeps_warm (h : option nat) (l : list (nat * TimerTask)) :
  (forall id, h = Some id -> forall t, In (id, t) l -> isReloadTimer (id, t) = true) ->
  filter (fun t => negb (isReloadTimer t)) (cancel h l)
  = filter (fun t => negb (isReloadTimer t)) l.
Proof.
  destruct h as [id |]; simpl; [| reflexivity].
  intros H. specialize (H id eq_refl). unfold dropTimer.
  induction l as [| [id' t] l IH]; simpl; [reflexivity |].
  assert (IH' := IH (fun t0 H0 => H t0 (or_intror H0))).
  destruct (Nat.eqb_spec id' id) as [-> | Hne]; simpl.
  - rewrite (H t (or_introl eq_refl)). simpl. exact IH'.
  - destruct (isReloadTimer (id', t)); simpl; now rewrite IH'.
Qed.

(** Scheduling a reload from a well-formed state: one reload timer, the
    new one; the warming timers as before. *)
Lemma armed_timers (repo : GitRepo) (rt : @Runtime GitLogEntry) :
  (forall id r, In (id, ReloadCaches r) (timers rt) ->
                _updateDelay (loader rt) = Some id) ->
  (forall id, _updateDelay (loader rt) = Some id ->
              forall t, In (id, t) (timers rt) -> isReloadTimer (id, t) = true) ->
  reloadTimers (armed repo rt) = [(nextTimer rt, ReloadCaches repo)] /\
  warmTimers (armed repo rt) = warmTimers rt.
Proof.
  intros Hrel Hh. unfold reloadTimers, warmTimers, armed. simpl.
  rewrite !filter_app. simpl.
  rewrite cancel_leaves_no_reload by exact Hrel.
  rewrite cancel_keeps_warm by exact Hh.
  split; [reflexivity | apply app_nil_r].
Qed.

(** X1: in every state the loader reaches, at most one bulk-reload timer
    is armed; its handle is the one kept in [_updateDelay] and it reloads
    the active repository. *)
Theorem X1_one_reload_timer (rt : @Runtime GitLogEntry) (Hreach : reachable rt) :
  (List.length (reloadTimers rt) <= 1)%nat /\
  forall id repo, In (id, ReloadCaches repo) (timers rt) ->
    _updateDelay (loader rt) = Some id /\ _repo (loader rt) = Some repo.
Proof.
  destruct (reachable_wellRun rt Hreach) as [[H1 H2 H3 H4 H5 H6 H7 H8] _].
  split; [| exact H6].
  destruct (_updateDelay (loader rt)) as [h |] eqn:Eh.
  - apply same_id_once with (a := h).
    + now apply filter_ids.
    + intros x Hx. apply filter_In in Hx as [Hin Hre].
      apply reload_entry in Hre as [repo E]. rewrite E in Hin.
      destruct (H6 _ _ Hin) as [Hd _]. congruence.
  - unfold reloadTimers. rewrite filter_none; [simpl; lia |].
    intros [id t] Hin. destruct (isReloadTimer (id, t)) eqn:E; [| reflexivity].
    apply reload_entry in E as [repo E]. simpl in E. injection E as ->.
    destruct (H6 _ _ Hin). congruence.
Qed.

Lemma fsChange_step (svc : GitService) (rt : @Runtime GitLogEntry)
    (w : FileSystemWatcher) :
  _fsWatcher (loader rt) = Some w ->
  step svc EvFsChange rt = (armed (watchedRepo w) rt, [Settled ByWatcher (Ok VVoid)]).
Proof.
  intros Hw. simpl. rewrite Hw. unfold launch. now rewrite updateCaches_result.
Qed.

Lemma run_step_state (svc : GitService) (ev : Event) (h : list (GitService * Event))
    (rt : @Runtime GitLogEntry) :
  fst (run ((svc, ev) :: h) rt) = fst (run h (fst (step svc ev rt))).
Proof.
  simpl. destruct (step svc ev rt) as [rt1 o1]. simpl.
  destruct (run h rt1) as [rt2 o2]. reflexivity.
Qed.

Lemma burst (svcs : list GitService) :
  forall (svc : GitService) (rt : @Runtime GitLogEntry) (w : FileSystemWatcher),
    WellFormed rt -> _fsWatcher (loader rt) = Some w ->
    let rt' := fst (run (map (fun s => (s, EvFsChange)) (svc :: svcs)) rt) in
    reloadTimers rt' = [(pred (nextTimer rt'), ReloadCaches (watchedRepo w))] /\
    warmTimers rt' = warmTimers rt /\
    tasks rt' = tasks rt /\
    _cache (loader rt') = _cache (loader rt) /\
    _repo (loader rt') = _repo (loader rt) /\
    _updating (loader rt') = true.
Proof.
  induction svcs as [| svc' svcs IH]; intros svc rt w Hwf Hw; cbv zeta;
    change (map (fun s => (s, EvFsChange)) (svc :: ?l))
      with ((svc, EvFsChange) :: map (fun s => (s, EvFsChange)) l);
    rewrite run_step_state, (fsChange_step svc rt w Hw); cbn [fst];
    destruct (armed_timers (watchedRepo w) rt) as [Hr0 Hwarm0];
    try (intros id r Hin; apply (wf_reload rt Hwf _ _ Hin));
    try (intros id Hd; apply (wf_handle rt Hwf _ Hd)).
  - simpl. rewrite Hr0. auto 10.
  - specialize (IH svc' (armed (watchedRepo w) rt) w
                   (wf_updateCaches rt w Hwf Hw) Hw).
    cbv zeta in IH. destruct IH as (Hr & Hwarm & Ht & Hc & Hrepo & Hu).
    rewrite Hwarm0 in Hwarm. auto 10.
Qed.

(** X2: a burst of change notifications, however many, with no timer
    firing in between, leaves exactly one bulk-reload timer armed (the
    last one set, for the watched repository), cancels no warming fetch
    and no task in flight, sets the refresh flag and leaves the cache
    alone. *)
Theorem X2_burst_arms_one_reload (svc : GitService) (svcs : list GitService)
    (rt : @Runtime GitLogEntry) (w : FileSystemWatcher)
    (Hreach : reachable rt) (Hw : _fsWatcher (loader rt) = Some w) :
  let rt' := fst (run (map (fun s => (s, EvFsChange)) (svc :: svcs)) rt) in
  reloadTimers rt' = [(pred (nextTimer rt'), ReloadCaches (watchedRepo w))] /\
  warmTimers rt' = warmTimers rt /\
  tasks rt' = tasks rt /\
  _cache (loader rt') = _cache (loader rt) /\
  _repo (loader rt') = _repo (loader rt) /\
  _updating (loader rt') = true.
Proof.
  apply burst; [apply (reachable_wellRun rt Hreach) | exact Hw].
Qed.

(** X3: a call of [updateRepo] that switches the repository cancels the
    reload timer of the repository left behind and arms one for the new
    repository, which the new watcher watches; it cancels neither a
    scheduled warming fetch nor a task in flight. *)
Theorem X3_switch_rearms (svc : GitService) (rt : @Runtime GitLogEntry) (repo : GitRepo)
    (Hreach : reachable rt)
    (Hswitch : strictEq (root repo) (repoRoot (loader rt)) = false) :
  let rt' := fst (step svc (EvUpdateRepo repo) rt) in
  reloadTimers rt' = [(nextTimer rt, ReloadCaches repo)] /\
  _updateDelay (loader rt') = Some (nextTimer rt) /\
  _fsWatcher (loader rt') = Some {| watchedRepo := repo |} /\
  warmTimers rt' = warmTimers rt /\
  tasks rt' = tasks rt.
Proof.
  destruct (reachable_wellRun rt Hreach) as [Hwf _].
  cbv zeta. simpl. unfold launch. rewrite updateRepo_result by exact Hswitch. simpl.
  destruct (armed_timers repo (setLoader (attached repo (loader rt)) rt)) as [Hr Hwarm].
  - intros id r Hin. apply (wf_reload rt Hwf _ _ Hin).
  - intros id Hd. apply (wf_handle rt Hwf _ Hd).
  - rewrite Hr, Hwarm. auto.
Qed.

(** X4: in every state the loader reaches the live watcher is the one of
    the active repository; and as long as no repository has been attached
    nothing is watched, no reload is scheduled and the refresh flag is
    clear. *)
Theorem X4_watcher_follows_repository (rt : @Runtime GitLogEntry)
    (Hreach : reachable rt) :
  _fsWatcher (loader rt)
  = option_map (fun r => {| watchedRepo := r |}) (_repo (loader rt)) /\
  (_repo (loader rt) = None ->
   _updating (loader rt) = false /\ _updateDelay (loader rt) = None /\
   reloadTimers rt = []).
Proof.
  destruct (reachable_wellRun rt Hreach) as [[H1 H2 H3 H4 H5 H6 H7 H8] _].
  split; [exact H3 |]. intros Hn. destruct (H8 Hn) as [Hu Hd].
  repeat split; try assumption.
  apply filter_none. intros [id t] Hin.
  destruct (isReloadTimer (id, t)) eqn:E; [| reflexivity].
  apply reload_entry in E as [repo E]. simpl in E. injection E as ->.
  destruct (H6 _ _ Hin). congruence.
Qed.

(** X5: with the eviction of [lru-cache] as modelled, the log-entry store
    never holds more than 5 keys and the count store never more than 100,
    each key once, in every state the loader reaches. *)
Theorem X5_stores_stay_bounded (rt : @Runtime GitLogEntry) (Hreach : reachable rt) :
  (List.length (Lru.items (logEntries (_cache (loader rt)))) <= 5)%nat /\
  NoDup (keysOf (logEntries (_cache (loader rt)))) /\
  (List.length (Lru.items (counts (_cache (loader rt)))) <= 100)%nat /\
  NoDup (keysOf (counts (_cache (loader rt)))).
Proof.
  destruct (reachable_wellRun rt Hreach) as [[H1 H2 H3 H4 H5 H6 H7 H8] _].
  destruct H1 as (_ & Hl & Hn). destruct H2 as (_ & Hl' & Hn'). auto.
Qed.

End TimerDiscipline.

Lemma X1_one_reload_timer_witness :
  let rt := fst (run Sample.overlappingReloads boot) in
  (List.length (reloadTimers rt) <= 1)%nat /\
  forall id repo, In (id, ReloadCaches repo) (timers rt) ->
    _updateDelay (loader rt) = Some id /\ _repo (loader rt) = Some repo.
Proof.
  apply (@X1_one_reload_timer string (fst (run Sample.overlappingReloads boot))).
  exists Sample.overlappingReloads. reflexivity.
Defined.

Lemma X2_burst_arms_one_reload_witness :
  let rt := fst (run Scenario.loadedA boot) in
  let rt' := fst (run (map (fun s => (s, EvFsChange))
                           [Sample.git; Sample.gitOnDev; Sample.gitOnDev]) rt) in
  reloadTimers rt'
  = [(pred (nextTimer rt'),
      ReloadCaches (watchedRepo {| watchedRepo := Sample.repoA |}))] /\
  warmTimers rt' = warmTimers rt /\
  tasks rt' = tasks rt /\
  _cache (loader rt') = _cache (loader rt) /\
  _repo (loader rt') = _repo (loader rt) /\
  _updating (loader rt') = true.
Proof.
  apply (@X2_burst_arms_one_reload string Sample.git [Sample.gitOnDev; Sample.gitOnDev]
           (fst (run Scenario.loadedA boot)) {| watchedRepo := Sample.repoA |}).
  - exists Scenario.loadedA. reflexivity.
  - vm_compute. reflexivity.
Defined.

Lemma X3_switch_rearms_witness :
  let rt := fst (run Sample.overlappingReloads boot) in
  let rt' := fst (step Sample.git (EvUpdateRepo Sample.repoB) rt) in
  reloadTimers rt' = [(nextTimer rt, ReloadCaches Sample.repoB)] /\
  _updateDelay (loader rt') = Some (nextTimer rt) /\
  _fsWatcher (loader rt') = Some {| watchedRepo := Sample.repoB |} /\
  warmTimers rt' = warmTimers rt /\
  tasks rt' = tasks rt.
Proof.
  apply (@X3_switch_rearms string Sample.git
           (fst (run Sample.overlappingReloads boot)) Sample.repoB).
  - exists Sample.overlappingReloads. reflexivity.
  - vm_compute. reflexivity.
Defined.

Lemma X4_watcher_follows_repository_witness :
  let rt := fst (run Scenario.loadedAThenB boot) in
  _fsWatcher (loader rt)
  = option_map (fun r => {| watchedRepo := r |}) (_repo (loader rt)) /\
  (_repo (loader rt) = None ->
   _updating (loader rt) = false /\ _updateDelay (loader rt) = None /\
   reloadTimers rt = []).
Proof.
  apply (@X4_watcher_follows_repository string (fst (run Scenario.loadedAThenB boot))).
  exists Scenario.loadedAThenB. reflexivity.
Defined.

Lemma X5_stores_stay_bounded_witness :
  let rt := fst (run Sample.warmingAcrossSwitch boot) in
  (List.length (Lru.items (logEntries (_cache (loader rt)))) <= 5)%nat /\
  NoDup (keysOf (logEntries (_cache (loader rt)))) /\
  (List.length (Lru.items (counts (_cache (loader rt)))) <= 100)%nat /\
  NoDup (keysOf (counts (_cache (loader rt)))).
Proof.
  apply (@X5_stores_stay_bounded string (fst (run Sample.warmingAcrossSwitch boot))).
  exists Sample.warmingAcrossSwitch. reflexivity.
Defined.

(* ================================================================= *)
(** ** Switching and reading *)

Section SwitchAndRead.

Context {GitLogEntry : Type}.

(** X6: attaching the repository that was attached a moment ago changes
    nothing: two calls of [updateRepo] with the same repository in a row
    leave the loader, the timers and the tasks as one call does, whatever
    the state before. *)
Theorem X6_attach_twice_is_attach_once (svc svc' : GitService)
    (rt : @Runtime GitLogEntry) (repo : GitRepo) :
  fst (run [(svc, EvUpdateRepo repo); (svc', EvUpdateRepo repo)] rt)
  = fst (run [(svc, EvUpdateRepo repo)] rt).
Proof.
  rewrite !run_step_state.
  change (fst (run [] ?x)) with x.
  assert (E : strictEq (root repo)
                (repoRoot (loader (fst (step svc (EvUpdateRepo repo) rt)))) = true).
  { simpl. unfold launch.
    destruct (strictEq (root repo) (repoRoot (loader rt))) eqn:E.
    - rewrite updateRepo_same by exact E. exact E.
    - rewrite updateRepo_result by exact E. simpl. apply String.eqb_refl. }
  remember (fst (step svc (EvUpdateRepo repo) rt)) as rt1.
  simpl. unfold launch. now rewrite updateRepo_same.
Qed.

(** X7: [getCurrentBranch], [getNextCommit], [getPreviousCommit] and
    [hasNeighborCommits] never change the state, whether they answer from
    the cache or from the service: in particular a branch or a commit list
    read live is not kept. *)
Theorem X7_lookups_leave_state (svc : GitService) (rt : @Runtime GitLogEntry)
    (repo : option GitRepo) (ref : string) :
  stateAfter svc (getCurrentBranch repo) rt = rt /\
  stateAfter svc (getNextCommit repo ref) rt = rt /\
  stateAfter svc (getPreviousCommit repo ref) rt = rt /\
  stateAfter svc (hasNeighborCommits repo ref) rt = rt.
Proof.
  destruct rt as [d ts tk n]. unfold stateAfter.
  destruct repo as [repo |]; simpl; [| auto].
  destruct (_useCache d (root repo)); simpl; [auto |].
  destruct (liveCurrentBranch svc repo), (liveCommits svc repo None); simpl; auto.
Qed.

(** X8: a query that starts while the repository it asks about is not
    the active one (or before any repository is attached) is delegated
    and does not touch the loader.  Run with nothing in between, it makes
    exactly its live call, is answered by it and leaves the state as it
    was.  On the event loop, starting it changes nothing and leaves that
    one call pending; whenever the call settles, in whatever state, the
    settling only ends the query, and the caller gets what the service
    answers then. *)
Theorem X8_unmanaged_repository_goes_live (svc : GitService)
    (rt : @Runtime GitLogEntry) (q : Query) (repo : GitRepo)
    (Hq : queryRepo q = Some repo)
    (Hother : repoRoot (loader rt) <> Some (root repo)) :
  exec svc (queryProg q) rt = (rt, liveAnswer svc q, liveCallOf q) /\
  exists t : Task,
    step svc (EvQuery q) rt = (setTasks (tasks rt ++ [t]) rt, []) /\
    origin t = ByCaller q /\
    [anyCall (awaited t)] = liveCallOf q /\
    forall svc' rt' n, nth_error (tasks rt') n = Some t ->
      step svc' (EvSettle n) rt'
      = (setTasks (dropNth n (tasks rt')) rt',
         [Settled (ByCaller q) (liveAnswer svc' q)]).
Proof.
  assert (Hm : masked (root repo) rt).
  { unfold masked, _useCache.
    destruct (repoRoot (loader rt)) as [r |]; simpl; [| reflexivity].
    destruct (String.eqb_spec (root repo) r) as [E | _]; [| reflexivity].
    exfalso. apply Hother. now rewrite E. }
  assert (Ht : targets q (root repo)) by (unfold targets; now rewrite Hq).
  split.
  - now apply gate_bypass with (rootPath := root repo).
  - now apply gate_bypass_suspended with (rootPath := root repo).
Qed.

End SwitchAndRead.

Lemma X8_unmanaged_repository_goes_live_witness :
  let rt := fst (run Scenario.loadedA boot) in
  let q := Sample.bobsFirstPage Sample.repoB in
  exec Sample.git (queryProg q) rt = (rt, liveAnswer Sample.git q, liveCallOf q) /\
  exists t : Task,
    step Sample.git (EvQuery q) rt = (setTasks (tasks rt ++ [t]) rt, []) /\
    origin t = ByCaller q /\
    [anyCall (awaited t)] = liveCallOf q /\
    forall svc' rt' n, nth_error (tasks rt') n = Some t ->
      step svc' (EvSettle n) rt'
      = (setTasks (dropNth n (tasks rt')) rt',
         [Settled (ByCaller q) (liveAnswer svc' q)]).
Proof.
  apply (@X8_unmanaged_repository_goes_live string Sample.git (fst (run Scenario.loadedA boot))
           (Sample.bobsFirstPage Sample.repoB) Sample.repoB).
  - reflexivity.
  - vm_compute. discriminate.
Defined.

(* ================================================================= *)
(** ** Neighbours in any commit list *)

Section NeighboursInGeneral.

Context {GitLogEntry : Type}.
Variable svc : @GitService GitLogEntry.

Local Open Scope Z_scope.

Lemma indexOf_absent (l : list string) (x : string) :
  ~ In x l -> Js.indexOf l x = -1.
Proof.
  induction l as [| y l IH]; simpl; intros H; [reflexivity |].
  destruct (String.eqb_spec y x) as [-> | _]; [tauto |].
  rewrite IH by tauto. reflexivity.
Qed.

Lemma indexOf_first (l1 l2 : list string) (x : string) :
  ~ In x l1 -> Js.indexOf (l1 ++ x :: l2) x = Z.of_nat (List.length l1).
Proof.
  induction l1 as [| y l1 IH]; simpl List.length; simpl app; simpl Js.indexOf; intros H.
  - now rewrite String.eqb_refl.
  - destruct (String.eqb_spec y x) as [-> | _]; [simpl in H; tauto |].
    rewrite IH by (simpl in H; tauto).
    destruct (Z.of_nat (List.length l1) <? 0) eqn:E; [apply Z.ltb_lt in E; lia | lia].
Qed.

Lemma first_occurrence (l : list string) (x : string) :
  In x l -> exists l1 l2, l = l1 ++ x :: l2 /\ ~ In x l1.
Proof.
  induction l as [| y l IH]; simpl; [tauto |].
  destruct (String.eqb_spec y x) as [-> | Hne].
  - intros _. exists [], l. auto.
  - intros [E | H]; [contradiction |].
    destruct (IH H) as (l1 & l2 & -> & Hn). exists (y :: l1), l2.
    split; [reflexivity |]. simpl. tauto.
Qed.

Lemma at_middle {X} (l1 l2 : list X) (x : X) (i : Z) :
  i = Z.of_nat (List.length l1) -> Js.at_ (l1 ++ x :: l2) i = Some x.
Proof.
  intros ->. unfold Js.at_.
  destruct (Z.of_nat (List.length l1) <? 0) eqn:E; [apply Z.ltb_lt in E; lia |].
  rewrite Nat2Z.id. clear E. induction l1 as [| a l1 IH]; simpl; [reflexivity | exact IH].
Qed.

Lemma newerOf_at (l1 l2 : list string) (x : string) :
  ~ In x l1 -> newerOf (l1 ++ x :: l2) x = last l1 ""%string.
Proof.
  intros H. unfold newerOf. rewrite (indexOf_first l1 l2 x H).
  destruct l1 as [| y l1] using rev_ind; [reflexivity |].
  rewrite last_last, length_app. simpl List.length.
  destruct (Z.of_nat (List.length l1 + 1) >? 0) eqn:E;
    [| rewrite Z.gtb_ltb in E; apply Z.ltb_ge in E; lia].
  rewrite <- app_assoc. simpl.
  rewrite (at_middle l1 (x :: l2) y); [reflexivity | lia].
Qed.

Lemma olderOf_at (l1 l2 : list string) (x : string) :
  ~ In x l1 -> olderOf (l1 ++ x :: l2) x = hd ""%string l2.
Proof.
  intros H. unfold olderOf. rewrite (indexOf_first l1 l2 x H).
  unfold Js.length. rewrite length_app. simpl List.length.
  destruct (Z.of_nat (List.length l1) >=? 0) eqn:E;
    [| rewrite Z.geb_leb in E; apply Z.leb_gt in E; lia].
  destruct l2 as [| y l2]; simpl.
  - destruct (Z.ltb_spec (Z.of_nat (List.length l1) + 1)
                         (Z.of_nat (List.length l1 + 1))); [lia | reflexivity].
  - destruct (Z.ltb_spec (Z.of_nat (List.length l1) + 1)
                         (Z.of_nat (List.length l1 + S (S (List.length l2)))));
      [| lia].
    change (l1 ++ x :: y :: l2) with (l1 ++ [x] ++ y :: l2). rewrite app_assoc.
    rewrite (at_middle (l1 ++ [x]) l2 y); [reflexivity |].
    rewrite length_app. simpl. lia.
Qed.

Lemma neighboursOf_at (l1 l2 : list string) (x : string) :
  ~ In x l1 ->
  neighboursOf (l1 ++ x :: l2) x
  = (match l2 with [] => false | _ => true end,
     match l1 with [] => false | _ => true end).
Proof.
  intros H. unfold neighboursOf. rewrite (indexOf_first l1 l2 x H).
  unfold Js.length. rewrite length_app. simpl List.length. f_equal.
  - destruct (Z.of_nat (List.length l1) >=? 0) eqn:E;
      [| rewrite Z.geb_leb in E; apply Z.leb_gt in E; lia].
    destruct l2; simpl;
      match goal with |- (?a <? ?b) = _ => destruct (Z.ltb_spec a b) end;
      try reflexivity; lia.
  - destruct l1; simpl; [reflexivity |]. rewrite Z.gtb_ltb. apply Z.ltb_lt. lia.
Qed.

Lemma lookups_absent (l : list string) (x : string) :
  ~ In x l ->
  newerOf l x = ""%string /\ olderOf l x = ""%string /\
  neighboursOf l x = (false, false).
Proof.
  intros H. unfold newerOf, olderOf, neighboursOf. rewrite (indexOf_absent l x H).
  auto.
Qed.

(** The three lookups are the list functions applied to the commit list
    taken from the cache or from the service. *)
Lemma lookup_answers (rt : Runtime) (repo : GitRepo) (ref : string) :
  answer svc (getNextCommit (Some repo) ref) rt
  = mapRes (fun l => newerOf l ref) (answer svc (cachedOrLiveCommits repo) rt) /\
  answer svc (getPreviousCommit (Some repo) ref) rt
  = mapRes (fun l => olderOf l ref) (answer svc (cachedOrLiveCommits repo) rt) /\
  answer svc (hasNeighborCommits (Some repo) ref) rt
  = mapRes (fun l => neighboursOf l ref) (answer svc (cachedOrLiveCommits repo) rt).
Proof.
  unfold answer, getNextCommit, getPreviousCommit, hasNeighborCommits.
  rewrite !exec_bind.
  destruct (exec svc (cachedOrLiveCommits repo) rt) as [[rt1 [l | e]] calls]; simpl; auto.
Qed.

(** X9: for a commit that occurs in the list, the next commit is the entry
    just before its first occurrence and the previous commit the entry just
    after it, the empty string where there is none; [hasNeighborCommits]
    tells whether an entry follows and whether one precedes. *)
Theorem X9_neighbours_of_an_entry (rt : Runtime) (repo : GitRepo)
    (before after : list string) (ref : string)
    (Hlist : answer svc (cachedOrLiveCommits repo) rt = Ok (before ++ ref :: after))
    (Hfirst : ~ In ref before) :
  answer svc (getNextCommit (Some repo) ref) rt = Ok (last before ""%string) /\
  answer svc (getPreviousCommit (Some repo) ref) rt = Ok (hd ""%string after) /\
  answer svc (hasNeighborCommits (Some repo) ref) rt
  = Ok (match after with [] => false | _ => true end,
        match before with [] => false | _ => true end).
Proof.
  destruct (lookup_answers rt repo ref) as (-> & -> & ->). rewrite Hlist. simpl.
  now rewrite newerOf_at, olderOf_at, neighboursOf_at.
Qed.

(** X10: on a commit list without repeated ids the two lookups undo each
    other: if the previous commit of [ref] is [y] then the next commit of
    [y] is [ref], and if the next commit of [ref] is [x] then the previous
    commit of [x] is [ref]. *)
Theorem X10_next_and_previous_are_inverse (rt : Runtime) (repo : GitRepo)
    (l : list string) (ref other : string)
    (Hlist : answer svc (cachedOrLiveCommits repo) rt = Ok l)
    (Hids : NoDup l) (Hsome : other <> ""%string) :
  (answer svc (getPreviousCommit (Some repo) ref) rt = Ok other ->
   answer svc (getNextCommit (Some repo) other) rt = Ok ref) /\
  (answer svc (getNextCommit (Some repo) ref) rt = Ok other ->
   answer svc (getPreviousCommit (Some repo) other) rt = Ok ref).
Proof.
  destruct (lookup_answers rt repo ref) as (En & Ep & _).
  destruct (lookup_answers rt repo other) as (En' & Ep' & _).
  rewrite En, Ep, En', Ep', Hlist. simpl. clear En Ep En' Ep' Hlist.
  assert (Hin : forall y, (olderOf l ref = y \/ newerOf l ref = y) ->
                          y <> ""%string -> In ref l).
  { intros y Hy Hne. destruct (in_dec string_dec ref l) as [H | H]; [exact H |].
    destruct (lookups_absent l ref H) as (E1 & E2 & _). rewrite E1, E2 in Hy.
    destruct Hy; congruence. }
  split; intros H; injection H as H.
  - destruct (first_occurrence l ref (Hin other (or_introl H) Hsome))
      as (l1 & l2 & -> & Hn).
    rewrite olderOf_at in H by exact Hn.
    destruct l2 as [| y l2]; simpl in H; [congruence |]. subst y. f_equal.
    change (l1 ++ ref :: other :: l2) with (l1 ++ [ref] ++ other :: l2) in *.
    rewrite app_assoc in *. rewrite newerOf_at; [apply last_last |].
    apply NoDup_remove_2 in Hids. intros Hc. apply Hids.
    apply in_or_app. now left.
  - destruct (first_occurrence l ref (Hin other (or_intror H) Hsome))
      as (l1 & l2 & -> & Hn).
    rewrite newerOf_at in H by exact Hn.
    destruct l1 as [| z l1] using rev_ind; [simpl in H; congruence |].
    rewrite last_last in H. subst z. f_equal.
    rewrite <- app_assoc. simpl.
    rewrite olderOf_at; [reflexivity |].
    rewrite <- app_assoc in Hids. simpl in Hids.
    apply NoDup_remove_2 in Hids. intros Hc. apply Hids. apply in_or_app. now left.
Qed.

(** X11: on a commit list without the empty id, [hasNeighborCommits]
    says exactly whether the other two lookups find a commit. *)
Theorem X11_flags_agree_with_lookups (rt : Runtime) (repo : GitRepo)
    (l : list string) (ref : string)
    (Hlist : answer svc (cachedOrLiveCommits repo) rt = Ok l)
    (Hids : ~ In ""%string l) :
  exists previous next,
    answer svc (getPreviousCommit (Some repo) ref) rt = Ok previous /\
    answer svc (getNextCommit (Some repo) ref) rt = Ok next /\
    answer svc (hasNeighborCommits (Some repo) ref) rt
    = Ok (negb (String.eqb previous ""), negb (String.eqb next "")).
Proof.
  destruct (lookup_answers rt repo ref) as (-> & -> & ->). rewrite Hlist. simpl.
  exists (olderOf l ref), (newerOf l ref). repeat split. f_equal.
  destruct (in_dec string_dec ref l) as [H | H].
  - destruct (first_occurrence l ref H) as (l1 & l2 & -> & Hn).
    rewrite olderOf_at, newerOf_at, neighboursOf_at by exact Hn. f_equal.
    + destruct l2 as [| y l2]; simpl; [reflexivity |].
      destruct (String.eqb_spec y ""); [| reflexivity].
      exfalso. apply Hids. apply in_or_app. right. right. left. assumption.
    + destruct l1 as [| z l1] using rev_ind; [reflexivity |].
      rewrite last_last. destruct (l1 ++ [z]) eqn:E; [now destruct l1 |].
      destruct (String.eqb_spec z ""); [| reflexivity].
      exfalso. apply Hids. apply in_or_app. left. rewrite <- E.
      apply in_or_app. right. left. assumption.
  - destruct (lookups_absent l ref H) as (-> & -> & ->). reflexivity.
Qed.

End NeighboursInGeneral.

Lemma X9_neighbours_of_an_entry_witness :
  let rt := fst (run Scenario.loadedA boot) in
  answer Sample.git (getNextCommit (Some Sample.repoA) "a1") rt
  = Ok (last ["a3"; "a2"] "") /\
  answer Sample.git (getPreviousCommit (Some Sample.repoA) "a1") rt
  = Ok (hd "" ["a0"]) /\
  answer Sample.git (hasNeighborCommits (Some Sample.repoA) "a1") rt
  = Ok (true, true).
Proof.
  apply (@X9_neighbours_of_an_entry string Sample.git (fst (run Scenario.loadedA boot))
           Sample.repoA ["a3"; "a2"] ["a0"] "a1").
  - vm_compute. reflexivity.
  - simpl. intuition discriminate.
Defined.

Lemma X10_next_and_previous_are_inverse_witness :
  let rt := fst (run Scenario.loadedA boot) in
  (answer Sample.git (getPreviousCommit (Some Sample.repoA) "a2") rt = Ok "a1" ->
   answer Sample.git (getNextCommit (Some Sample.repoA) "a1") rt = Ok "a2") /\
  (answer Sample.git (getNextCommit (Some Sample.repoA) "a2") rt = Ok "a1" ->
   answer Sample.git (getPreviousCommit (Some Sample.repoA) "a1") rt = Ok "a2").
Proof.
  apply (@X10_next_and_previous_are_inverse string Sample.git
           (fst (run Scenario.loadedA boot)) Sample.repoA
           ["a3"; "a2"; "a1"; "a0"] "a2" "a1").
  - vm_compute. reflexivity.
  - repeat constructor; simpl; intuition discriminate.
  - discriminate.
Defined.

Lemma X11_flags_agree_with_lookups_witness :
  let rt := fst (run Scenario.loadedA boot) in
  exists previous next,
    answer Sample.git (getPreviousCommit (Some Sample.repoA) "a3") rt = Ok previous /\
    answer Sample.git (getNextCommit (Some Sample.repoA) "a3") rt = Ok next /\
    answer Sample.git (hasNeighborCommits (Some Sample.repoA) "a3") rt
    = Ok (negb (String.eqb previous ""), negb (String.eqb next "")).
Proof.
  apply (@X11_flags_agree_with_lookups string Sample.git
           (fst (run Scenario.loadedA boot)) Sample.repoA
           ["a3"; "a2"; "a1"; "a0"] "a3").
  - vm_compute. reflexivity.
  - simpl. intuition discriminate.
Defined.

(* ================================================================= *)
(** ** What a miss of [getLogEntries] leaves behind *)

Section LogEntryMisses.

Context {GitLogEntry : Type}.
Variable svc : @GitService GitLogEntry.
Variables (repo : GitRepo) (express : bool) (start count : Z) (branch : string)
          (isStash : option bool) (file : option Uri) (line : option Z)
          (author : option string).

Let key : string := queryKey branch isStash file line author.
Let call : @LiveCall GitLogEntry (list GitLogEntry) :=
  GetLogEntries repo express start count branch isStash file line author.
Let query : Prog (list GitLogEntry) :=
  getLogEntries repo express start count branch isStash file line author.
Let warm : TimerTask :=
  WarmLogEntries repo express branch isStash file line author key.

Local Open Scope Z_scope.

Local Arguments Js.length : simpl never.
Local Arguments Js.slice : simpl never.
Local Arguments logEntriesCount : simpl never.
Local Arguments Z.ltb : simpl never.
Local Arguments Z.geb : simpl never.
Local Arguments Z.eqb : simpl never.

Lemma slice_window {X} (l : list X) (from len : Z) :
  0 <= from -> 0 <= len ->
  Js.slice l from (from + len) = firstn (Z.to_nat len) (skipn (Z.to_nat from) l).
Proof.
  intros Hf Hl. unfold Js.slice, Js.clampIndex, Js.length.
  destruct (Z.ltb_spec from 0); [lia |].
  destruct (Z.ltb_spec (from + len) 0); [lia |].
  destruct (Z.le_gt_cases (Z.of_nat (List.length l)) from) as [Hout | Hin].
  - rewrite !Z.min_r by lia.
    rewrite skipn_all2 by lia. rewrite skipn_all2 by lia.
    now rewrite !firstn_nil.
  - rewrite (Z.min_l from) by lia.
    destruct (Z.le_gt_cases (from + len) (Z.of_nat (List.length l))) as [Hfit | Hcut].
    + rewrite Z.min_l by lia. f_equal. lia.
    + rewrite Z.min_r by lia.
      rewrite !firstn_all2; [reflexivity | |]; rewrite length_skipn; lia.
Qed.

Lemma slice_whole {X} (l : list X) (len : Z) :
  Js.length l <= len -> Js.slice l 0 (0 + len) = l.
Proof.
  intros H. unfold Js.length in H. rewrite slice_window by lia. simpl.
  apply firstn_all2. lia.
Qed.

Lemma useCache_withCache (g : @Cache GitLogEntry -> Cache) (d : Dataloader)
    (rootPath : string) :
  _useCache (withCache g d) rootPath = _useCache d rootPath.
Proof. reflexivity. Qed.

(** The state a storing miss leaves. *)
Lemma miss_stores (rt : Runtime) (entries : list GitLogEntry) :
  _useCache (loader rt) (root repo) = true ->
  Lru.find key (Lru.items (logEntries (_cache (loader rt)))) = None ->
  start = 0 -> logEntriesCount <= count ->
  perform svc call = Ok entries -> Js.length entries < logEntriesCount ->
  exec svc query rt
  = (setLoader (withCache (fun c => setLogEntries (Lru.set key entries (logEntries c)) c)
                          (loader rt)) rt,
     Ok entries, [anyCall call]).
Proof.
  unfold query, call, key, queryKey. intros Huse Hmiss -> Hroom Hlive Hshort.
  destruct rt as [[[b cs le ct] w r u h] ts tk n]. simpl in *.
  rewrite Huse. simpl. unfold Lru.get. rewrite Hmiss. simpl. rewrite Hlive. simpl.
  assert (E1 : (count >=? logEntriesCount) = true)
    by (rewrite Z.geb_leb; now apply Z.leb_le).
  assert (E2 : (Js.length entries <? logEntriesCount) = true) by now apply Z.ltb_lt.
  unfold Js.looseEq. rewrite E1, E2. reflexivity.
Qed.

(** The state a warming miss leaves. *)
Lemma miss_warms (rt : Runtime) (entries : list GitLogEntry) :
  _useCache (loader rt) (root repo) = true ->
  Lru.find key (Lru.items (logEntries (_cache (loader rt)))) = None ->
  start = 0 -> count < logEntriesCount ->
  perform svc call = Ok entries ->
  exec svc query rt
  = ({| loader := loader rt; timers := timers rt ++ [(nextTimer rt, warm)];
        tasks := tasks rt; nextTimer := S (nextTimer rt) |},
     Ok entries, [anyCall call]).
Proof.
  unfold query, call, key, warm, queryKey. intros Huse Hmiss -> Hsmall Hlive.
  destruct rt as [[[b cs le ct] w r u h] ts tk n]. simpl in *.
  rewrite Huse. simpl. unfold Lru.get. rewrite Hmiss. simpl. rewrite Hlive. simpl.
  assert (E1 : (count >=? logEntriesCount) = false)
    by (rewrite Z.geb_leb; apply Z.leb_gt; lia).
  assert (E3 : (count <? logEntriesCount) = true) by now apply Z.ltb_lt.
  unfold Js.looseEq. rewrite E1, E3. reflexivity.
Qed.

(** The warming callback, run out on a service that answers. *)
Lemma warming_stores (rt : Runtime) (page : list GitLogEntry) :
  perform svc (GetLogEntries repo express 0 logEntriesCount branch
                             isStash file line author) = Ok page ->
  exec svc (timerBody warm) rt
  = (setLoader (withCache (fun c => setLogEntries (Lru.set key page (logEntries c)) c)
                          (loader rt)) rt,
     Ok tt,
     [anyCall (GetLogEntries repo express 0 logEntriesCount branch
                             isStash file line author)]).
Proof.
  unfold warm, key. intros Hpage. destruct rt as [d ts tk n]. simpl in *.
  rewrite Hpage. reflexivity.
Qed.

Lemma dropTimer_last (l : list (nat * TimerTask)) (n : nat) (t : TimerTask) :
  (forall id t', In (id, t') l -> (id < n)%nat) ->
  dropTimer n (l ++ [(n, t)]) = l.
Proof.
  intros Hfresh. unfold dropTimer. rewrite filter_app. simpl. rewrite Nat.eqb_refl.
  simpl. rewrite app_nil_r. induction l as [| [id t'] l IH]; simpl; [reflexivity |].
  destruct (Nat.eqb_spec id n) as [-> | _].
  - specialize (Hfresh n t' (or_introl eq_refl)). lia.
  - simpl. f_equal. apply IH. intros id' t0 H. apply (Hfresh id' t0). now right.
Qed.

(** X12: a first page asked with room for a full page ([start] 0, [count]
    at least 1200) that misses the cache and comes back with fewer than
    1200 entries is the whole history: it is stored under the key, and the
    same query asked again is answered with the same entries from the
    cache, without a live call. *)
Theorem X12_complete_first_page_is_kept (rt : Runtime) (entries : list GitLogEntry)
    (Hreach : reachable rt)
    (Huse : _useCache (loader rt) (root repo) = true)
    (Hmiss : Lru.find key (Lru.items (logEntries (_cache (loader rt)))) = None)
    (Hfirst : start = 0) (Hroom : logEntriesCount <= count)
    (Hlive : perform svc call = Ok entries)
    (Hshort : Js.length entries < logEntriesCount) :
  let rt1 := stateAfter svc query rt in
  answer svc query rt = Ok entries /\
  callsMade svc query rt = [anyCall call] /\
  Lru.find key (Lru.items (logEntries (_cache (loader rt1)))) = Some entries /\
  answer svc query rt1 = Ok entries /\
  callsMade svc query rt1 = [].
Proof.
  destruct (reachable_wellRun rt Hreach) as [Hwf _].
  destruct (wf_logs rt Hwf) as (Hmax & _ & _).
  cbv zeta. unfold answer, callsMade, stateAfter.
  rewrite (miss_stores rt entries Huse Hmiss Hfirst Hroom Hlive Hshort). cbn [fst snd].
  assert (Hfound : Lru.find key (Lru.items (Lru.set key entries
                     (logEntries (_cache (loader rt))))) = Some entries)
    by (apply find_after_set; rewrite Hmax; lia).
  unfold query, key in *.
  erewrite getLogEntries_complete; [| exact Huse | exact Hfound | exact Hshort].
  cbn [fst snd]. subst start. rewrite slice_whole by lia. auto.
Qed.

(** X13: a miss that is not a first page, or a first page asked with room
    for a full page that comes back full, is answered live and leaves the
    state exactly as it was: nothing is stored and nothing is scheduled. *)
Theorem X13_other_misses_leave_no_trace (rt : Runtime) (entries : list GitLogEntry)
    (Huse : _useCache (loader rt) (root repo) = true)
    (Hmiss : Lru.find key (Lru.items (logEntries (_cache (loader rt)))) = None)
    (Hlive : perform svc call = Ok entries)
    (Hcase : start <> 0 \/
             (logEntriesCount <= count /\ logEntriesCount <= Js.length entries)) :
  exec svc query rt = (rt, Ok entries, [anyCall call]).
Proof.
  unfold query, call, key, queryKey in *.
  destruct rt as [[[b cs le ct] w r u h] ts tk n]. simpl in *.
  rewrite Huse. simpl. unfold Lru.get. rewrite Hmiss. simpl. rewrite Hlive. simpl.
  unfold Js.looseEq. destruct (Z.eqb_spec start 0) as [-> | Hne].
  - destruct Hcase as [Hc | [Hc1 Hc2]]; [contradiction |].
    assert (E1 : (count >=? logEntriesCount) = true)
      by (rewrite Z.geb_leb; now apply Z.leb_le).
    assert (E2 : (Js.length entries <? logEntriesCount) = false) by now apply Z.ltb_ge.
    assert (E3 : (count <? logEntriesCount) = false) by now apply Z.ltb_ge.
    rewrite E1, E2, E3. reflexivity.
  - reflexivity.
Qed.

(** X14: a first page asked for fewer than 1200 entries that misses the
    cache is answered live, stores nothing and arms one timer for the
    warming fetch.  When that callback has run, the full page it fetched
    is under the key, and the same query is cut out of it without a live
    call as soon as that page is the whole history or longer than the
    window. *)
Theorem X14_small_first_page_warms_the_cache (rt : Runtime)
    (entries page : list GitLogEntry)
    (Hreach : reachable rt)
    (Huse : _useCache (loader rt) (root repo) = true)
    (Hmiss : Lru.find key (Lru.items (logEntries (_cache (loader rt)))) = None)
    (Hfirst : start = 0) (Hsmall : count < logEntriesCount)
    (Hlive : perform svc call = Ok entries)
    (Hpage : perform svc (GetLogEntries repo express 0 logEntriesCount branch
                                        isStash file line author) = Ok page) :
  let rt1 := stateAfter svc query rt in
  let fired := setTimers (dropTimer (nextTimer rt) (timers rt1)) rt1 in
  let rt2 := stateAfter svc (timerBody warm) fired in
  answer svc query rt = Ok entries /\
  loader rt1 = loader rt /\
  timers rt1 = timers rt ++ [(nextTimer rt, warm)] /\
  timers rt2 = timers rt /\
  Lru.find key (Lru.items (logEntries (_cache (loader rt2)))) = Some page /\
  (Js.length page < logEntriesCount \/ count < Js.length page ->
   answer svc query rt2 = Ok (Js.slice page 0 (0 + count)) /\
   callsMade svc query rt2 = []).
Proof.
  destruct (reachable_wellRun rt Hreach) as [Hwf _].
  destruct (wf_logs rt Hwf) as (Hmax & _ & _).
  pose proof (wf_fresh rt Hwf) as Hfresh.
  cbv zeta. unfold answer, callsMade, stateAfter.
  rewrite (miss_warms rt entries Huse Hmiss Hfirst Hsmall Hlive). cbn [fst snd timers].
  rewrite dropTimer_last by exact Hfresh.
  rewrite (warming_stores _ page Hpage). cbn [fst snd].
  assert (Hfound : Lru.find key (Lru.items (Lru.set key page
                     (logEntries (_cache (loader rt))))) = Some page)
    by (apply find_after_set; rewrite Hmax; lia).
  repeat split; try exact Hfound; subst start; unfold query, key in *.
  - destruct (Z.lt_ge_cases (Js.length page) logEntriesCount) as [Hs | Hfull].
    + erewrite getLogEntries_complete; [reflexivity | exact Huse | exact Hfound | exact Hs].
    + destruct H as [H | H]; [lia |].
      erewrite getLogEntries_covered;
        [reflexivity | exact Huse | exact Hfound | exact Hfull | exact H].
  - destruct (Z.lt_ge_cases (Js.length page) logEntriesCount) as [Hs | Hfull].
    + erewrite getLogEntries_complete; [reflexivity | exact Huse | exact Hfound | exact Hs].
    + destruct H as [H | H]; [lia |].
      erewrite getLogEntries_covered;
        [reflexivity | exact Huse | exact Hfound | exact Hfull | exact H].
Qed.

(** X17: a window with non-negative bounds that the cache serves is made
    of the cached entries at positions [start] to [start + count - 1], as
    far as they exist: never more than [count] entries, and none at all
    when [start] lies beyond the cached history. *)
Theorem X17_served_window (rt : Runtime) (cached : list GitLogEntry)
    (Huse : _useCache (loader rt) (root repo) = true)
    (Hhit : Lru.find key (Lru.items (logEntries (_cache (loader rt)))) = Some cached)
    (Hserved : Js.length cached < logEntriesCount \/ start + count < Js.length cached)
    (Hstart : 0 <= start) (Hcount : 0 <= count) :
  answer svc query rt
  = Ok (firstn (Z.to_nat count) (skipn (Z.to_nat start) cached)) /\
  callsMade svc query rt = [] /\
  Js.length (firstn (Z.to_nat count) (skipn (Z.to_nat start) cached)) <= count /\
  (Js.length cached <= start ->
   firstn (Z.to_nat count) (skipn (Z.to_nat start) cached) = []).
Proof.
  assert (Hexec : exec svc query rt
                  = (setLoader (touchLogEntries key (loader rt)) rt,
                     Ok (Js.slice cached start (start + count)), [])).
  { destruct (Z.lt_ge_cases (Js.length cached) logEntriesCount) as [Hs | Hfull].
    - now apply getLogEntries_complete.
    - destruct Hserved as [Hs | Hin]; [lia |]. now apply getLogEntries_covered. }
  unfold answer, callsMade. rewrite Hexec. simpl.
  rewrite slice_window by assumption. repeat split.
  - unfold Js.length. rewrite length_firstn. lia.
  - intros Hout. unfold Js.length in Hout. rewrite skipn_all2 by lia.
    apply firstn_nil.
Qed.

End LogEntryMisses.

(* ================================================================= *)
(** ** After a bulk reload; failures of the service *)

Section ReloadAndFailures.

Context {GitLogEntry : Type}.
Variable svc : @GitService GitLogEntry.

Local Open Scope Z_scope.

Local Arguments Js.length : simpl never.
Local Arguments Js.slice : simpl never.
Local Arguments logEntriesCount : simpl never.
Local Arguments Z.ltb : simpl never.
Local Arguments Z.geb : simpl never.
Local Arguments Z.eqb : simpl never.

(** The key of a query without filters is the key the reload writes. *)
Lemma unfiltered_key (branch : string) (isStash : option bool) :
  Js.truthyBool isStash = false ->
  queryKey branch isStash None None None = logEntryKey branch None None None None.
Proof.
  unfold queryKey, logEntryKey. destruct isStash as [[|] |]; simpl;
    [discriminate | reflexivity | reflexivity].
Qed.

(** The state a bulk reload for the active repository leaves. *)
Lemma reload_applies (rt : Runtime) (repo : GitRepo) (b : option string)
    (cs : list string) (n : Z) (logs : list GitLogEntry) :
  repoRoot (loader rt) = Some (root repo) ->
  liveCurrentBranch svc repo = Ok b ->
  liveCommits svc repo (Some (Js.nullish b ""%string)) = Ok cs ->
  liveCommitsCount svc repo (Js.nullish b ""%string) None = Ok n ->
  liveLogEntries svc repo false 0 logEntriesCount (Js.nullish b ""%string)
                 None None None None = Ok logs ->
  let branch := Js.nullish b ""%string in
  stateAfter svc (timerBody (ReloadCaches repo)) rt
  = setLoader
      (setUpdating false
         (withCache (fun c =>
            {| branch := branch; commits := cs;
               logEntries := Lru.set (logEntryKey branch None None None None) logs
                                     (logEntries c);
               counts := Lru.set (countKey branch "") n (counts c) |})
          (loader rt))) rt.
Proof.
  intros Hactive Hb Hcs Hn Hlogs. destruct rt as [[c w r u h] ts tk m].
  unfold stateAfter. simpl in *. rewrite Hb. simpl. rewrite Hcs, Hn, Hlogs. simpl.
  rewrite Hactive. simpl. rewrite String.eqb_refl. reflexivity.
Qed.

(** X15: when a bulk reload for the active repository has run on a service
    that answers, the cache is usable again and holds what was fetched:
    the branch and the commit list are answered from it, so is the count
    of all authors' commits (asked with no author or an empty one, and
    unless it is 0), and so is every unfiltered window of the log that the
    fetched page covers, whatever [express] says; none of these asks the
    service. *)
Theorem X15_reload_serves_reads (rt : Runtime) (repo : GitRepo) (b : option string)
    (cs : list string) (n : Z) (logs : list GitLogEntry)
    (Hreach : reachable rt)
    (Hactive : repoRoot (loader rt) = Some (root repo))
    (Hb : liveCurrentBranch svc repo = Ok b)
    (Hcs : liveCommits svc repo (Some (Js.nullish b ""%string)) = Ok cs)
    (Hn : liveCommitsCount svc repo (Js.nullish b ""%string) None = Ok n)
    (Hlogs : liveLogEntries svc repo false 0 logEntriesCount (Js.nullish b ""%string)
                            None None None None = Ok logs) :
  let branch := Js.nullish b ""%string in
  let rt' := stateAfter svc (timerBody (ReloadCaches repo)) rt in
  _useCache (loader rt') (root repo) = true /\
  exec svc (getCurrentBranch (Some repo)) rt' = (rt', Ok branch, []) /\
  exec svc (cachedOrLiveCommits repo) rt' = (rt', Ok cs, []) /\
  (forall author, n <> 0 -> Js.nullish author ""%string = ""%string ->
     answer svc (getCommitsCount repo branch author) rt' = Ok n /\
     callsMade svc (getCommitsCount repo branch author) rt' = []) /\
  (forall express start count isStash,
     Js.truthyBool isStash = false ->
     Js.length logs < logEntriesCount \/ start + count < Js.length logs ->
     answer svc (getLogEntries repo express start count branch isStash None None None) rt'
     = Ok (Js.slice logs start (start + count)) /\
     callsMade svc (getLogEntries repo express start count branch isStash None None None) rt'
     = []).
Proof.
  destruct (reachable_wellRun rt Hreach) as [Hwf _].
  destruct (wf_logs rt Hwf) as (Hmaxl & _ & _).
  destruct (wf_counts rt Hwf) as (Hmaxc & _ & _).
  cbv zeta. rewrite (reload_applies rt repo b cs n logs Hactive Hb Hcs Hn Hlogs).
  set (branch := Js.nullish b ""%string).
  set (rt' := setLoader _ rt).
  assert (Huse : _useCache (loader rt') (root repo) = true).
  { subst rt'. unfold _useCache. simpl. unfold repoRoot in *. simpl.
    rewrite Hactive. simpl. now rewrite String.eqb_refl. }
  assert (Hfl : Lru.find (logEntryKey branch None None None None)
                  (Lru.items (logEntries (_cache (loader rt')))) = Some logs).
  { subst rt'. simpl. apply find_after_set. rewrite Hmaxl. lia. }
  assert (Hfc : Lru.find (countKey branch "")
                  (Lru.items (counts (_cache (loader rt')))) = Some n).
  { subst rt'. simpl. apply find_after_set. rewrite Hmaxc. lia. }
  split; [exact Huse |]. split; [| split; [| split]].
  - destruct rt' as [d ts tk m] eqn:E. simpl in *. rewrite Huse. simpl.
    subst rt'. destruct rt. simpl in E. injection E as <- _ _ _. reflexivity.
  - destruct rt' as [d ts tk m] eqn:E. simpl in *. rewrite Huse. simpl.
    subst rt'. destruct rt. simpl in E. injection E as <- _ _ _. reflexivity.
  - intros author Hne Hauthor. unfold answer, callsMade.
    rewrite (getCommitsCount_hit svc repo branch author rt' n);
      [auto | exact Huse | now rewrite Hauthor | exact Hne].
  - intros express start count isStash Hstash Hserved. unfold answer, callsMade.
    destruct (Z.lt_ge_cases (Js.length logs) logEntriesCount) as [Hs | Hfull].
    + rewrite (getLogEntries_complete svc repo express start count branch isStash
                 None None None rt' logs);
        [auto | exact Huse | now rewrite unfiltered_key | exact Hs].
    + destruct Hserved as [Hs | Hin]; [lia |].
      rewrite (getLogEntries_covered svc repo express start count branch isStash
                 None None None rt' logs);
        [auto | exact Huse | now rewrite unfiltered_key | exact Hfull | exact Hin].
Qed.

Lemma sameContents_refl (rt : @Runtime GitLogEntry) : sameContents rt rt.
Proof. repeat split. Qed.

Lemma sameContents_touchLogs (key : string) (rt : @Runtime GitLogEntry) :
  sameContents rt (setLoader (touchLogEntries key (loader rt)) rt).
Proof.
  repeat split. intros k. simpl. apply find_after_get.
Qed.

Lemma sameContents_touchCounts (key : string) (rt : @Runtime GitLogEntry) :
  sameContents rt (setLoader (touchCounts key (loader rt)) rt).
Proof.
  repeat split. intros k. simpl. apply find_after_get.
Qed.

(** X16: when a query is rejected, the error is the one the service raised
    for the query's own live call, that call is the only one made, and the
    loader is as before: nothing was stored, nothing scheduled, the refresh
    flag untouched (at most the key looked up became the most recent). *)
Theorem X16_failures_pass_through (rt : Runtime) (q : Query) (e : Error)
    (Hfail : answer svc (queryProg q) rt = Fail e) :
  liveAnswer svc q = Fail e /\
  callsMade svc (queryProg q) rt = liveCallOf q /\
  sameContents rt (stateAfter svc (queryProg q) rt).
Proof.
  unfold answer, callsMade, stateAfter in *.
  destruct q as [repo express start count branch isStash file line author
                | repo branch author | [repo |] | [repo |] ref | [repo |] ref
                | [repo |] ref]; try (simpl in Hfail; discriminate).
  - unfold queryProg in *. rewrite exec_bind in *.
    destruct (_useCache (loader rt) (root repo)) eqn:Huse.
    + destruct (Lru.find (queryKey branch isStash file line author)
                  (Lru.items (logEntries (_cache (loader rt))))) as [E |] eqn:Hfind.
      * destruct (Z.lt_ge_cases (Js.length E) logEntriesCount) as [Hs | Hfull].
        { rewrite (getLogEntries_complete svc repo express start count branch isStash
                     file line author rt E Huse Hfind Hs) in Hfail.
          simpl in Hfail. discriminate. }
        destruct (Z.lt_ge_cases (start + count) (Js.length E)) as [Hin | Hout].
        { rewrite (getLogEntries_covered svc repo express start count branch isStash
                     file line author rt E Huse Hfind Hfull Hin) in Hfail.
          simpl in Hfail. discriminate. }
        destruct (getLogEntries_uncovered svc repo express start count branch isStash
                    file line author rt E Huse Hfind Hfull Hout) as [Ha Hc].
        unfold answer, callsMade in Ha, Hc.
        revert Hfail Ha Hc.
        destruct rt as [d ts tk n]. simpl in Huse, Hfind. simpl.
        rewrite Huse. simpl. unfold Lru.get. unfold queryKey in Hfind. rewrite Hfind.
        cbn [fst snd]. apply Z.ltb_ge in Hfull. apply Z.ltb_ge in Hout.
        rewrite Hfull, Hout.
        destruct (liveLogEntries svc repo express start count branch isStash file line
                                 author) as [l | e'] eqn:El.
        { intros Hfail. exfalso. revert Hfail. cbn [bind exec perform].
          rewrite El.
          match goal with
          | |- context [exec svc ?p ?s] => destruct (exec svc p s) as [[s' [x|x]] cs'] eqn:Ex
          end; simpl; try discriminate.
          intros _. revert Ex.
          destruct (Js.looseEq start 0);
            [destruct ((count >=? logEntriesCount) && (Js.length l <? logEntriesCount));
             [| destruct (count <? logEntriesCount)] |]; simpl; discriminate. }
        cbn [bind exec perform]. rewrite El. simpl. intros Hfail _ _.
        injection Hfail as <-. repeat split.
        intros k. apply (find_after_get (queryKey branch isStash file line author) k
                          (logEntries (_cache d))) || idtac.
        simpl. destruct (String.eqb_spec
          (logEntryKey branch (Some (Js.nullish isStash false)) (option_map fsPath file)
                       line author) k) as [<- | Hne]; [now rewrite Hfind |].
        apply find_remove_other. congruence.
      * destruct (getLogEntries_miss svc repo express start count branch isStash
                    file line author rt Huse Hfind) as [Ha Hc].
        unfold answer, callsMade in Ha, Hc. revert Hfail Ha Hc.
        destruct rt as [[[b cs le ct] w r u h] ts tk n]. simpl in Huse, Hfind. simpl.
        rewrite Huse. simpl. unfold Lru.get. unfold queryKey in Hfind. rewrite Hfind.
        cbn [fst snd].
        destruct (liveLogEntries svc repo express start count branch isStash file line
                                 author) as [l | e'] eqn:El.
        { intros Hfail. exfalso. revert Hfail. cbn [bind exec perform].
          rewrite El.
          match goal with
          | |- context [exec svc ?p ?s] => destruct (exec svc p s) as [[s' [x|x]] cs'] eqn:Ex
          end; simpl; try discriminate.
          intros _. revert Ex.
          destruct (Js.looseEq start 0);
            [destruct ((count >=? logEntriesCount) && (Js.length l <? logEntriesCount));
             [| destruct (count <? logEntriesCount)] |]; simpl; discriminate. }
        cbn [bind exec perform]. rewrite El. simpl. intros Hfail _ _.
        injection Hfail as <-. repeat split.
    + rewrite (getLogEntries_bypass svc repo express start count branch isStash
                 file line author rt Huse) in *. simpl in *.
      destruct (liveLogEntries svc repo express start count branch isStash file line
                               author); simpl in *; [discriminate |].
      injection Hfail as <-. repeat split.
  - unfold queryProg in *. rewrite exec_bind in *.
    destruct rt as [[[b cs le ct] w r u h] ts tk n]. simpl in *.
    destruct (_useCache _ (root repo)) eqn:Huse; simpl in *.
    + unfold Lru.get in *.
      destruct (Lru.find (countKey branch (Js.nullish author ""%string)) (Lru.items ct))
        as [c |] eqn:Hfind; simpl in *.
      * destruct (Z.eqb_spec c 0) as [-> | Hne]; simpl in *; [| discriminate].
        destruct (liveCommitsCount svc repo branch author); simpl in *; [discriminate |].
        injection Hfail as <-. repeat split. intros k. simpl.
        destruct (String.eqb_spec (countKey branch (Js.nullish author ""%string)) k)
          as [<- | Hk]; [now rewrite Hfind |].
        apply find_remove_other. congruence.
      * destruct (liveCommitsCount svc repo branch author); simpl in *; [discriminate |].
        injection Hfail as <-. repeat split.
    + destruct (liveCommitsCount svc repo branch author); simpl in *; [discriminate |].
      injection Hfail as <-. repeat split.
  - destruct rt as [d ts tk n]. simpl in *.
    destruct (_useCache d (root repo)); simpl in *; [discriminate |].
    destruct (liveCurrentBranch svc repo); simpl in *; [discriminate |].
    injection Hfail as <-. repeat split.
  - destruct rt as [d ts tk n]. simpl in *.
    destruct (_useCache d (root repo)); simpl in *; [discriminate |].
    destruct (liveCommits svc repo None); simpl in *; [discriminate |].
    injection Hfail as <-. repeat split.
  - destruct rt as [d ts tk n]. simpl in *.
    destruct (_useCache d (root repo)); simpl in *; [discriminate |].
    destruct (liveCommits svc repo None); simpl in *; [discriminate |].
    injection Hfail as <-. repeat split.
  - destruct rt as [d ts tk n]. simpl in *.
    destruct (_useCache d (root repo)); simpl in *; [discriminate |].
    destruct (liveCommits svc repo None); simpl in *; [discriminate |].
    injection Hfail as <-. repeat split.
Qed.

End ReloadAndFailures.

Lemma X12_complete_first_page_is_kept_witness :
  let rt := fst (run Scenario.loadedA boot) in
  let q := getLogEntries Sample.repoA false 0 1200 "main" None None None (Some "bob") in
  let rt1 := stateAfter Sample.git q rt in
  answer Sample.git q rt = Ok Scenario.historyA /\
  answer Sample.git q rt1 = Ok Scenario.historyA /\
  callsMade Sample.git q rt1 = [].
Proof.
  destruct (@X12_complete_first_page_is_kept string Sample.git Sample.repoA false 0 1200
              "main" None None None (Some "bob") (fst (run Scenario.loadedA boot))
              Scenario.historyA)
    as (H1 & _ & _ & H2 & H3).
  - exists Scenario.loadedA. reflexivity.
  - vm_compute. reflexivity.
  - vm_compute. reflexivity.
  - reflexivity.
  - vm_compute. discriminate.
  - vm_compute. reflexivity.
  - vm_compute. reflexivity.
  - split; [exact H1 | split; [exact H2 | exact H3]].
Defined.

Lemma X13_other_misses_leave_no_trace_witness :
  let rt := fst (run Scenario.loadedA boot) in
  exec Sample.git
       (getLogEntries Sample.repoA false 2 2 "main" None None None (Some "bob")) rt
  = (rt, Ok ["a1"; "a0"],
     [anyCall (GetLogEntries Sample.repoA false 2 2 "main" None None None (Some "bob"))]).
Proof.
  apply (@X13_other_misses_leave_no_trace string Sample.git Sample.repoA false 2 2
           "main" None None None (Some "bob") (fst (run Scenario.loadedA boot))
           ["a1"; "a0"]).
  - vm_compute. reflexivity.
  - vm_compute. reflexivity.
  - vm_compute. reflexivity.
  - left. discriminate.
Defined.

Lemma X14_small_first_page_warms_the_cache_witness :
  let rt := fst (run Scenario.loadedA boot) in
  let q := getLogEntries Sample.repoA false 0 2 "main" None None None (Some "bob") in
  let warm := WarmLogEntries Sample.repoA false "main" None None None (Some "bob")
                             (queryKey "main" None None None (Some "bob")) in
  let rt1 := stateAfter Sample.git q rt in
  let fired := setTimers (dropTimer (nextTimer rt) (timers rt1)) rt1 in
  let rt2 := stateAfter Sample.git (timerBody warm) fired in
  answer Sample.git q rt = Ok ["a3"; "a2"] /\
  timers rt1 = timers rt ++ [(nextTimer rt, warm)] /\
  Lru.find (queryKey "main" None None None (Some "bob"))
           (Lru.items (logEntries (_cache (loader rt2)))) = Some Scenario.historyA /\
  answer Sample.git q rt2 = Ok (Js.slice Scenario.historyA 0 (0 + 2)) /\
  callsMade Sample.git q rt2 = [].
Proof.
  destruct (@X14_small_first_page_warms_the_cache string Sample.git Sample.repoA false 0 2
              "main" None None None (Some "bob") (fst (run Scenario.loadedA boot))
              ["a3"; "a2"] Scenario.historyA)
    as (H1 & _ & H2 & _ & H3 & H4).
  - exists Scenario.loadedA. reflexivity.
  - vm_compute. reflexivity.
  - vm_compute. reflexivity.
  - reflexivity.
  - vm_compute. reflexivity.
  - vm_compute. reflexivity.
  - vm_compute. reflexivity.
  - destruct H4 as [H4 H5]; [left; vm_compute; reflexivity |].
    split; [exact H1 | split; [exact H2 | split; [exact H3 | split; [exact H4 | exact H5]]]].
Defined.

Lemma X15_reload_serves_reads_witness :
  let rt := fst (run Scenario.reloadingA boot) in
  let rt' := stateAfter Sample.git (timerBody (ReloadCaches Sample.repoA)) rt in
  _useCache (loader rt') (root Sample.repoA) = true /\
  exec Sample.git (getCurrentBranch (Some Sample.repoA)) rt'
  = (rt', Ok (Js.nullish (Some "main") ""), []) /\
  answer Sample.git (getCommitsCount Sample.repoA (Js.nullish (Some "main") "") (Some ""))
         rt' = Ok 4%Z /\
  answer Sample.git
         (getLogEntries Sample.repoA true 1 2 (Js.nullish (Some "main") "")
                        (Some false) None None None) rt'
  = Ok (Js.slice Scenario.historyA 1 (1 + 2)).
Proof.
  destruct (@X15_reload_serves_reads string Sample.git (fst (run Scenario.reloadingA boot))
              Sample.repoA (Some "main") Scenario.historyA 4%Z Scenario.historyA)
    as (H1 & H2 & _ & H3 & H4).
  - exists Scenario.reloadingA. reflexivity.
  - vm_compute. reflexivity.
  - reflexivity.
  - reflexivity.
  - reflexivity.
  - vm_compute. reflexivity.
  - destruct (H3 (Some "") ltac:(discriminate) eq_refl) as [H3' _].
    destruct (H4 true 1%Z 2%Z (Some false) eq_refl) as [H4' _];
      [left; vm_compute; reflexivity |].
    split; [exact H1 | split; [exact H2 | split; [exact H3' | exact H4']]].
Defined.

Lemma X16_failures_pass_through_witness :
  let q := QNextCommit (Some Sample.repoA) "a1" in
  liveAnswer Sample.brokenGit q = Fail (ServiceError "git") /\
  callsMade Sample.brokenGit (queryProg q) boot = liveCallOf q /\
  sameContents boot (stateAfter Sample.brokenGit (queryProg q) boot).
Proof.
  apply (@X16_failures_pass_through string Sample.brokenGit boot
           (QNextCommit (Some Sample.repoA) "a1") (ServiceError "git")).
  reflexivity.
Defined.

Lemma X17_served_window_witness :
  let rt := fst (run Scenario.loadedA boot) in
  answer Sample.git (getLogEntries Sample.repoA false 1 2 "main" None None None None) rt
  = Ok (firstn (Z.to_nat 2) (skipn (Z.to_nat 1) Scenario.historyA)) /\
  callsMade Sample.git (getLogEntries Sample.repoA false 1 2 "main" None None None None) rt
  = [].
Proof.
  destruct (@X17_served_window string Sample.git Sample.repoA false 1 2 "main"
              None None None None (fst (run Scenario.loadedA boot)) Scenario.historyA)
    as (H1 & H2 & _).
  - vm_compute. reflexivity.
  - vm_compute. reflexivity.
  - left. vm_compute. reflexivity.
  - lia.
  - lia.
  - split; [exact H1 | exact H2].
Defined.

(* ================================================================= *)
(** ** Counts, the refresh flag, and an attach from start to end *)

Section CountsAndRefresh.

Context {GitLogEntry : Type}.
Variable svc : @GitService GitLogEntry.

(** X18: a commit count other than 0 that had to be fetched is kept: the
    query that missed is answered live and stores the count, and the same
    query asked again is answered with it from the cache, without a live
    call. *)
Theorem X18_nonzero_count_is_kept (rt : Runtime) (repo : GitRepo) (branch : string)
    (author : option string) (r : Z)
    (Hreach : reachable rt)
    (Huse : _useCache (loader rt) (root repo) = true)
    (Hmiss : Lru.find (countKey branch (Js.nullish author ""))
                      (Lru.items (counts (_cache (loader rt)))) = None)
    (Hlive : liveCommitsCount svc repo branch author = Ok r)
    (Hnz : r <> 0%Z) :
  let q := getCommitsCount repo branch author in
  let rt1 := stateAfter svc q rt in
  answer svc q rt = Ok r /\
  callsMade svc q rt = [anyCall (GetCommitsCount repo branch author)] /\
  answer svc q rt1 = Ok r /\
  callsMade svc q rt1 = [].
Proof.
  destruct (reachable_wellRun rt Hreach) as [Hwf _].
  destruct (wf_counts rt Hwf) as (Hmax & _ & _).
  assert (Hcap : (0 < Lru.max (counts (_cache (loader rt))))%nat) by (rewrite Hmax; lia).
  destruct (getCommitsCount_miss svc repo branch author rt r Huse Hmiss Hlive Hcap)
    as [Hexec Hfound].
  cbv zeta. unfold answer, callsMade. rewrite Hexec. cbn [fst snd].
  assert (Huse1 : _useCache (loader (stateAfter svc (getCommitsCount repo branch author) rt))
                            (root repo) = true).
  { unfold stateAfter. rewrite Hexec. exact Huse. }
  rewrite (getCommitsCount_hit svc repo branch author _ r Huse1 Hfound Hnz). auto.
Qed.

(** X19: a query that starts while the refresh flag is set is delegated
    and does not touch the loader, whatever the cache contains and
    whichever repository it asks about.  Run with nothing in between, it
    makes exactly its live call, is answered by it and leaves the state as
    it was.  On the event loop, starting it changes nothing and leaves
    that one call pending; whenever the call settles, in whatever state,
    the settling only ends the query, and the caller gets what the service
    answers then. *)
Theorem X19_refresh_flag_masks_cache (rt : Runtime) (q : Query) (repo : GitRepo)
    (Hq : queryRepo q = Some repo)
    (Hup : _updating (loader rt) = true) :
  exec svc (queryProg q) rt = (rt, liveAnswer svc q, liveCallOf q) /\
  exists t : Task,
    step svc (EvQuery q) rt = (setTasks (tasks rt ++ [t]) rt, []) /\
    origin t = ByCaller q /\
    [anyCall (awaited t)] = liveCallOf q /\
    forall svc' rt' n, nth_error (tasks rt') n = Some t ->
      step svc' (EvSettle n) rt'
      = (setTasks (dropNth n (tasks rt')) rt',
         [Settled (ByCaller q) (liveAnswer svc' q)]).
Proof.
  assert (Hm : masked (root repo) rt) by now apply updating_masked.
  assert (Ht : targets q (root repo)) by (unfold targets; now rewrite Hq).
  split.
  - now apply gate_bypass with (rootPath := root repo).
  - now apply gate_bypass_suspended with (rootPath := root repo).
Qed.

Lemma findTimer_last (l : list (nat * TimerTask)) (n : nat) (t : TimerTask) :
  (forall id t', In (id, t') l -> (id < n)%nat) ->
  findTimer n (l ++ [(n, t)]) = Some t.
Proof.
  intros Hfresh. induction l as [| [id t'] l IH]; simpl.
  - now rewrite Nat.eqb_refl.
  - destruct (Nat.eqb_spec id n) as [-> | _].
    + specialize (Hfresh n t' (or_introl eq_refl)). lia.
    + apply IH. intros id' t0 H. apply (Hfresh id' t0). now right.
Qed.

Lemma exec_void (p : Prog unit) (rt : @Runtime GitLogEntry) :
  stateAfter svc (void p) rt = stateAfter svc p rt /\
  callsMade svc (void p) rt = callsMade svc p rt /\
  answer svc (void p) rt = mapRes (fun _ => VVoid) (answer svc p rt).
Proof.
  unfold stateAfter, callsMade, answer, void. rewrite exec_bind.
  destruct (exec svc p rt) as [[rt1 [[] | e]] calls]; simpl; auto using app_nil_r.
Qed.

(** X20: attaching a repository and letting its reload run, on a service
    that answers: [updateRepo] switches, the timer it armed elapses, the
    two awaited calls settle.  The cache is then usable for the repository
    and holds the branch, the commit list, the count and the first page the
    service gave; no reload timer is armed any more and the tasks that were
    in flight before are still there. *)
Theorem X20_attach_then_reload (rt : Runtime) (repo : GitRepo) (b : option string)
    (cs : list string) (n : Z) (logs : list GitLogEntry)
    (Hreach : reachable rt)
    (Hswitch : strictEq (root repo) (repoRoot (loader rt)) = false)
    (Hb : liveCurrentBranch svc repo = Ok b)
    (Hcs : liveCommits svc repo (Some (Js.nullish b "")) = Ok cs)
    (Hn : liveCommitsCount svc repo (Js.nullish b "") None = Ok n)
    (Hlogs : liveLogEntries svc repo false 0 logEntriesCount (Js.nullish b "")
                            None None None None = Ok logs) :
  let here := List.length (tasks rt) in
  let h := [(svc, EvUpdateRepo repo); (svc, EvTimer (nextTimer rt));
            (svc, EvSettle here); (svc, EvSettle here)] in
  let rt' := fst (run h rt) in
  _repo (loader rt') = Some repo /\
  _useCache (loader rt') (root repo) = true /\
  branch (_cache (loader rt')) = Js.nullish b "" /\
  commits (_cache (loader rt')) = cs /\
  Lru.find (countKey (Js.nullish b "") "") (Lru.items (counts (_cache (loader rt'))))
  = Some n /\
  Lru.find (logEntryKey (Js.nullish b "") None None None None)
           (Lru.items (logEntries (_cache (loader rt')))) = Some logs /\
  reloadTimers rt' = [] /\
  warmTimers rt' = warmTimers rt /\
  tasks rt' = tasks rt.
Proof.
  destruct (reachable_wellRun rt Hreach) as [Hwf _].
  pose proof (wf_updateRepo repo rt Hwf) as Hwf1.
  set (rt1 := armed repo (setLoader (attached repo (loader rt)) rt)) in *.
  cbv zeta. rewrite run_step_state.
  assert (E1 : fst (step svc (EvUpdateRepo repo) rt) = rt1).
  { simpl. unfold launch. now rewrite updateRepo_result. }
  rewrite E1. rewrite run_step_state.
  set (ts := cancel (_updateDelay (loader rt)) (timers rt)).
  assert (Hfresh : forall id t, In (id, t) ts -> (id < nextTimer rt)%nat).
  { intros id t Hin. apply cancel_In in Hin as [Hin _]. apply (wf_fresh rt Hwf _ _ Hin). }
  set (rt2 := setTimers ts rt1).
  assert (E2 : step svc (EvTimer (nextTimer rt)) rt1
               = launch (ByTimer (ReloadCaches repo)) (void (timerBody (ReloadCaches repo)))
                        rt2).
  { unfold step. change (timers rt1) with (ts ++ [(nextTimer rt, ReloadCaches repo)]).
    rewrite findTimer_last by exact Hfresh. rewrite dropTimer_last by exact Hfresh.
    reflexivity. }
  rewrite E2.
  assert (Hroot : repoRoot (loader rt2) = Some (root repo)) by reflexivity.
  assert (Hcalls : List.length (callsMade svc (void (timerBody (ReloadCaches repo))) rt2)
                   = 2%nat).
  { destruct (exec_void (timerBody (ReloadCaches repo)) rt2) as (_ & -> & _).
    unfold callsMade. destruct rt2 as [d2 t2 k2 n2]. simpl. rewrite Hb. simpl.
    rewrite Hcs, Hn, Hlogs. simpl.
    destruct (negb (strictEq (root repo) (repoRoot d2))); reflexivity. }
  pose proof (exec_is_a_schedule svc (ByTimer (ReloadCaches repo))
                (void (timerBody (ReloadCaches repo))) rt2) as [Hstate _].
  cbv zeta in Hstate. rewrite Hcalls in Hstate.
  change (tasks rt2) with (tasks rt) in Hstate. simpl repeat in Hstate.
  rewrite Hstate.
  destruct (exec_void (timerBody (ReloadCaches repo)) rt2) as (-> & _ & _).
  rewrite (reload_applies svc rt2 repo b cs n logs Hroot Hb Hcs Hn Hlogs). cbv zeta.
  destruct (wf_logs _ Hwf1) as (Hmaxl & _ & _).
  destruct (wf_counts _ Hwf1) as (Hmaxc & _ & _).
  repeat split.
  - unfold _useCache, repoRoot. simpl. now rewrite String.eqb_refl.
  - unfold setLoader, setUpdating, withCache. cbn [loader _cache counts].
    apply find_after_set. simpl in Hmaxc. simpl. rewrite Hmaxc. lia.
  - unfold setLoader, setUpdating, withCache. cbn [loader _cache logEntries].
    apply find_after_set. simpl in Hmaxl. simpl. rewrite Hmaxl. lia.
  - unfold reloadTimers. simpl. apply cancel_leaves_no_reload.
    intros id r Hin. apply (wf_reload rt Hwf _ _ Hin).
  - unfold warmTimers. simpl. apply cancel_keeps_warm.
    intros id Hd. apply (wf_handle rt Hwf _ Hd).
Qed.

End CountsAndRefresh.

Lemma X18_nonzero_count_is_kept_witness :
  let rt := fst (run Scenario.loadedA boot) in
  let q := getCommitsCount Sample.repoA "main" (Some "bob") in
  let rt1 := stateAfter Sample.git q rt in
  answer Sample.git q rt = Ok 4%Z /\
  callsMade Sample.git q rt = [anyCall (GetCommitsCount Sample.repoA "main" (Some "bob"))] /\
  answer Sample.git q rt1 = Ok 4%Z /\
  callsMade Sample.git q rt1 = [].
Proof.
  apply (@X18_nonzero_count_is_kept string Sample.git (fst (run Scenario.loadedA boot))
           Sample.repoA "main" (Some "bob") 4%Z).
  - exists Scenario.loadedA. reflexivity.
  - vm_compute. reflexivity.
  - vm_compute. reflexivity.
  - reflexivity.
  - discriminate.
Defined.

Lemma X19_refresh_flag_masks_cache_witness :
  let rt := fst (run Scenario.reloadingA boot) in
  let q := QCurrentBranch (Some Sample.repoA) in
  exec Sample.git (queryProg q) rt = (rt, liveAnswer Sample.git q, liveCallOf q) /\
  exists t : Task,
    step Sample.git (EvQuery q) rt = (setTasks (tasks rt ++ [t]) rt, []) /\
    origin t = ByCaller q /\
    [anyCall (awaited t)] = liveCallOf q /\
    forall svc' rt' n, nth_error (tasks rt') n = Some t ->
      step svc' (EvSettle n) rt'
      = (setTasks (dropNth n (tasks rt')) rt',
         [Settled (ByCaller q) (liveAnswer svc' q)]).
Proof.
  apply (@X19_refresh_flag_masks_cache string Sample.git
           (fst (run Scenario.reloadingA boot))
           (QCurrentBranch (Some Sample.repoA)) Sample.repoA).
  - reflexivity.
  - vm_compute. reflexivity.
Defined.

Lemma X20_attach_then_reload_witness :
  let rt := fst (run Scenario.loadedA boot) in
  let here := List.length (tasks rt) in
  let h := [(Sample.git, EvUpdateRepo Sample.repoB); (Sample.git, EvTimer (nextTimer rt));
            (Sample.git, EvSettle here); (Sample.git, EvSettle here)] in
  let rt' := fst (run h rt) in
  _repo (loader rt') = Some Sample.repoB /\
  _useCache (loader rt') (root Sample.repoB) = true /\
  commits (_cache (loader rt')) = ["b1"; "b0"].
Proof.
  destruct (@X20_attach_then_reload string Sample.git (fst (run Scenario.loadedA boot))
              Sample.repoB (Some "main") ["b1"; "b0"] 2%Z ["b1"; "b0"])
    as (H1 & H2 & _ & H3 & _).
  - exists Scenario.loadedA. reflexivity.
  - vm_compute. reflexivity.
  - reflexivity.
  - reflexivity.
  - reflexivity.
  - vm_compute. reflexivity.
  - split; [exact H1 | split; [exact H2 | exact H3]].
Defined.

(* ================================================================= *)
(** ** Failed background fetches *)

Section FailedFetch.

Context {GitLogEntry : Type}.
Variable svc : @GitService GitLogEntry.

Lemma run_app (h1 h2 : list (GitService * Event)) (rt : @Runtime GitLogEntry) :
  run (h1 ++ h2) rt
  = (fst (run h2 (fst (run h1 rt))),
     snd (run h1 rt) ++ snd (run h2 (fst (run h1 rt)))).
Proof.
  revert rt. induction h1 as [| [s ev] h1 IH]; intros rt; simpl.
  - destruct (run h2 rt); reflexivity.
  - destruct (step s ev rt) as [rt1 o1]. rewrite IH.
    destruct (run h1 rt1) as [rt2 o2]. simpl. now rewrite app_assoc.
Qed.

(** A masked root stays masked, and its reads live, until a reload for it
    runs to its end. *)
Lemma masked_stays_live (rootPath : string) (rt : @Runtime GitLogEntry) :
  allTame rt -> masked rootPath rt -> liveUntilReload rootPath rt.
Proof.
  intros Htame Hm h Hno svc' q Hq.
  apply gate_bypass with (rootPath := rootPath); [| exact Hq].
  now apply run_masked.
Qed.

(** *** A timer callback writes only in the stretch that completes it *)

Lemma quiet_sound {A} (p : @Prog GitLogEntry A) (rt0 rt : Runtime) :
  quiet p rt0 rt ->
  match runSync p rt with
  | (_, Finished _) => True
  | (rt', Rejected _) => loader rt' = loader rt0
  | (rt', Blocked _ k) => loader rt' = loader rt0 /\ forall v rt'', quiet (k v) rt'' rt''
  end.
Proof.
  revert rt. induction p as [a | e0 | R c k IH | B op k IH]; intros rt H; simpl in *;
    try exact H.
  destruct (doOp op rt) as [b rt1]. simpl in H. now apply IH.
Qed.

Lemma quiet_timer (t : TimerTask) (rt : @Runtime GitLogEntry) :
  quiet (void (timerBody t)) rt rt.
Proof.
  destruct t as [repo | repo express branch isStash file line author key].
  - simpl. split; [reflexivity |]. intros b rt1. split; [reflexivity |].
    intros [[commits count] logs] [d ts tk n]. simpl.
    destruct (negb (strictEq (root repo) (repoRoot d))); simpl; exact I.
  - simpl. split; [reflexivity |]. intros entries [d ts tk n]. simpl. exact I.
Qed.

Lemma launch_quiet (o : Origin) (p : Prog Value) (rt : @Runtime GitLogEntry) :
  match o with ByTimer _ => quiet p rt rt | _ => True end ->
  allQuiet rt -> allQuiet (fst (launch o p rt)).
Proof.
  unfold allQuiet, launch. intros Hp Hrt.
  pose proof (runSync_tasks p rt) as Ht.
  pose proof (quiet_sound p rt rt) as Hs.
  destruct (runSync p rt) as [rt1 [v | e0 | R c k]]; simpl in *; rewrite Ht; try exact Hrt.
  apply Forall_app. split; [exact Hrt |]. constructor; [| constructor].
  unfold quietTask. simpl. destruct o; try exact I. now apply Hs.
Qed.

Lemma step_quiet (svc0 : GitService) (ev : Event) (rt : @Runtime GitLogEntry) :
  allQuiet rt -> allQuiet (fst (step svc0 ev rt)).
Proof.
  intros Hrt. destruct ev as [repo | | id | n | q]; simpl.
  - unfold launch. destruct (updateRepo_runs repo rt) as (rt1 & -> & Ht & _).
    simpl. unfold allQuiet. now rewrite Ht.
  - destruct (_fsWatcher (loader rt)) as [w |]; [| exact Hrt].
    unfold launch. destruct (updateCaches_runs (watchedRepo w) rt) as (rt1 & -> & Ht & _).
    simpl. unfold allQuiet. now rewrite Ht.
  - destruct (findTimer id (timers rt)) as [t |]; [| exact Hrt].
    apply launch_quiet; [apply quiet_timer | exact Hrt].
  - destruct (nth_error (tasks rt) n) as [t |] eqn:Et; [| exact Hrt].
    assert (Hrest : allQuiet (setTasks (dropNth n (tasks rt)) rt))
      by (apply dropNth_Forall; exact Hrt).
    destruct (perform svc0 (awaited t)) as [v | e0]; [| exact Hrest].
    apply launch_quiet; [| exact Hrest].
    apply nth_error_In in Et. unfold allQuiet in Hrt.
    rewrite Forall_forall in Hrt. specialize (Hrt t Et). unfold quietTask in Hrt.
    destruct (origin t); try exact I. apply Hrt.
  - apply launch_quiet; [exact I | exact Hrt].
Qed.

Lemma reachable_quiet (rt : @Runtime GitLogEntry) : reachable rt -> allQuiet rt.
Proof.
  intros [h <-]. assert (H0 : allQuiet (@boot GitLogEntry)) by constructor.
  revert H0. generalize (@boot GitLogEntry).
  induction h as [| [s ev] h IH]; intros rt Hrt; simpl; [exact Hrt |].
  pose proof (step_quiet s ev rt Hrt) as H1.
  destruct (step s ev rt) as [rt1 o1]. simpl in H1.
  specialize (IH rt1 H1). destruct (run h rt1) as [rt2 o2]. exact IH.
Qed.

Lemma launch_writes_at_end (task : TimerTask) (p : Prog Value) (rt : @Runtime GitLogEntry) :
  quiet p rt rt ->
  loader (fst (launch (ByTimer task) p rt)) = loader rt \/
  exists v, snd (launch (ByTimer task) p rt) = [Settled (ByTimer task) (Ok v)].
Proof.
  intros Hp. unfold launch. pose proof (quiet_sound p rt rt Hp) as Hs.
  destruct (runSync p rt) as [rt1 [v | e0 | R c k]]; simpl in *.
  - right. now exists v.
  - now left.
  - left. apply Hs.
Qed.

(** In any state the loader reaches, a step of a timer callback leaves
    the loader as it was unless it is the step in which the callback
    completes. *)
Lemma callback_writes_at_end (svc0 : GitService) (ev : Event) (task : TimerTask)
    (rt : @Runtime GitLogEntry) :
  reachable rt -> callbackStep ev rt = Some task ->
  loader (fst (step svc0 ev rt)) = loader rt \/
  exists v, snd (step svc0 ev rt) = [Settled (ByTimer task) (Ok v)].
Proof.
  intros Hreach Hcb. pose proof (reachable_quiet rt Hreach) as Hq.
  destruct ev as [repo | | id | n | q]; simpl in Hcb; try discriminate; simpl.
  - rewrite Hcb.
    apply (launch_writes_at_end task (void (timerBody task))
             (setTimers (dropTimer id (timers rt)) rt)).
    apply quiet_timer.
  - destruct (nth_error (tasks rt) n) as [t |] eqn:Et; simpl in Hcb; [| discriminate].
    destruct (origin t) as [? | ? | | task'] eqn:Eo; try discriminate.
    injection Hcb as ->.
    destruct (perform svc0 (awaited t)) as [v | e0]; [| now left].
    apply (launch_writes_at_end task (kont t v) (setTasks (dropNth n (tasks rt)) rt)).
    apply nth_error_In in Et. unfold allQuiet in Hq.
    rewrite Forall_forall in Hq. specialize (Hq t Et). unfold quietTask in Hq.
    rewrite Eo in Hq. apply Hq.
Qed.

(** A callback that fails, run from the firing of its timer with nothing
    in between: the timer is used up, nothing else has changed, and the
    one promise rejected is the callback's own. *)
Lemma failed_callback_run (rt : Runtime) (id : nat) (task : TimerTask) (e : Error) :
  findTimer id (timers rt) = Some task ->
  answer svc (timerBody task) rt = Fail e ->
  run (callbackOf svc id task rt) rt
  = (setTimers (dropTimer id (timers rt)) rt, [Settled (ByTimer task) (Fail e)]).
Proof.
  intros Harmed Hfail. set (fired := setTimers (dropTimer id (timers rt)) rt).
  destruct (callback_outcome_stateless svc rt fired task) as [Ha Hc].
  rewrite Ha in Hfail.
  destruct (exec_void svc (timerBody task) fired) as (Hs & Hcalls & Hans).
  pose proof (exec_is_a_schedule svc (ByTimer task) (void (timerBody task)) fired)
    as [Hstate Hout].
  cbv zeta in Hstate, Hout.
  rewrite Hcalls, <- Hc in Hstate, Hout.
  rewrite Hs, (failed_callback_writes_nothing svc fired task e Hfail) in Hstate.
  rewrite Hans, Hfail in Hout. simpl mapRes in Hout.
  change (tasks fired) with (tasks rt) in Hstate, Hout.
  unfold callbackOf. simpl run. rewrite Harmed. fold fired.
  destruct (launch (ByTimer task) (void (timerBody task)) fired) as [rt1 o1].
  cbn [fst snd] in Hstate, Hout.
  destruct (run _ rt1) as [rt2 o2]. cbn [fst snd] in Hstate, Hout.
  now rewrite Hstate, Hout.
Qed.

(** C8 (amended): a call awaited by a timer callback, a bulk reload or a
    warming fetch, is rejected.  The rejection ends the callback and does
    nothing else: the one promise rejected is the callback's own, which
    nobody awaits; no field of the loader and no timer changes, so the
    refresh flag is left as it was; the loader goes on with whatever
    comes next.  If the flag is set at that moment, reads stay delegated
    to the service for as long as no bulk reload for their repository
    runs to its end.  No earlier step of the callback has changed the
    loader either, whatever came in between: a timer callback writes only
    in the step that completes it, so the entries concerned stay unset or
    unrefreshed.  Run from the firing of its timer with nothing in
    between, a callback that fails leaves the state as it found it, the
    timer used up. *)
Theorem C8_failed_background_fetch (rt : Runtime) (n : nat) (task : TimerTask) (e : Error)
    (Hreach : reachable rt)
    (Hfail : rejectedAt svc n rt = Some (ByTimer task, e)) :
  let rt' := setTasks (dropNth n (tasks rt)) rt in
  step svc (EvSettle n) rt = (rt', [Settled (ByTimer task) (Fail e)]) /\
  (forall h, run ((svc, EvSettle n) :: h) rt
             = (fst (run h rt'), Settled (ByTimer task) (Fail e) :: snd (run h rt'))) /\
  (_updating (loader rt) = true -> forall rootPath, liveUntilReload rootPath rt') /\
  (forall svc0 ev (rt0 : @Runtime GitLogEntry),
     reachable rt0 -> callbackStep ev rt0 = Some task ->
     loader (fst (step svc0 ev rt0)) = loader rt0 \/
     exists v, snd (step svc0 ev rt0) = [Settled (ByTimer task) (Ok v)]) /\
  (forall rt0 id e0,
     findTimer id (timers rt0) = Some task ->
     answer svc (timerBody task) rt0 = Fail e0 ->
     run (callbackOf svc id task rt0) rt0
     = (setTimers (dropTimer id (timers rt0)) rt0, [Settled (ByTimer task) (Fail e0)])).
Proof.
  intros rt'. unfold rejectedAt in Hfail.
  destruct (nth_error (tasks rt) n) as [t |] eqn:Et; [| discriminate].
  destruct (perform svc (awaited t)) as [v | e1] eqn:Ep; [discriminate |].
  injection Hfail as Ho <-.
  assert (Hstep : step svc (EvSettle n) rt = (rt', [Settled (ByTimer task) (Fail e1)])).
  { rewrite (settle_rejected svc rt n t e1 Et Ep), Ho. reflexivity. }
  split; [exact Hstep |]. split; [| split; [| split]].
  - intros h. simpl run. simpl step in Hstep. rewrite Hstep.
    destruct (run h rt'); reflexivity.
  - intros Hup rootPath. apply masked_stays_live.
    + apply dropNth_Forall. now apply reachable_tame.
    + now apply updating_masked.
  - intros svc0 ev rt0. apply callback_writes_at_end.
  - intros rt0 id e0. apply failed_callback_run.
Qed.

End FailedFetch.

Lemma C8_failed_background_fetch_witness :
  let rt := fst (run Sample.reloadAboutToFail boot) in
  let task := ReloadCaches Sample.repoA in
  let e := ServiceError "git" in
  let rt' := setTasks (dropNth 0 (tasks rt)) rt in
  step Sample.brokenGit (EvSettle 0) rt = (rt', [Settled (ByTimer task) (Fail e)]) /\
  (forall h, run ((Sample.brokenGit, EvSettle 0) :: h) rt
             = (fst (run h rt'), Settled (ByTimer task) (Fail e) :: snd (run h rt'))) /\
  (forall rootPath, liveUntilReload rootPath rt') /\
  (loader (fst (step Sample.brokenGit (EvTimer 0) Sample.attachedBroken))
   = loader Sample.attachedBroken \/
   exists v, snd (step Sample.brokenGit (EvTimer 0) Sample.attachedBroken)
             = [Settled (ByTimer task) (Ok v)]) /\
  run (callbackOf Sample.brokenGit 0 task Sample.attachedBroken) Sample.attachedBroken
  = (setTimers [] Sample.attachedBroken, [Settled (ByTimer task) (Fail e)]).
Proof.
  destruct (@C8_failed_background_fetch string Sample.brokenGit
              (fst (run Sample.reloadAboutToFail boot)) 0 (ReloadCaches Sample.repoA)
              (ServiceError "git")) as (H1 & H2 & H3 & H4 & H5).
  - exists Sample.reloadAboutToFail. reflexivity.
  - vm_compute. reflexivity.
  - split; [exact H1 |]. split; [exact H2 |]. split; [| split].
    + apply H3. vm_compute. reflexivity.
    + apply (H4 Sample.brokenGit (EvTimer 0) Sample.attachedBroken).
      * exists (Sample.with_ Sample.brokenGit [EvUpdateRepo Sample.repoA]). reflexivity.
      * vm_compute. reflexivity.
    + apply (H5 Sample.attachedBroken 0%nat (ServiceError "git")).
      * vm_compute. reflexivity.
      * vm_compute. reflexivity.
Defined.
